(** * Holdings ledger of the tfsa-llm scripts: a shallow embedding

    The three scripts [apply_trades.py], [ledger_tui.py] and [record_week.py]
    keep a holdings table under weighted-average-cost accounting.  All of
    their arithmetic is done with Python's [decimal.Decimal] under the
    default context (28 significant digits, ROUND_HALF_EVEN, Emax = 999999,
    Emin = -999999, traps on InvalidOperation, DivisionByZero and Overflow).

    This file embeds
    - the finite decimals and the operations the scripts use on them
      ([+], [-], [*], [/], comparisons, [quantize], [str] and the string
      constructor), following the General Decimal Arithmetic semantics that
      the [decimal] module implements;
    - the dictionaries of the scripts, as association lists in insertion
      order;
    - the functions [apply_equity], [apply_crypto], [load_holdings],
      [write_holdings] / [save_holdings] and the [main] drivers.

    Strings are sequences of 8-bit characters; identifiers are ASCII.
    NaN and the infinities are outside the embedding: the string
    constructor reports them as [Special], and the loaders stop there. *)

From Stdlib Require Import ZArith NArith QArith Qround Qpower Field.
From Stdlib Require Import List String Ascii Bool Lia.
From Stdlib Require Import Permutation Sorted.
Import ListNotations.

Local Open Scope Z_scope.

(** ** Outcomes of a run *)

(** Conditions of the default context that are trapped, i.e. raise. *)
Inductive signal : Type :=
| InvalidOperation
| DivisionByZero
| Overflow.

(** What stops a script:  [die] (message on stderr, [sys.exit(1)]) with the
    kind of message, the [ValueError]s of [ledger_tui.py], a [decimal]
    exception, a [TypeError] of [sorted], an [IndexError], a missing input
    file, or a value outside the embedding. *)
Inductive error : Type :=
| NoFillsForTrade (action ticker : string)
| QuantityMismatch (ticker : string)
| CurrencyMismatch (ticker : string)
| NoSuchPosition (ticker : string)
| InsufficientPosition (ticker : string)
| NonPositiveQuantity (ticker : string)
| InvalidAction
| DecimalException (s : signal)
| TypeError
| IndexError
| FileNotFoundError
| Special.

Inductive result (A : Type) : Type :=
| Ok (a : A)
| Err (e : error).
Arguments Ok {A} a.
Arguments Err {A} e.

Definition bind {A B : Type} (r : result A) (k : A -> result B) : result B :=
  match r with
  | Ok a => k a
  | Err e => Err e
  end.

Declare Scope result_scope.
Delimit Scope result_scope with result.
Notation "x <- r ;; k" := (bind r (fun x => k))
  (at level 61, r at next level, right associativity) : result_scope.
Local Open Scope result_scope.

(** ** Decimals *)

Module Dec.

(** A finite [Decimal]: sign, coefficient and exponent ([_sign], [_int],
    [_exp]); its value is [(-1)^sign * int * 10^exp]. *)
Record decimal : Type := mkdec {
  dsign : bool;
  dint : N;
  dexp : Z
}.

Definition prec : Z := 28.
Definition Emax : Z := 999999.
Definition Emin : Z := -999999.
Definition Etiny : Z := Emin - prec + 1.
Definition Etop : Z := Emax - prec + 1.

Definition coeff (d : decimal) : Z := Z.of_N (dint d).

Definition triple (s : bool) (c : Z) (e : Z) : decimal :=
  mkdec s (Z.to_N c) e.

(** The coefficient with its sign. *)
Definition scoeff (d : decimal) : Z :=
  if dsign d then - coeff d else coeff d.

Definition is_zero (d : decimal) : bool := coeff d =? 0.

(** [len(str(c))] for a coefficient [c >= 0]. *)
Fixpoint ndigits_aux (fuel : nat) (c : Z) : Z :=
  match fuel with
  | O => 1
  | S f => if c <? 10 then 1 else 1 + ndigits_aux f (c / 10)
  end.

Definition ndigits (c : Z) : Z := ndigits_aux (S (Z.to_nat (Z.log2 c))) c.

(** [adjusted()]: the exponent of the leading digit. *)
Definition adjusted (d : decimal) : Z := dexp d + ndigits (coeff d) - 1.

(** Dropping the [k] low digits of [c]: ROUND_HALF_UP rounds up when the
    first dropped digit is 5 or more, ROUND_HALF_EVEN when the dropped part
    is above one half, or is one half and the kept part is odd. *)
Definition round_half_up (c k : Z) : Z :=
  let p := 10 ^ k in
  c / p + (if 2 * (c mod p) >=? p then 1 else 0).

Definition round_half_even (c k : Z) : Z :=
  let p := 10 ^ k in
  let q := c / p in
  let r := c mod p in
  if (2 * r >? p) || ((2 * r =? p) && Z.odd q) then q + 1 else q.

(** [_fix]: bring a result into the context: clamp the exponent of a zero,
    signal Overflow above Emax, round to [prec] digits (fewer for a
    subnormal). *)
Definition fix_ (d : decimal) : result decimal :=
  let c := coeff d in
  if c =? 0 then
    Ok (mkdec (dsign d) 0 (Z.min (Z.max (dexp d) Etiny) Emax))
  else
    let exp_min := ndigits c + dexp d - prec in
    if exp_min >? Etop then Err (DecimalException Overflow)
    else
      let exp_min := if exp_min <? Etiny then Etiny else exp_min in
      if dexp d <? exp_min then
        let c' := round_half_even c (exp_min - dexp d) in
        let '(c'', e'') :=
          if ndigits c' >? prec then (c' / 10, exp_min + 1) else (c', exp_min) in
        if e'' >? Etop then Err (DecimalException Overflow)
        else Ok (triple (dsign d) c'' e'')
      else Ok d.

(** [_rescale(exp, rounding)] with ROUND_HALF_UP. *)
Definition rescale_half_up (d : decimal) (e : Z) : decimal :=
  if is_zero d then mkdec (dsign d) 0 e
  else if dexp d >=? e then triple (dsign d) (coeff d * 10 ^ (dexp d - e)) e
  else triple (dsign d) (round_half_up (coeff d) (e - dexp d)) e.

(** [self.quantize(Decimal with exponent e, rounding=ROUND_HALF_UP)]. *)
Definition quantize_half_up (d : decimal) (e : Z) : result decimal :=
  if negb ((Etiny <=? e) && (e <=? Emax)) then Err (DecimalException InvalidOperation)
  else if is_zero d then fix_ (mkdec (dsign d) 0 e)
  else if adjusted d >? Emax then Err (DecimalException InvalidOperation)
  else if adjusted d - e + 1 >? prec then Err (DecimalException InvalidOperation)
  else
    let ans := rescale_half_up d e in
    if adjusted ans >? Emax then Err (DecimalException InvalidOperation)
    else if ndigits (coeff ans) >? prec then Err (DecimalException InvalidOperation)
    else fix_ ans.

(** [a + b]: the exact sum at the smaller exponent, then [_fix].  A zero
    sum is negative only when both operands are. *)
Definition add (a b : decimal) : result decimal :=
  let e := Z.min (dexp a) (dexp b) in
  let s := scoeff a * 10 ^ (dexp a - e) + scoeff b * 10 ^ (dexp b - e) in
  let sg := if s =? 0 then dsign a && dsign b else s <? 0 in
  fix_ (triple sg (Z.abs s) e).

Definition neg (a : decimal) : decimal :=
  mkdec (negb (dsign a)) (dint a) (dexp a).

(** [a - b] is [a + (-b)]. *)
Definition sub (a b : decimal) : result decimal := add a (neg b).

Definition mul (a b : decimal) : result decimal :=
  fix_ (triple (xorb (dsign a) (dsign b)) (coeff a * coeff b) (dexp a + dexp b)).

(** Removing trailing zeros of an exact quotient while the exponent is
    below the ideal one. *)
Fixpoint strip_to (fuel : nat) (c e ideal : Z) : Z * Z :=
  match fuel with
  | O => (c, e)
  | S f =>
      if (e <? ideal) && (c mod 10 =? 0) then strip_to f (c / 10) (e + 1) ideal
      else (c, e)
  end.

(** [a / b] ([__truediv__]): [prec + 1] or [prec + 2] digits of the
    quotient, a sticky last digit when the division is inexact, then
    [_fix]. *)
Definition div (a b : decimal) : result decimal :=
  let sg := xorb (dsign a) (dsign b) in
  if is_zero b then
    if is_zero a then Err (DecimalException InvalidOperation)
    else Err (DecimalException DivisionByZero)
  else if is_zero a then fix_ (mkdec sg 0 (dexp a - dexp b))
  else
    let shift := ndigits (coeff b) - ndigits (coeff a) + prec + 1 in
    let e := dexp a - dexp b - shift in
    let num := if shift >=? 0 then coeff a * 10 ^ shift else coeff a in
    let den := if shift >=? 0 then coeff b else coeff b * 10 ^ (- shift) in
    let q := num / den in
    let r := num mod den in
    let '(c, e') :=
      if r =? 0 then
        strip_to (Z.to_nat shift) q e (dexp a - dexp b)
      else (if q mod 5 =? 0 then q + 1 else q, e) in
    fix_ (triple sg c e').

(** Numerical comparison (exact, independent of the context). *)
Definition cmp (a b : decimal) : comparison :=
  let e := Z.min (dexp a) (dexp b) in
  Z.compare (scoeff a * 10 ^ (dexp a - e)) (scoeff b * 10 ^ (dexp b - e)).

Definition eqb (a b : decimal) : bool :=
  match cmp a b with Eq => true | _ => false end.
Definition ltb (a b : decimal) : bool :=
  match cmp a b with Lt => true | _ => false end.
Definition gtb (a b : decimal) : bool :=
  match cmp a b with Gt => true | _ => false end.
Definition leb (a b : decimal) : bool :=
  match cmp a b with Gt => false | _ => true end.

(** [Decimal("0")] and decimals written as an integer times a power of
    ten. *)
Definition zero : decimal := mkdec false 0 0.
Definition of_Z (c : Z) (e : Z) : decimal := triple (c <? 0) (Z.abs c) e.

End Dec.

(** ** Text: [str(Decimal)], [Decimal(str)], [strip] and [upper] *)

Module Text.

Import Dec.

Definition chars := list ascii.

Definition code (c : ascii) : Z := Z.of_N (N_of_ascii c).
Definition chr (n : Z) : ascii := ascii_of_N (Z.to_N n).

Definition is_digit (c : ascii) : bool := (48 <=? code c) && (code c <=? 57).
Definition digit_val (c : ascii) : Z := code c - 48.
Definition digit_char (d : Z) : ascii := chr (48 + d).

(** [str(c)] for an integer [c >= 0]: its decimal digits. *)
Fixpoint digits_aux (fuel : nat) (c : Z) (acc : chars) : chars :=
  match fuel with
  | O => acc
  | S f =>
      let acc' := digit_char (c mod 10) :: acc in
      if c <? 10 then acc' else digits_aux f (c / 10) acc'
  end.

Definition digits (c : Z) : chars := digits_aux (S (Z.to_nat (Z.log2 c))) c [].

(** [int(s)] for a string of digits (0 for the empty string, which the
    callers exclude). *)
Definition int_of_digits (s : chars) : Z :=
  fold_left (fun acc c => 10 * acc + digit_val c) s 0.

Definition zeros (n : Z) : chars := repeat "0"%char (Z.to_nat n).

Definition len (s : chars) : Z := Z.of_nat (List.length s).

(** ["%+d" % n] *)
Definition signed_digits (n : Z) : chars :=
  (if n <? 0 then "-"%char else "+"%char) :: digits (Z.abs n).

(** [Decimal.__str__]: plain notation when the exponent is at most 0 and
    there are at most 6 leading zeros after the point, scientific notation
    otherwise. *)
Definition str_chars (d : decimal) : chars :=
  let int_ := digits (coeff d) in
  let sign := if dsign d then ["-"%char] else [] in
  let leftdigits := dexp d + len int_ in
  let dotplace :=
    if (dexp d <=? 0) && (leftdigits >? -6) then leftdigits else 1 in
  let '(intpart, fracpart) :=
    if dotplace <=? 0 then
      (["0"%char], "."%char :: zeros (- dotplace) ++ int_)
    else if dotplace >=? len int_ then
      (int_ ++ zeros (dotplace - len int_), [])
    else
      (firstn (Z.to_nat dotplace) int_,
       "."%char :: skipn (Z.to_nat dotplace) int_) in
  let exp :=
    if leftdigits =? dotplace then []
    else "E"%char :: signed_digits (leftdigits - dotplace) in
  sign ++ intpart ++ fracpart ++ exp.

Definition str (d : decimal) : string := string_of_list_ascii (str_chars d).

(** ASCII white space, as [str.strip()] removes it. *)
Definition is_space (c : ascii) : bool :=
  let n := code c in
  ((9 <=? n) && (n <=? 13)) || ((28 <=? n) && (n <=? 32)).

Fixpoint lstrip (s : chars) : chars :=
  match s with
  | c :: s' => if is_space c then lstrip s' else s
  | [] => []
  end.

Definition rstrip (s : chars) : chars := rev (lstrip (rev s)).

Definition strip_chars (s : chars) : chars := rstrip (lstrip s).

(** [str.upper()] on ASCII letters. *)
Definition upper_char (c : ascii) : ascii :=
  if (97 <=? code c) && (code c <=? 122) then chr (code c - 32) else c.

Definition lower_char (c : ascii) : ascii :=
  if (65 <=? code c) && (code c <=? 90) then chr (code c + 32) else c.

Definition strip (s : string) : string :=
  string_of_list_ascii (strip_chars (list_ascii_of_string s)).

Definition upper (s : string) : string :=
  string_of_list_ascii (map upper_char (list_ascii_of_string s)).

(** [row[...].strip().upper()], the normal form of identifiers and
    currencies. *)
Definition normalize (s : string) : string := upper (strip s).

(** The longest prefix of digits, and the rest. *)
Fixpoint span_digits (s : chars) : chars * chars :=
  match s with
  | c :: s' =>
      if is_digit c then let '(d, r) := span_digits s' in (c :: d, r)
      else ([], s)
  | [] => ([], [])
  end.

Definition chars_eqb (a b : chars) : bool :=
  String.eqb (string_of_list_ascii a) (string_of_list_ascii b).

(** The non-finite literals of the constructor: [Inf], [Infinity], [NaN]
    and [sNaN] with optional diagnostic digits, in any case. *)
Definition is_special (s : chars) : bool :=
  let l := map lower_char s in
  chars_eqb l (list_ascii_of_string "inf")
  || chars_eqb l (list_ascii_of_string "infinity")
  || (chars_eqb (firstn 3 l) (list_ascii_of_string "nan")
      && forallb is_digit (skipn 3 l))
  || (chars_eqb (firstn 4 l) (list_ascii_of_string "snan")
      && forallb is_digit (skipn 4 l)).

Definition take_sign (s : chars) : bool * chars :=
  match s with
  | c :: s' =>
      if Ascii.eqb c "-" then (true, s')
      else if Ascii.eqb c "+" then (false, s')
      else (false, s)
  | [] => (false, [])
  end.

(** The exponent part: nothing, or [E] with an optionally signed, non-empty
    digit string that ends the literal. *)
Definition parse_exp (s : chars) : option Z :=
  match s with
  | [] => Some 0
  | c :: s' =>
      if Ascii.eqb (lower_char c) "e" then
        let '(sg, s'') := take_sign s' in
        let '(d, r) := span_digits s'' in
        match d, r with
        | _ :: _, [] => Some (if sg then - int_of_digits d else int_of_digits d)
        | _, _ => None
        end
      else None
  end.

(** [Decimal(s)] for a string [s]: white space stripped, underscores
    removed, then an optional sign, digits, an optional point with digits
    and an optional exponent part, with a digit before or after the point.
    The conversion is exact. *)
Definition of_chars (s : chars) : result decimal :=
  let s := filter (fun c => negb (Ascii.eqb c "_")) (strip_chars s) in
  let '(sg, s1) := take_sign s in
  if is_special s1 then Err Special
  else
    let '(intpart, s2) := span_digits s1 in
    let '(fracpart, s3) :=
      match s2 with
      | c :: r => if Ascii.eqb c "." then span_digits r else ([], s2)
      | [] => ([], [])
      end in
    match intpart ++ fracpart, parse_exp s3 with
    | _ :: _, Some e =>
        Ok (triple sg (int_of_digits (intpart ++ fracpart)) (e - len fracpart))
    | _, _ => Err (DecimalException InvalidOperation)
    end.

Definition of_string (s : string) : result decimal :=
  of_chars (list_ascii_of_string s).

(** [D = lambda x: Decimal(str(x))], on a decimal and on a string. *)
Definition D (x : decimal) : result decimal := of_string (str x).
Definition D_str (s : string) : result decimal := of_string s.

End Text.

(** ** Dictionaries *)

(** A Python [dict] keeps its keys in insertion order; assigning to a key
    that is present keeps the key's place. *)
Module Dict.
Section Dict.
Context {K V : Type} (keq : K -> K -> bool).

Definition dict : Type := list (K * V).

Fixpoint get (k : K) (d : dict) : option V :=
  match d with
  | [] => None
  | (k', v) :: d' => if keq k k' then Some v else get k d'
  end.

Fixpoint set (k : K) (v : V) (d : dict) : dict :=
  match d with
  | [] => [(k, v)]
  | (k', v') :: d' => if keq k k' then (k', v) :: d' else (k', v') :: set k v d'
  end.

Fixpoint del (k : K) (d : dict) : dict :=
  match d with
  | [] => []
  | (k', v') :: d' => if keq k k' then d' else (k', v') :: del k d'
  end.

Definition keys (d : dict) : list K := map fst d.
Definition values (d : dict) : list V := map snd d.
End Dict.
End Dict.

(** [sorted(rows, key=...)] on string keys: a stable sort that compares
    with [<]; an element goes after every element that is not above it. *)
Section Sorted.
Context {A : Type} (key : A -> string).

Fixpoint insert_by (x : A) (l : list A) : list A :=
  match l with
  | [] => [x]
  | y :: l' =>
      if String.ltb (key x) (key y) then x :: y :: l' else y :: insert_by x l'
  end.

Definition sorted_by (l : list A) : list A :=
  fold_left (fun acc x => insert_by x acc) l [].
End Sorted.

(** [for x in xs: ...] over a body that may stop the script. *)
Fixpoint for_each {S X : Type} (body : S -> X -> result S) (st : S) (xs : list X)
  : result S :=
  match xs with
  | [] => Ok st
  | x :: xs' => st' <- body st x ;; for_each body st' xs'
  end.

(** ** Records of the scripts *)

(** A row of [holdings.csv] in memory. *)
Record row : Type := mkrow {
  ticker : string;
  shares : Dec.decimal;
  avg_cost : Dec.decimal;
  currency : string
}.

(** A row of [crypto_holdings.csv] in memory. *)
Record crow : Type := mkcrow {
  symbol : string;
  amount : Dec.decimal;
  avg_cost_cad : Dec.decimal
}.

(** A line of a holdings CSV file, cell by cell, under the header
    [ticker,shares,avg_cost,currency]. *)
Record csv_row : Type := mkcsv {
  c_ticker : string;
  c_shares : string;
  c_avg_cost : string;
  c_currency : string
}.

(** The files a run touches: path to content. *)
Definition files : Type := Dict.dict (K:=string) (V:=list csv_row).

Definition set_shares (r : row) (v : Dec.decimal) : row :=
  mkrow (ticker r) v (avg_cost r) (currency r).
Definition set_avg_cost (r : row) (v : Dec.decimal) : row :=
  mkrow (ticker r) (shares r) v (currency r).
Definition set_amount (r : crow) (v : Dec.decimal) : crow :=
  mkcrow (symbol r) v (avg_cost_cad r).
Definition set_avg_cost_cad (r : crow) (v : Dec.decimal) : crow :=
  mkcrow (symbol r) (amount r) v.

(** [sum((g(f) for f in fs), D(0))]: the terms are produced one at a time
    and added from the left. *)
Definition dec_sum {X : Type} (g : X -> result Dec.decimal) (fs : list X)
  : result Dec.decimal :=
  zero <- Text.D_str "0" ;;
  for_each (fun acc f => x <- g f ;; Dec.add acc x) zero fs.

(** [sorted(rows, key=lambda x: x.get("ticker") or x.get("symbol"))]: an
    empty ticker is falsy, so the key of such a row is [None]; any
    comparison sort of two or more elements compares each of them at least
    once, and comparing [None] raises [TypeError]. *)
Definition sorted_by_opt_key {A : Type} (key : A -> option string) (l : list A)
  : result (list A) :=
  match l with
  | [] | [_] => Ok l
  | _ =>
      if forallb (fun x => match key x with Some _ => true | None => false end) l then
        Ok (sorted_by (fun x => match key x with Some k => k | None => EmptyString end) l)
      else Err TypeError
  end.

Definition ticker_or_symbol (r : row) : option string :=
  if String.eqb (ticker r) EmptyString then None else Some (ticker r).

(** A holdings row as the CSV writers emit it: [str(v)] of every value. *)
Definition encode_row (r : row) : csv_row :=
  mkcsv (ticker r) (Text.str (shares r)) (Text.str (avg_cost r)) (currency r).

(** A CSV line as the loaders read it. *)
Definition decode_row (c : csv_row) : result row :=
  sh <- Text.D_str (c_shares c) ;;
  ac <- Text.D_str (c_avg_cost c) ;;
  Ok (mkrow (Text.normalize (c_ticker c)) sh ac (Text.normalize (c_currency c))).

Fixpoint decode_rows (cs : list csv_row) : result (list row) :=
  match cs with
  | [] => Ok []
  | c :: cs' => r <- decode_row c ;; rs <- decode_rows cs' ;; Ok (r :: rs)
  end.

Definition exists_ (path : string) (fs : files) : bool :=
  match Dict.get String.eqb path fs with Some _ => true | None => false end.

(** [Path(p).replace(q)] / [p.rename(q)] for an existing [p]. *)
Definition rename (p q : string) (fs : files) : files :=
  match Dict.get String.eqb p fs with
  | Some content => Dict.set String.eqb q content (Dict.del String.eqb p fs)
  | None => fs
  end.

Definition backup_name (path ts : string) : string :=
  String.append path (String.append ".bak-" ts).

(** ** apply_trades.py *)

Module ApplyTrades.

Record trade : Type := mktrade {
  t_action : string;
  t_ticker : string;
  t_qty : Dec.decimal
}.

Record fill : Type := mkfill {
  f_action : string;
  f_ticker : string;
  f_qty : Dec.decimal;
  f_fill_price : Dec.decimal;
  f_currency : string
}.

Record cfill : Type := mkcfill {
  cf_action : string;
  cf_symbol : string;
  cf_amount : Dec.decimal;
  cf_fill_price_cad : Dec.decimal
}.

Definition round_shares (x : Dec.decimal) : result Dec.decimal :=
  d <- Text.D x ;; Dec.quantize_half_up d (-6).

Definition round_price (x : Dec.decimal) : result Dec.decimal :=
  d <- Text.D x ;; Dec.quantize_half_up d (-4).

Definition index_holdings {R : Type} (key : R -> string) (rows : list R)
  : Dict.dict (K:=string) (V:=R) :=
  fold_left (fun d r => Dict.set String.eqb (key r) r d) rows [].

Definition key_eqb (a b : string * string) : bool :=
  String.eqb (fst a) (fst b) && String.eqb (snd a) (snd b).

(** [fidx.setdefault(k, []).append(f)] for every fill. *)
Definition group_fills {F : Type} (key : F -> string * string) (fills : list F)
  : Dict.dict (K:=string * string) (V:=list F) :=
  fold_left
    (fun d f =>
       let old := match Dict.get key_eqb (key f) d with Some l => l | None => [] end in
       Dict.set key_eqb (key f) (old ++ [f]) d)
    fills [].

(** [fidx.get((action, ticker), [])] *)
Definition fills_for {F : Type} (fidx : Dict.dict (K:=string * string) (V:=list F))
  (action ticker : string) : list F :=
  match Dict.get key_eqb (action, ticker) fidx with
  | Some l => l
  | None => []
  end.

(** The first half of the loop body of [apply_equity]: the fills of the
    trade, their total against the trade's quantity, and the weighted
    average fill price.  It yields [qty], [fills_here] and
    [avg_fill_price]. *)
Definition reconcile
  (fidx : Dict.dict (K:=string * string) (V:=list fill)) (t : trade)
  : result (Dec.decimal * list fill * Dec.decimal) :=
  let action := t_action t in
  let tkr := t_ticker t in
  qty <- Text.D (t_qty t) ;;
  let fills_here := fills_for fidx action tkr in
  match fills_here with
  | [] => Err (NoFillsForTrade action tkr)
  | _ :: _ =>
      total_qty <- dec_sum (fun f => Ok (f_qty f)) fills_here ;;
      if negb (Dec.eqb total_qty qty) then Err (QuantityMismatch tkr)
      else
        s <- dec_sum (fun f => Dec.mul (f_qty f) (f_fill_price f)) fills_here ;;
        avg_fill_price <- Dec.div s qty ;;
        Ok (qty, fills_here, avg_fill_price)
  end.

(** The second half: the buy or the sell on [hidx]. *)
Definition transition (hidx : Dict.dict (K:=string) (V:=row)) (t : trade)
  (qty : Dec.decimal) (fills_here : list fill) (avg_fill_price : Dec.decimal)
  : result (Dict.dict (K:=string) (V:=row)) :=
  let action := t_action t in
  let tkr := t_ticker t in
  if String.eqb action "buy" then
    match Dict.get String.eqb tkr hidx with
    | Some row =>
        if existsb (fun f => negb (String.eqb (f_currency f) (currency row)))
             fills_here
        then Err (CurrencyMismatch tkr)
        else
          new_sh <- Dec.add (shares row) qty ;;
          held <- Dec.mul (shares row) (avg_cost row) ;;
          bought <- Dec.mul qty avg_fill_price ;;
          cost <- Dec.add held bought ;;
          new_cost <- Dec.div cost new_sh ;;
          sh <- round_shares new_sh ;;
          ac <- round_price new_cost ;;
          Ok (Dict.set String.eqb tkr (set_avg_cost (set_shares row sh) ac) hidx)
    | None =>
        match fills_here with
        | [] => Err IndexError
        | f0 :: _ =>
            let cur := f_currency f0 in
            sh <- round_shares qty ;;
            ac <- round_price avg_fill_price ;;
            Ok (Dict.set String.eqb tkr (mkrow tkr sh ac cur) hidx)
        end
    end
  else
    match Dict.get String.eqb tkr hidx with
    | None => Err (NoSuchPosition tkr)
    | Some row =>
        if Dec.gtb qty (shares row) then Err (InsufficientPosition tkr)
        else
          new_sh <- Dec.sub (shares row) qty ;;
          sh <- round_shares new_sh ;;
          if Dec.is_zero sh then Ok (Dict.del String.eqb tkr hidx)
          else Ok (Dict.set String.eqb tkr (set_shares row sh) hidx)
    end.

(** The body of the loop over [trades] in [apply_equity]. *)
Definition apply_equity_trade
  (fidx : Dict.dict (K:=string * string) (V:=list fill))
  (hidx : Dict.dict (K:=string) (V:=row)) (t : trade)
  : result (Dict.dict (K:=string) (V:=row)) :=
  r <- reconcile fidx t ;;
  let '(qty, fills_here, avg_fill_price) := r in
  transition hidx t qty fills_here avg_fill_price.

Definition apply_equity (holdings : list row) (trades : list trade)
  (fills : list fill) : result (list row) :=
  let hidx := index_holdings ticker holdings in
  let fidx := group_fills (fun f => (f_action f, f_ticker f)) fills in
  hidx' <- for_each (apply_equity_trade fidx) hidx trades ;;
  Ok (sorted_by ticker (Dict.values hidx')).

(** The body of the loop over [trades] in [apply_crypto]. *)
Definition apply_crypto_trade
  (fidx : Dict.dict (K:=string * string) (V:=list cfill))
  (hidx : Dict.dict (K:=string) (V:=crow)) (t : trade)
  : result (Dict.dict (K:=string) (V:=crow)) :=
  let action := t_action t in
  let sym := t_ticker t in
  amt <- Text.D (t_qty t) ;;
  let fills_here := fills_for fidx action sym in
  match fills_here with
  | [] => Err (NoFillsForTrade action sym)
  | _ :: _ =>
      total_amt <- dec_sum (fun f => Ok (cf_amount f)) fills_here ;;
      if negb (Dec.eqb total_amt amt) then Err (QuantityMismatch sym)
      else
        s <- dec_sum (fun f => Dec.mul (cf_amount f) (cf_fill_price_cad f)) fills_here ;;
        avg_fill_price <- Dec.div s amt ;;
        if String.eqb action "buy" then
          match Dict.get String.eqb sym hidx with
          | Some row =>
              new_amt <- Dec.add (amount row) amt ;;
              held <- Dec.mul (amount row) (avg_cost_cad row) ;;
              bought <- Dec.mul amt avg_fill_price ;;
              cost <- Dec.add held bought ;;
              new_cost <- Dec.div cost new_amt ;;
              am <- round_shares new_amt ;;
              ac <- round_price new_cost ;;
              Ok (Dict.set String.eqb sym (set_avg_cost_cad (set_amount row am) ac) hidx)
          | None =>
              am <- round_shares amt ;;
              ac <- round_price avg_fill_price ;;
              Ok (Dict.set String.eqb sym (mkcrow sym am ac) hidx)
          end
        else
          match Dict.get String.eqb sym hidx with
          | None => Err (NoSuchPosition sym)
          | Some row =>
              if Dec.gtb amt (amount row) then Err (InsufficientPosition sym)
              else
                new_amt <- Dec.sub (amount row) amt ;;
                am <- round_shares new_amt ;;
                if Dec.is_zero am then Ok (Dict.del String.eqb sym hidx)
                else Ok (Dict.set String.eqb sym (set_amount row am) hidx)
          end
  end.

Definition apply_crypto (holdings : list crow) (trades : list trade)
  (fills : list cfill) : result (list crow) :=
  let hidx := index_holdings symbol holdings in
  let fidx := group_fills (fun f => (cf_action f, cf_symbol f)) fills in
  hidx' <- for_each (apply_crypto_trade fidx) hidx trades ;;
  Ok (sorted_by symbol (Dict.values hidx')).

(** [load_holdings] on a file with the equity header. *)
Definition load_holdings (fs : files) (holdings_path : string) : result (list row) :=
  match Dict.get String.eqb holdings_path fs with
  | None => Err FileNotFoundError
  | Some content => decode_rows content
  end.

(** [write_holdings]: an existing file is renamed aside to
    [<out>.bak-<timestamp>], then the rows are written in the order
    given. *)
Definition write_holdings (rows : list row) (out_path ts : string) (fs : files)
  : files :=
  let fs1 :=
    if exists_ out_path fs then rename out_path (backup_name out_path ts) fs
    else fs in
  Dict.set String.eqb out_path (map encode_row rows) fs1.

(** [main] with [--asset equity], after [load_trades] and [load_fills]:
    the files left behind and how the run ended. *)
Definition main (fs : files) (holdings_path out_path ts : string)
  (trades : list trade) (fills : list fill) : files * result unit :=
  match load_holdings fs holdings_path with
  | Err e => (fs, Err e)
  | Ok holdings =>
      match apply_equity holdings trades fills with
      | Err e => (fs, Err e)
      | Ok updated => (write_holdings updated out_path ts fs, Ok tt)
      end
  end.

End ApplyTrades.

(** ** ledger_tui.py *)

Module LedgerTui.

(** A trade of the wizard; [qty] and [unit_price] are the decimals that
    [D] makes of the numbers typed in. *)
Record trade : Type := mktrade {
  t_action : string;
  t_ticker : string;
  t_qty : Dec.decimal;
  t_unit_price : Dec.decimal;
  t_currency : string
}.

Definition QTY_PREC : Z := -6.
Definition PX_PREC : Z := -4.

Definition rounded_qty (x : Dec.decimal) : result Dec.decimal :=
  d <- Text.D x ;; Dec.quantize_half_up d QTY_PREC.

Definition rounded_px (x : Dec.decimal) : result Dec.decimal :=
  d <- Text.D x ;; Dec.quantize_half_up d PX_PREC.

(** The body of the loop of [apply_equity]; the [ValueError]s carry the
    kinds of the messages. *)
Definition apply_equity_trade (idx : Dict.dict (K:=string) (V:=row)) (t : trade)
  : result (Dict.dict (K:=string) (V:=row)) :=
  let action := t_action t in
  let tkr := t_ticker t in
  let qty := t_qty t in
  let px := t_unit_price t in
  let cur := t_currency t in
  if String.eqb action "buy" then
    match Dict.get String.eqb tkr idx with
    | Some row =>
        if negb (String.eqb (currency row) cur) then Err (CurrencyMismatch tkr)
        else
          new_sh <- Dec.add (shares row) qty ;;
          held <- Dec.mul (shares row) (avg_cost row) ;;
          bought <- Dec.mul qty px ;;
          cost <- Dec.add held bought ;;
          new_cost <- Dec.div cost new_sh ;;
          sh <- rounded_qty new_sh ;;
          ac <- rounded_px new_cost ;;
          Ok (Dict.set String.eqb tkr (set_avg_cost (set_shares row sh) ac) idx)
    | None =>
        sh <- rounded_qty qty ;;
        ac <- rounded_px px ;;
        Ok (Dict.set String.eqb tkr (mkrow tkr sh ac cur) idx)
    end
  else
    match Dict.get String.eqb tkr idx with
    | None => Err (NoSuchPosition tkr)
    | Some row =>
        if Dec.gtb qty (shares row) then Err (InsufficientPosition tkr)
        else
          d <- Dec.sub (shares row) qty ;;
          sh <- rounded_qty d ;;
          if Dec.is_zero sh then Ok (Dict.del String.eqb tkr idx)
          else Ok (Dict.set String.eqb tkr (set_shares row sh) idx)
    end.

Definition apply_equity (holdings_rows : list row) (trades : list trade)
  : result (list row) :=
  let idx := ApplyTrades.index_holdings ticker holdings_rows in
  idx' <- for_each apply_equity_trade idx trades ;;
  Ok (Dict.values idx').

(** [load_holdings]: no file, no rows. *)
Definition load_holdings (fs : files) (holdings : string) : result (list row) :=
  match Dict.get String.eqb holdings fs with
  | None => Ok []
  | Some content => decode_rows content
  end.

(** [save_holdings]: [backup_file], then the file is opened for writing
    (and so emptied) before the rows are sorted. *)
Definition save_holdings (holdings ts : string) (rows : list row) (fs : files)
  : files * result unit :=
  let fs1 :=
    if exists_ holdings fs then rename holdings (backup_name holdings ts) fs
    else fs in
  match sorted_by_opt_key ticker_or_symbol rows with
  | Err e => (Dict.set String.eqb holdings [] fs1, Err e)
  | Ok sorted => (Dict.set String.eqb holdings (map encode_row sorted) fs1, Ok tt)
  end.

(** [init_files_if_needed], for the holdings file. *)
Definition init_files_if_needed (holdings : string) (fs : files) : files :=
  if exists_ holdings fs then fs else Dict.set String.eqb holdings [] fs.

(** [main] for the equity book once the trades are entered and the user
    has chosen to proceed (the entries file is left out). *)
Definition main (fs : files) (holdings_path ts : string) (trades : list trade)
  : files * result unit :=
  let fs0 := init_files_if_needed holdings_path fs in
  match load_holdings fs0 holdings_path with
  | Err e => (fs0, Err e)
  | Ok holds =>
      match apply_equity holds trades with
      | Err e => (fs0, Err e)
      | Ok updated => save_holdings holdings_path ts updated fs0
      end
  end.

(** A crypto trade of the wizard. *)
Record ctrade : Type := mkctrade {
  ct_action : string;
  ct_symbol : string;
  ct_qty : Dec.decimal;
  ct_unit_price : Dec.decimal
}.

(** The body of the loop of [apply_crypto]. *)
Definition apply_crypto_trade (idx : Dict.dict (K:=string) (V:=crow)) (t : ctrade)
  : result (Dict.dict (K:=string) (V:=crow)) :=
  let action := ct_action t in
  let sym := ct_symbol t in
  let amt := ct_qty t in
  let px := ct_unit_price t in
  if String.eqb action "buy" then
    match Dict.get String.eqb sym idx with
    | Some row =>
        new_amt <- Dec.add (amount row) amt ;;
        held <- Dec.mul (amount row) (avg_cost_cad row) ;;
        bought <- Dec.mul amt px ;;
        cost <- Dec.add held bought ;;
        new_cost <- Dec.div cost new_amt ;;
        am <- rounded_qty new_amt ;;
        ac <- rounded_px new_cost ;;
        Ok (Dict.set String.eqb sym (set_avg_cost_cad (set_amount row am) ac) idx)
    | None =>
        am <- rounded_qty amt ;;
        ac <- rounded_px px ;;
        Ok (Dict.set String.eqb sym (mkcrow sym am ac) idx)
    end
  else
    match Dict.get String.eqb sym idx with
    | None => Err (NoSuchPosition sym)
    | Some row =>
        if Dec.gtb amt (amount row) then Err (InsufficientPosition sym)
        else
          d <- Dec.sub (amount row) amt ;;
          am <- rounded_qty d ;;
          if Dec.is_zero am then Ok (Dict.del String.eqb sym idx)
          else Ok (Dict.set String.eqb sym (set_amount row am) idx)
    end.

Definition apply_crypto (holdings_rows : list crow) (trades : list ctrade)
  : result (list crow) :=
  let idx := ApplyTrades.index_holdings symbol holdings_rows in
  idx' <- for_each apply_crypto_trade idx trades ;;
  Ok (Dict.values idx').

End LedgerTui.

(** ** record_week.py *)

Module RecordWeek.

Record fill : Type := mkfill {
  f_action : string;
  f_ticker : string;
  f_qty : Dec.decimal;
  f_fill_price : Dec.decimal;
  f_currency : string
}.

Definition round_qty (x : Dec.decimal) : result Dec.decimal :=
  d <- Text.D x ;; Dec.quantize_half_up d (-6).

Definition round_price (x : Dec.decimal) : result Dec.decimal :=
  d <- Text.D x ;; Dec.quantize_half_up d (-4).

Definition index_by {R : Type} (key : R -> string) (rows : list R)
  : Dict.dict (K:=string) (V:=R) :=
  fold_left (fun d r => Dict.set String.eqb (key r) r d) rows [].

(** The body of the loop over [fills] in [apply_equity]. *)
Definition apply_equity_fill (idx : Dict.dict (K:=string) (V:=row)) (f : fill)
  : result (Dict.dict (K:=string) (V:=row)) :=
  let tkr := f_ticker f in
  let action := f_action f in
  qty <- Text.D (f_qty f) ;;
  price <- Text.D (f_fill_price f) ;;
  let cur := f_currency f in
  if Dec.leb qty Dec.zero then Err (NonPositiveQuantity tkr)
  else
    let row := Dict.get String.eqb tkr idx in
    if String.eqb action "buy" then
      match row with
      | Some row =>
          if negb (String.eqb (currency row) cur) then Err (CurrencyMismatch tkr)
          else
            new_sh <- Dec.add (shares row) qty ;;
            held <- Dec.mul (shares row) (avg_cost row) ;;
            bought <- Dec.mul qty price ;;
            cost <- Dec.add held bought ;;
            new_cost <- Dec.div cost new_sh ;;
            sh <- round_qty new_sh ;;
            ac <- round_price new_cost ;;
            Ok (Dict.set String.eqb tkr (set_avg_cost (set_shares row sh) ac) idx)
      | None =>
          sh <- round_qty qty ;;
          ac <- round_price price ;;
          Ok (Dict.set String.eqb tkr (mkrow tkr sh ac cur) idx)
      end
    else
      match row with
      | None => Err (NoSuchPosition tkr)
      | Some row =>
          if Dec.gtb qty (shares row) then Err (InsufficientPosition tkr)
          else
            d <- Dec.sub (shares row) qty ;;
            sh <- round_qty d ;;
            if Dec.is_zero sh then Ok (Dict.del String.eqb tkr idx)
            else Ok (Dict.set String.eqb tkr (set_shares row sh) idx)
      end.

Definition apply_equity (holdings : list row) (fills : list fill)
  : result (list row) :=
  let idx := index_by ticker holdings in
  idx' <- for_each apply_equity_fill idx fills ;;
  Ok (Dict.values idx').

Definition load_holdings (fs : files) (path : string) : result (list row) :=
  match Dict.get String.eqb path fs with
  | None => Ok []
  | Some content => decode_rows content
  end.

(** [write_holdings]: the file is opened for writing (and so emptied)
    before the rows are sorted; nothing is kept aside. *)
Definition write_holdings (path : string) (rows : list row) (fs : files)
  : files * result unit :=
  match sorted_by_opt_key ticker_or_symbol rows with
  | Err e => (Dict.set String.eqb path [] fs, Err e)
  | Ok sorted => (Dict.set String.eqb path (map encode_row sorted) fs, Ok tt)
  end.

(** [main] with [--asset equity], for the holdings file: the fills are
    checked for their action, applied and written. *)
Definition main (fs : files) (holds_path : string) (fills : list fill)
  : files * result unit :=
  match load_holdings fs holds_path with
  | Err e => (fs, Err e)
  | Ok holdings =>
      if forallb (fun f => String.eqb (f_action f) "buy" || String.eqb (f_action f) "sell")
           fills
      then
        match apply_equity holdings fills with
        | Err e => (fs, Err e)
        | Ok updated => write_holdings holds_path updated fs
        end
      else (fs, Err InvalidAction)
  end.

(** A fill of the crypto book. *)
Record cfill : Type := mkcfill {
  cf_action : string;
  cf_symbol : string;
  cf_amount : Dec.decimal;
  cf_fill_price_cad : Dec.decimal
}.

(** The body of the loop over [fills] in [apply_crypto]. *)
Definition apply_crypto_fill (idx : Dict.dict (K:=string) (V:=crow)) (f : cfill)
  : result (Dict.dict (K:=string) (V:=crow)) :=
  let sym := cf_symbol f in
  let action := cf_action f in
  amt <- Text.D (cf_amount f) ;;
  price <- Text.D (cf_fill_price_cad f) ;;
  if Dec.leb amt Dec.zero then Err (NonPositiveQuantity sym)
  else
    let row := Dict.get String.eqb sym idx in
    if String.eqb action "buy" then
      match row with
      | Some row =>
          new_amt <- Dec.add (amount row) amt ;;
          held <- Dec.mul (amount row) (avg_cost_cad row) ;;
          bought <- Dec.mul amt price ;;
          cost <- Dec.add held bought ;;
          new_cost <- Dec.div cost new_amt ;;
          am <- round_qty new_amt ;;
          ac <- round_price new_cost ;;
          Ok (Dict.set String.eqb sym (set_avg_cost_cad (set_amount row am) ac) idx)
      | None =>
          am <- round_qty amt ;;
          ac <- round_price price ;;
          Ok (Dict.set String.eqb sym (mkcrow sym am ac) idx)
      end
    else
      match row with
      | None => Err (NoSuchPosition sym)
      | Some row =>
          if Dec.gtb amt (amount row) then Err (InsufficientPosition sym)
          else
            d <- Dec.sub (amount row) amt ;;
            am <- round_qty d ;;
            if Dec.is_zero am then Ok (Dict.del String.eqb sym idx)
            else Ok (Dict.set String.eqb sym (set_amount row am) idx)
      end.

Definition apply_crypto (holdings : list crow) (fills : list cfill)
  : result (list crow) :=
  let idx := index_by symbol holdings in
  idx' <- for_each apply_crypto_fill idx fills ;;
  Ok (Dict.values idx').

End RecordWeek.

(** ** Exact values *)

(** The rational number a decimal stands for, and quantization of an exact
    non-negative value: the number of units [10^-k] nearest to it, halves
    going up.  These follow the spec's words ("exact arithmetic, then
    quantized half-up") and are what the context arithmetic of the code is
    compared with. *)
Module Exact.

Import Dec.

Definition pow10 (e : Z) : Q :=
  if 0 <=? e then inject_Z (10 ^ e) else Qinv (inject_Z (10 ^ (- e))).

Definition value (d : decimal) : Q := Qmult (inject_Z (scoeff d)) (pow10 (dexp d)).

Definition half_up (x : Q) (k : Z) : Z :=
  Qfloor (Qplus (Qmult x (pow10 k)) (1 # 2)).

Definition quantized (x : Q) (k : Z) : decimal :=
  mkdec false (Z.to_N (half_up x k)) (- k).

(** A non-negative decimal with at most [f] fractional digits and no
    exponent above 0, below ten million; [modest] is the case of 6
    digits. *)
Definition within (f : Z) (d : decimal) : Prop :=
  dsign d = false /\ - f <= dexp d <= 0 /\ coeff d * 10 ^ (dexp d + f) < 10 ^ (7 + f).

Definition modest (d : decimal) : Prop := within 6 d.

(** The exact sum of a list of decimals. *)
Definition exact_sum (l : list decimal) : Q :=
  fold_right (fun d acc => Qplus (value d) acc) 0%Q l.

End Exact.

(** * Notions used in the statements *)

Module Notions.
Import Dec Text.

(** Characters that neither [strip] nor the removal of underscores
    touches. *)
Definition clean (c : ascii) : Prop :=
  is_space c = false /\ Ascii.eqb c "_" = false.

(** A finite literal as [__str__] writes it. *)
Definition lit (sg : bool) (intpart : chars) (frac : option chars) (e : option Z)
  : chars :=
  (if sg then ["-"%char] else [])
  ++ intpart
  ++ match frac with Some f => "."%char :: f | None => [] end
  ++ match e with Some n => "E"%char :: signed_digits n | None => [] end.

(** [lstrip] removes a prefix of white space and leaves a string that does
    not start with white space. *)
Definition no_leading_space (s : chars) : Prop :=
  match s with [] => True | c :: _ => is_space c = false end.

(** A decimal that fits the context: at most [prec] digits, the exponent
    between [Etiny] and [Etop]. *)
Definition in_context (d : decimal) : Prop :=
  coeff d < 10 ^ prec /\ Etiny <= dexp d <= Etop.

(** The coefficient of [d] quantized to exponent [e]. *)
Definition qcoeff (d : decimal) (e : Z) : Z :=
  if dexp d >=? e then coeff d * 10 ^ (dexp d - e)
  else round_half_up (coeff d) (e - dexp d).

(** The value of [d] in units of [10^-f], for [d] with at most [f]
    fractional digits. *)
Definition units (f : Z) (d : decimal) : Z := scoeff d * 10 ^ (dexp d + f).

End Notions.

(** The order of [sorted] on strings. *)
Definition string_lt (a b : string) : Prop := String.ltb a b = true.

Section SortKeys.
Context {A : Type} (key : A -> string).

(** Ascending, and strictly ascending, keys. *)
Definition key_le (a b : A) : Prop := String.ltb (key b) (key a) = false.
Definition key_lt (a b : A) : Prop := String.ltb (key a) (key b) = true.

End SortKeys.

(** What every index built by the scripts satisfies: distinct keys, and
    each row filed under its own ticker. *)
Definition wf_idx (d : Dict.dict (K:=string) (V:=row)) : Prop :=
  NoDup (Dict.keys d) /\ Forall (fun kv => ticker (snd kv) = fst kv) d.

(** A row whose ticker and currency are in the form the loaders give
    them. *)
Definition normal_row (r : row) : Prop :=
  Text.normalize (ticker r) = ticker r /\ Text.normalize (currency r) = currency r.

(** The errors of the [decimal] module. *)
Definition decimal_error (e : error) : Prop := exists s, e = DecimalException s.

(** The sum of the values [g f], counted in units of [10^-15]. *)
Definition sum_units {X : Type} (g : X -> Dec.decimal) (fs : list X) : Z :=
  fold_right (fun f acc => Notions.units 15 (g f) + acc) 0 fs.

(** The operations of a batch on the instrument [k], in their order. *)
Definition on_instrument {T : Type} (tk : T -> string) (k : string) (ts : list T)
  : list T :=
  filter (fun t => String.eqb (tk t) k) ts.

(** Two batches that hold, for each instrument, the same operations in the
    same order: they differ only in how the operations of different
    instruments are interleaved. *)
Definition same_order_per_instrument {T : Type} (tk : T -> string) (ts ts' : list T)
  : Prop :=
  forall k, on_instrument tk k ts = on_instrument tk k ts'.

(** An index with at most the one position [o] of instrument [k], and the
    update of an index at [k]. *)
Definition cell (k : string) (o : option row) : Dict.dict (K:=string) (V:=row) :=
  match o with
  | Some v => [(k, v)]
  | None => []
  end.

Definition upd (k : string) (o : option row) (d : Dict.dict (K:=string) (V:=row))
  : Dict.dict (K:=string) (V:=row) :=
  match o with
  | Some v => Dict.set String.eqb k v d
  | None => Dict.del String.eqb k d
  end.

Section Local.
Context {T : Type} (tk : T -> string).
Context (step : Dict.dict (K:=string) (V:=row) -> T -> result (Dict.dict (K:=string) (V:=row))).

(** What an operation does to the position of its own instrument. *)
Definition local (o : option row) (t : T) : result (option row) :=
  d <- step (cell (tk t) o) t ;; Ok (Dict.get String.eqb (tk t) d).

End Local.







(** * Properties *)

Module TextFacts.
Import Dec Text.
Import Notions.

Lemma code_range c : 0 <= code c < 256.
Proof.
  unfold code. pose proof (N_ascii_bounded c). lia.
Qed.

Lemma code_chr n : 0 <= n < 256 -> code (chr n) = n.
Proof.
  intros H. unfold code, chr. rewrite N_ascii_embedding; lia.
Qed.

Lemma code_inj a b : code a = code b -> a = b.
Proof.
  unfold code. intros H.
  rewrite <- (ascii_N_embedding a), <- (ascii_N_embedding b).
  f_equal. lia.
Qed.

Lemma eqb_code a b : Ascii.eqb a b = (code a =? code b).
Proof.
  destruct (Ascii.eqb_spec a b) as [->|Hne].
  - symmetry. apply Z.eqb_refl.
  - symmetry. apply Z.eqb_neq. intros H. apply Hne, code_inj, H.
Qed.

Lemma digit_char_code d : 0 <= d < 10 -> code (digit_char d) = 48 + d.
Proof. intros H. unfold digit_char. apply code_chr. lia. Qed.

Lemma is_digit_digit_char d : 0 <= d < 10 -> is_digit (digit_char d) = true.
Proof.
  intros H. unfold is_digit. rewrite digit_char_code by assumption.
  apply andb_true_iff. split; apply Z.leb_le; lia.
Qed.

Lemma digit_val_digit_char d : 0 <= d < 10 -> digit_val (digit_char d) = d.
Proof. intros H. unfold digit_val. rewrite digit_char_code by assumption. lia. Qed.

Lemma int_of_digits_snoc l c :
  int_of_digits (l ++ [c]) = 10 * int_of_digits l + digit_val c.
Proof. unfold int_of_digits. rewrite fold_left_app. reflexivity. Qed.

(** What [digits_aux] prepends: a non-empty run of digit characters whose
    value is the number. *)
Lemma digits_aux_spec f : forall c acc,
  0 <= c < 2 ^ Z.of_nat (S f) ->
  exists l, digits_aux (S f) c acc = l ++ acc
            /\ Forall (fun x => is_digit x = true) l
            /\ l <> []
            /\ int_of_digits l = c.
Proof.
  induction f as [|f IH]; intros c acc Hc.
  - assert (c < 10) by (change (2 ^ Z.of_nat 1) with 2 in Hc; lia).
    cbn [digits_aux]. destruct (Z.ltb_spec c 10); [|lia].
    exists [digit_char (c mod 10)]. rewrite Z.mod_small by lia.
    repeat split.
    + constructor; [apply is_digit_digit_char; lia | constructor].
    + discriminate.
    + cbn. rewrite digit_val_digit_char; lia.
  - change (digits_aux (S (S f)) c acc) with
      (let acc' := digit_char (c mod 10) :: acc in
       if c <? 10 then acc' else digits_aux (S f) (c / 10) acc').
    cbv zeta.
    assert (Hm : 0 <= c mod 10 < 10) by (apply Z.mod_pos_bound; lia).
    destruct (Z.ltb_spec c 10).
    + exists [digit_char (c mod 10)]. rewrite Z.mod_small by lia.
      repeat split.
      * constructor; [apply is_digit_digit_char; lia | constructor].
      * discriminate.
      * cbn. rewrite digit_val_digit_char; lia.
    + destruct (IH (c / 10) (digit_char (c mod 10) :: acc)) as (l & El & Fl & Nl & Vl).
      { split; [apply Z.div_pos; lia|].
        apply Z.div_lt_upper_bound; [lia|].
        replace (Z.of_nat (S (S f))) with (Z.succ (Z.of_nat (S f))) in Hc by lia.
        rewrite Z.pow_succ_r in Hc by lia. lia. }
      exists (l ++ [digit_char (c mod 10)]). repeat split.
      * rewrite El, <- app_assoc. reflexivity.
      * apply Forall_app. split; [assumption|].
        constructor; [apply is_digit_digit_char; lia | constructor].
      * intros E. apply app_eq_nil in E. destruct E; discriminate.
      * rewrite int_of_digits_snoc, Vl, digit_val_digit_char by lia.
        pose proof (Z.div_mod c 10). lia.
Qed.

Lemma log2_fuel c : 0 <= c -> 0 <= c < 2 ^ Z.of_nat (S (Z.to_nat (Z.log2 c))).
Proof.
  intros H. split; [assumption|].
  destruct (Z.eq_dec c 0) as [->|Hn].
  - reflexivity.
  - pose proof (Z.log2_spec c ltac:(lia)) as [_ Hu].
    pose proof (Z.log2_nonneg c).
    replace (Z.of_nat (S (Z.to_nat (Z.log2 c)))) with (Z.succ (Z.log2 c)) by lia.
    assumption.
Qed.

Lemma digits_spec c : 0 <= c ->
  Forall (fun x => is_digit x = true) (digits c)
  /\ digits c <> []
  /\ int_of_digits (digits c) = c.
Proof.
  intros H. unfold digits.
  destruct (digits_aux_spec _ c [] (log2_fuel c H)) as (l & El & Fl & Nl & Vl).
  rewrite El, app_nil_r. auto.
Qed.

Lemma int_of_digits_app0 a b :
  int_of_digits a = 0 -> int_of_digits (a ++ b) = int_of_digits b.
Proof.
  unfold int_of_digits. intros H. rewrite fold_left_app, H. reflexivity.
Qed.

Lemma int_of_digits_zeros n : int_of_digits (zeros n) = 0.
Proof.
  unfold zeros. induction (Z.to_nat n) as [|k IH]; [reflexivity|].
  cbn [repeat]. exact IH.
Qed.

Lemma zeros_digits n : Forall (fun x => is_digit x = true) (zeros n).
Proof.
  unfold zeros. induction (Z.to_nat n); cbn; constructor; auto.
Qed.

Lemma len_zeros n : 0 <= n -> len (zeros n) = n.
Proof. intros H. unfold len, zeros. rewrite repeat_length. lia. Qed.

Lemma len_app a b : len (a ++ b) = len a + len b.
Proof. unfold len. rewrite length_app. lia. Qed.

Lemma clean_digit c : is_digit c = true -> clean c.
Proof.
  unfold is_digit, clean, is_space. rewrite eqb_code.
  change (code "_") with 95. intros H.
  apply andb_true_iff in H. destruct H as [H1 H2].
  apply Z.leb_le in H1. apply Z.leb_le in H2.
  split.
  - apply orb_false_iff. split; apply andb_false_iff.
    + right. apply Z.leb_gt. lia.
    + right. apply Z.leb_gt. lia.
  - apply Z.eqb_neq. lia.
Qed.

Lemma lstrip_clean s : Forall clean s -> lstrip s = s.
Proof.
  destruct 1 as [|c s [Hc _] _]; [reflexivity|].
  cbn. rewrite Hc. reflexivity.
Qed.

Lemma strip_chars_clean s : Forall clean s -> strip_chars s = s.
Proof.
  intros H. unfold strip_chars, rstrip.
  rewrite (lstrip_clean s H).
  rewrite lstrip_clean by (apply Forall_rev; exact H).
  apply rev_involutive.
Qed.

Lemma filter_clean s :
  Forall clean s -> filter (fun c => negb (Ascii.eqb c "_")) s = s.
Proof.
  induction 1 as [|c s [_ Hc] _ IH]; [reflexivity|].
  cbn. rewrite Hc. cbn. f_equal. exact IH.
Qed.

Lemma span_digits_app a r :
  Forall (fun x => is_digit x = true) a ->
  match r with [] => True | c :: _ => is_digit c = false end ->
  span_digits (a ++ r) = (a, r).
Proof.
  intros Ha Hr. induction Ha as [|c a Hc _ IH].
  - cbn. destruct r as [|c r]; [reflexivity|]. cbn. rewrite Hr. reflexivity.
  - cbn. rewrite Hc, IH. reflexivity.
Qed.

Lemma take_sign_digit c s :
  is_digit c = true -> take_sign (c :: s) = (false, c :: s).
Proof.
  intros H. unfold take_sign. rewrite !eqb_code.
  unfold is_digit in H. apply andb_true_iff in H. destruct H as [H1 H2].
  apply Z.leb_le in H1. apply Z.leb_le in H2.
  change (code "-") with 45. change (code "+") with 43.
  destruct (Z.eqb_spec (code c) 45); [lia|].
  destruct (Z.eqb_spec (code c) 43); [lia|]. reflexivity.
Qed.

Lemma lower_digit c : is_digit c = true -> lower_char c = c.
Proof.
  intros H. unfold lower_char.
  unfold is_digit in H. apply andb_true_iff in H. destruct H as [H1 H2].
  apply Z.leb_le in H1. apply Z.leb_le in H2.
  destruct (Z.leb_spec 65 (code c)); [lia|]. reflexivity.
Qed.

Lemma is_special_digit c s : is_digit c = true -> is_special (c :: s) = false.
Proof.
  intros H. unfold is_special. cbn [map firstn].
  rewrite (lower_digit c H). unfold chars_eqb.
  cbn [string_of_list_ascii list_ascii_of_string String.eqb].
  rewrite !eqb_code.
  unfold is_digit in H. apply andb_true_iff in H. destruct H as [H1 H2].
  apply Z.leb_le in H1. apply Z.leb_le in H2.
  change (code "i") with 105. change (code "n") with 110. change (code "s") with 115.
  destruct (Z.eqb_spec (code c) 105); [lia|].
  destruct (Z.eqb_spec (code c) 110); [lia|].
  destruct (Z.eqb_spec (code c) 115); [lia|].
  reflexivity.
Qed.

Lemma signed_digits_clean n : Forall clean (signed_digits n).
Proof.
  unfold signed_digits. constructor.
  - destruct (n <? 0); split; reflexivity.
  - destruct (digits_spec (Z.abs n) ltac:(lia)) as (F & _ & _).
    eapply Forall_impl; [|exact F]. intros a. apply clean_digit.
Qed.

Lemma parse_exp_signed n :
  parse_exp ("E"%char :: signed_digits n) = Some n.
Proof.
  unfold parse_exp, signed_digits.
  change (Ascii.eqb (lower_char "E") "e") with true. cbv iota.
  destruct (digits_spec (Z.abs n) ltac:(lia)) as (F & Ne & V).
  assert (Hs : take_sign ((if n <? 0 then "-"%char else "+"%char) :: digits (Z.abs n))
               = (n <? 0, digits (Z.abs n))).
  { destruct (n <? 0); reflexivity. }
  rewrite Hs.
  pose proof (span_digits_app (digits (Z.abs n)) [] F I) as Hsp.
  rewrite app_nil_r in Hsp. rewrite Hsp.
  destruct (digits (Z.abs n)) as [|c l] eqn:E; [congruence|].
  rewrite V. f_equal. destruct (Z.ltb_spec n 0); lia.
Qed.

Lemma of_chars_lit sg intpart frac e :
  Forall (fun x => is_digit x = true) intpart ->
  intpart <> [] ->
  match frac with Some f => Forall (fun x => is_digit x = true) f | None => True end ->
  of_chars (lit sg intpart frac e)
  = Ok (triple sg
          (int_of_digits (intpart ++ match frac with Some f => f | None => [] end))
          (match e with Some n => n | None => 0 end
           - len (match frac with Some f => f | None => [] end))).
Proof.
  intros Fi Ni Ff.
  set (ep := match e with Some n => "E"%char :: signed_digits n | None => [] end).
  assert (Cep : Forall clean ep).
  { subst ep. destruct e; [|constructor].
    constructor; [split; reflexivity | apply signed_digits_clean]. }
  assert (Hep : parse_exp ep = Some (match e with Some n => n | None => 0 end)).
  { subst ep. destruct e; [apply parse_exp_signed | reflexivity]. }
  assert (Dep : match ep with [] => True | c :: _ => is_digit c = false end).
  { subst ep. destruct e; [reflexivity | exact I]. }
  set (fp := match frac with Some f => "."%char :: f | None => [] end).
  assert (Cfp : Forall clean fp).
  { subst fp. destruct frac as [f|]; [|constructor].
    constructor; [split; reflexivity|].
    eapply Forall_impl; [|exact Ff]. intros a. apply clean_digit. }
  assert (Ci : Forall clean intpart).
  { eapply Forall_impl; [|exact Fi]. intros a. apply clean_digit. }
  assert (Call : Forall clean (lit sg intpart frac e)).
  { unfold lit. fold fp ep. repeat (apply Forall_app; split); try assumption.
    destruct sg; [constructor; [split; reflexivity | constructor] | constructor]. }
  unfold of_chars. rewrite (strip_chars_clean _ Call), (filter_clean _ Call).
  destruct intpart as [|c0 ip]; [congruence|].
  assert (Hc0 : is_digit c0 = true) by (inversion Fi; assumption).
  assert (Hsign : take_sign (lit sg (c0 :: ip) frac e)
                  = (sg, (c0 :: ip) ++ fp ++ ep)).
  { unfold lit. fold fp ep. destruct sg.
    - reflexivity.
    - cbn [app]. apply take_sign_digit, Hc0. }
  rewrite Hsign. cbn [app]. rewrite (is_special_digit _ _ Hc0).
  change (c0 :: ip ++ fp ++ ep) with ((c0 :: ip) ++ fp ++ ep).
  rewrite (span_digits_app (c0 :: ip) (fp ++ ep) Fi).
  2:{ subst fp. destruct frac; [reflexivity | exact Dep]. }
  subst fp. destruct frac as [f|].
  - cbn [app]. change (Ascii.eqb "." ".") with true. cbv iota.
    rewrite (span_digits_app f ep Ff Dep). rewrite Hep. reflexivity.
  - cbn [app]. rewrite app_nil_r. subst ep. destruct e as [n|].
    + cbv beta iota. change (Ascii.eqb "E" ".") with false. cbv beta iota.
      rewrite Hep. cbn [app]. rewrite app_nil_r. reflexivity.
    + cbn [app]. rewrite app_nil_r. reflexivity.
Qed.

Lemma firstn_skipn_digits n l :
  Forall (fun x => is_digit x = true) l ->
  Forall (fun x => is_digit x = true) (firstn n l)
  /\ Forall (fun x => is_digit x = true) (skipn n l).
Proof.
  intros F. rewrite <- (firstn_skipn n l) in F.
  apply Forall_app in F. exact F.
Qed.

(** The string constructor reads back what [__str__] wrote: sign, digits
    and exponent. *)
Lemma of_chars_str_chars d : of_chars (str_chars d) = Ok d.
Proof.
  destruct d as [sg n e]. unfold str_chars, coeff. cbn [dsign dexp dint]. cbv zeta.
  destruct (digits_spec (Z.of_N n) ltac:(lia)) as (F & Ne & V).
  set (int_ := digits (Z.of_N n)) in *.
  assert (Hlen : 1 <= len int_).
  { unfold len. destruct int_; [congruence|]. cbn [List.length]. lia. }
  set (leftdigits := e + len int_).
  set (dotplace := if (e <=? 0) && (leftdigits >? -6) then leftdigits else 1).
  assert (Hfin : forall c x, c = Z.of_N n -> x = e ->
                 Ok (triple sg c x) = Ok (mkdec sg n e)).
  { intros c x -> ->. unfold triple. rewrite N2Z.id. reflexivity. }
  destruct (Z.leb_spec dotplace 0) as [Hd|Hd].
  - (* 0.000ddd *)
    cbv beta iota.
    pose proof (of_chars_lit sg ["0"%char] (Some (zeros (- dotplace) ++ int_))
                  (if leftdigits =? dotplace then None
                   else Some (leftdigits - dotplace))) as L.
    unfold lit in L.
    replace (match (if leftdigits =? dotplace then None
                    else Some (leftdigits - dotplace)) with
             | Some n0 => "E"%char :: signed_digits n0
             | None => []
             end)
      with (if leftdigits =? dotplace then []
            else "E"%char :: signed_digits (leftdigits - dotplace)) in L
      by (destruct (leftdigits =? dotplace); reflexivity).
    rewrite L; clear L.
    + apply Hfin.
      * change (["0"%char] ++ zeros (- dotplace) ++ int_)
          with (("0"%char :: zeros (- dotplace)) ++ int_).
        rewrite int_of_digits_app0; [exact V|].
        change ("0"%char :: zeros (- dotplace)) with (["0"%char] ++ zeros (- dotplace)).
        rewrite int_of_digits_app0 by reflexivity. apply int_of_digits_zeros.
      * rewrite len_app, len_zeros by lia.
        subst leftdigits. destruct (Z.eqb_spec (e + len int_) dotplace); lia.
    + constructor; [reflexivity | constructor].
    + discriminate.
    + apply Forall_app. split; [apply zeros_digits | exact F].
  - destruct (Z.geb_spec dotplace (len int_)) as [Hg|Hg].
    + (* ddd *)
      cbv beta iota.
      assert (Hz : dotplace - len int_ = 0).
      { subst dotplace leftdigits.
        destruct (Z.leb_spec e 0); destruct (Z.gtb_spec (e + len int_) (-6));
          cbn [andb] in *; lia. }
      rewrite Hz. change (zeros 0) with (@nil ascii). rewrite !app_nil_r.
      change ([] ++ (if leftdigits =? dotplace then []
                     else "E"%char :: signed_digits (leftdigits - dotplace)))
        with (if leftdigits =? dotplace then []
              else "E"%char :: signed_digits (leftdigits - dotplace)).
      pose proof (of_chars_lit sg int_ None
                    (if leftdigits =? dotplace then None
                     else Some (leftdigits - dotplace))) as L.
      unfold lit in L. cbn [app] in L.
      replace (match (if leftdigits =? dotplace then None
                      else Some (leftdigits - dotplace)) with
               | Some n0 => "E"%char :: signed_digits n0
               | None => []
               end)
        with (if leftdigits =? dotplace then []
              else "E"%char :: signed_digits (leftdigits - dotplace)) in L
        by (destruct (leftdigits =? dotplace); reflexivity).
      rewrite L; clear L; try assumption; [|exact I].
      apply Hfin.
      * rewrite app_nil_r. exact V.
      * change (len []) with 0.
        subst leftdigits. destruct (Z.eqb_spec (e + len int_) dotplace); lia.
    + (* dd.ddd *)
      cbv beta iota.
      destruct (firstn_skipn_digits (Z.to_nat dotplace) int_ F) as [F1 F2].
      pose proof (of_chars_lit sg (firstn (Z.to_nat dotplace) int_)
                    (Some (skipn (Z.to_nat dotplace) int_))
                    (if leftdigits =? dotplace then None
                     else Some (leftdigits - dotplace))) as L.
      unfold lit in L.
      replace (match (if leftdigits =? dotplace then None
                      else Some (leftdigits - dotplace)) with
               | Some n0 => "E"%char :: signed_digits n0
               | None => []
               end)
        with (if leftdigits =? dotplace then []
              else "E"%char :: signed_digits (leftdigits - dotplace)) in L
        by (destruct (leftdigits =? dotplace); reflexivity).
      rewrite L; clear L; try assumption.
      * apply Hfin.
        -- rewrite firstn_skipn. exact V.
        -- destruct (Z.eqb_spec leftdigits dotplace) as [E0|E0];
             unfold len in *; rewrite length_skipn; subst leftdigits; lia.
      * intros E0. apply (f_equal (@List.length ascii)) in E0.
        rewrite length_firstn in E0. cbn [List.length] in E0. unfold len in *. lia.
Qed.

Lemma of_string_str d : of_string (str d) = Ok d.
Proof.
  unfold of_string, str. rewrite list_ascii_of_string_of_list_ascii.
  apply of_chars_str_chars.
Qed.

(** [D(x)] of a decimal is that decimal. *)
Lemma D_id d : D d = Ok d.
Proof. apply of_string_str. Qed.

End TextFacts.

Module DecFacts.
Import Dec.
Import Notions.

Lemma pow10_gt0 k : 0 <= k -> 0 < 10 ^ k.
Proof. intros. apply Z.pow_pos_nonneg; lia. Qed.

Lemma pow10_succ k : 0 <= k -> 10 ^ (k + 1) = 10 * 10 ^ k.
Proof. intros. rewrite Z.pow_add_r by lia. lia. Qed.

Lemma pow10_le a b : 0 <= a <= b -> 10 ^ a <= 10 ^ b.
Proof. intros. apply Z.pow_le_mono_r; lia. Qed.

Lemma pow10_lt a b : 0 <= a < b -> 10 ^ a < 10 ^ b.
Proof. intros. apply Z.pow_lt_mono_r; lia. Qed.

Lemma pow10_split a b : 0 <= a -> 0 <= b -> 10 ^ (a + b) = 10 ^ a * 10 ^ b.
Proof. intros. apply Z.pow_add_r; lia. Qed.

(** [ndigits_aux] with enough fuel counts the decimal digits. *)
Lemma ndigits_aux_spec f : forall c,
  0 < c < 2 ^ Z.of_nat (S f) ->
  1 <= ndigits_aux (S f) c
  /\ 10 ^ (ndigits_aux (S f) c - 1) <= c < 10 ^ ndigits_aux (S f) c.
Proof.
  induction f as [|f IH]; intros c Hc.
  - assert (c < 10) by (change (2 ^ Z.of_nat 1) with 2 in Hc; lia).
    cbn [ndigits_aux]. destruct (Z.ltb_spec c 10); [|lia].
    change (10 ^ (1 - 1)) with 1. change (10 ^ 1) with 10. lia.
  - change (ndigits_aux (S (S f)) c)
      with (if c <? 10 then 1 else 1 + ndigits_aux (S f) (c / 10)).
    destruct (Z.ltb_spec c 10).
    + change (10 ^ (1 - 1)) with 1. change (10 ^ 1) with 10. lia.
    + destruct (IH (c / 10)) as (H1 & H2 & H3).
      { split; [apply Z.div_str_pos; lia|].
        apply Z.div_lt_upper_bound; [lia|].
        replace (Z.of_nat (S (S f))) with (Z.succ (Z.of_nat (S f))) in Hc by lia.
        rewrite Z.pow_succ_r in Hc by lia. lia. }
      set (k := ndigits_aux (S f) (c / 10)) in *.
      replace (1 + k - 1) with ((k - 1) + 1) by lia.
      replace (1 + k) with (k + 1) by lia.
      rewrite !pow10_succ by lia.
      pose proof (Z.div_mod c 10 ltac:(lia)).
      pose proof (Z.mod_pos_bound c 10 ltac:(lia)).
      lia.
Qed.

Lemma ndigits_0 : ndigits 0 = 1.
Proof. reflexivity. Qed.

Lemma ndigits_spec c : 0 < c ->
  1 <= ndigits c /\ 10 ^ (ndigits c - 1) <= c < 10 ^ ndigits c.
Proof.
  intros H. unfold ndigits. apply ndigits_aux_spec.
  pose proof (TextFacts.log2_fuel c ltac:(lia)). lia.
Qed.

Lemma ndigits_pos c : 1 <= ndigits c.
Proof.
  destruct (Z.ltb_spec 0 c) as [H|H].
  - apply ndigits_spec, H.
  - unfold ndigits. destruct c; try reflexivity; lia.
Qed.

(** The number of digits is determined by the decade. *)
Lemma ndigits_unique c k : 1 <= k -> 10 ^ (k - 1) <= c < 10 ^ k -> ndigits c = k.
Proof.
  intros Hk Hc.
  assert (0 < c) by (pose proof (pow10_gt0 (k - 1)); lia).
  destruct (ndigits_spec c H) as (H1 & H2 & H3).
  destruct (Z.lt_trichotomy (ndigits c) k) as [L|[E|G]]; [|assumption|].
  - pose proof (pow10_le (ndigits c) (k - 1)). lia.
  - pose proof (pow10_le k (ndigits c - 1)). lia.
Qed.

Lemma ndigits_le c k : 0 <= c < 10 ^ k -> 1 <= k -> ndigits c <= k.
Proof.
  intros Hc Hk. destruct (Z.eq_dec c 0) as [->|Hn].
  - rewrite ndigits_0. lia.
  - destruct (ndigits_spec c ltac:(lia)) as (H1 & H2 & H3).
    destruct (Z.le_gt_cases (ndigits c) k); [assumption|].
    pose proof (pow10_le k (ndigits c - 1)). lia.
Qed.

Lemma ndigits_ge c k : 0 <= k -> 10 ^ k <= c -> k + 1 <= ndigits c.
Proof.
  intros Hk Hc.
  assert (0 < c) by (pose proof (pow10_gt0 k); lia).
  destruct (ndigits_spec c H) as (H1 & H2 & H3).
  destruct (Z.le_gt_cases (k + 1) (ndigits c)); [assumption|].
  pose proof (pow10_le (ndigits c) k). lia.
Qed.

Lemma coeff_nonneg d : 0 <= coeff d.
Proof. unfold coeff. lia. Qed.

Lemma coeff_triple s c e : 0 <= c -> coeff (triple s c e) = c.
Proof. intros. unfold coeff, triple. cbn. lia. Qed.

Lemma triple_eta d : triple (dsign d) (coeff d) (dexp d) = d.
Proof. destruct d. unfold triple, coeff. cbn. rewrite N2Z.id. reflexivity. Qed.

Lemma fix_in_context d : in_context d -> fix_ d = Ok d.
Proof.
  intros [Hc He]. unfold fix_.
  destruct (Z.eqb_spec (coeff d) 0) as [E|N].
  - f_equal. destruct d as [s n e]. unfold coeff in *. cbn [dint dexp dsign] in *.
    assert (n = 0%N) by lia. subst n. f_equal.
    unfold Etiny, Etop, Emax, Emin, prec in *. lia.
  - pose proof (coeff_nonneg d).
    pose proof (ndigits_le (coeff d) prec ltac:(lia) ltac:(unfold prec; lia)).
    pose proof (ndigits_pos (coeff d)).
    unfold Etiny, Etop, Emax, Emin, prec in *.
    destruct (Z.gtb_spec (ndigits (coeff d) + dexp d - 28) (999999 - 28 + 1)); [lia|].
    destruct (Z.ltb_spec (ndigits (coeff d) + dexp d - 28) (-999999 - 28 + 1)).
    + destruct (Z.ltb_spec (dexp d) (-999999 - 28 + 1)); [lia|reflexivity].
    + destruct (Z.ltb_spec (dexp d) (ndigits (coeff d) + dexp d - 28)); [lia|reflexivity].
Qed.

End DecFacts.

(** ** Dictionaries *)

Module DictFacts.
Section DictFacts.
Context {K V : Type} (keq : K -> K -> bool).
Hypothesis keq_spec : forall a b, keq a b = true <-> a = b.

Lemma keq_refl k : keq k k = true.
Proof. apply keq_spec. reflexivity. Qed.

Lemma keq_neq a b : a <> b -> keq a b = false.
Proof.
  intros H. destruct (keq a b) eqn:E; [|reflexivity].
  apply keq_spec in E. contradiction.
Qed.

Lemma get_set_same k (v : V) d : Dict.get keq k (Dict.set keq k v d) = Some v.
Proof.
  induction d as [|[k' v'] d IH]; cbn.
  - rewrite keq_refl. reflexivity.
  - destruct (keq k k') eqn:E; cbn; rewrite E; [reflexivity | exact IH].
Qed.

Lemma get_set_other k k' (v : V) d :
  k <> k' -> Dict.get keq k (Dict.set keq k' v d) = Dict.get keq k d.
Proof.
  intros N. induction d as [|[k0 v0] d IH]; cbn.
  - rewrite (keq_neq _ _ N). reflexivity.
  - destruct (keq k' k0) eqn:E; cbn.
    + apply keq_spec in E. subst k0. rewrite (keq_neq _ _ N). reflexivity.
    + destruct (keq k k0); [reflexivity | exact IH].
Qed.

Lemma get_del_same k (d : Dict.dict (K:=K) (V:=V)) :
  NoDup (Dict.keys d) -> Dict.get keq k (Dict.del keq k d) = None.
Proof.
  induction d as [|[k0 v0] d IH]; cbn; intros ND; [reflexivity|].
  inversion ND as [|? ? Hn ND']; subst.
  destruct (keq k k0) eqn:E.
  - apply keq_spec in E. subst k0.
    clear IH ND ND'. induction d as [|[k1 v1] d IH]; cbn; [reflexivity|].
    destruct (keq k k1) eqn:E1.
    + apply keq_spec in E1. subst. exfalso. apply Hn. left. reflexivity.
    + apply IH. intros H. apply Hn. right. exact H.
  - cbn. rewrite E. apply IH, ND'.
Qed.

Lemma get_del_other k k' (d : Dict.dict (K:=K) (V:=V)) :
  k <> k' -> Dict.get keq k (Dict.del keq k' d) = Dict.get keq k d.
Proof.
  intros N. induction d as [|[k0 v0] d IH]; cbn; [reflexivity|].
  destruct (keq k' k0) eqn:E.
  - apply keq_spec in E. subst k0. rewrite (keq_neq _ _ N). reflexivity.
  - cbn. destruct (keq k k0); [reflexivity | exact IH].
Qed.

Lemma get_In k (v : V) d : Dict.get keq k d = Some v -> In (k, v) d.
Proof.
  induction d as [|[k0 v0] d IH]; cbn; [discriminate|].
  destruct (keq k k0) eqn:E.
  - apply keq_spec in E. subst. intros [= ->]. left. reflexivity.
  - intros H. right. apply IH, H.
Qed.

Lemma get_None k (d : Dict.dict (K:=K) (V:=V)) :
  Dict.get keq k d = None <-> ~ In k (Dict.keys d).
Proof.
  induction d as [|[k0 v0] d IH]; cbn.
  - tauto.
  - destruct (keq k k0) eqn:E.
    + apply keq_spec in E. subst. split; [discriminate|]. intros H. exfalso. auto.
    + rewrite IH. split.
      * intros H [H1|H1]; [subst; rewrite keq_refl in E; discriminate | auto].
      * intros H H1. auto.
Qed.

Lemma keys_set k (v : V) d :
  Dict.keys (Dict.set keq k v d)
  = match Dict.get keq k d with
    | Some _ => Dict.keys d
    | None => Dict.keys d ++ [k]
    end.
Proof.
  unfold Dict.keys.
  induction d as [|[k0 v0] d IH]; cbn; [reflexivity|].
  destruct (keq k k0) eqn:E; cbn; [reflexivity|].
  rewrite IH. destruct (Dict.get keq k d); reflexivity.
Qed.

Lemma NoDup_set k (v : V) d :
  NoDup (Dict.keys d) -> NoDup (Dict.keys (Dict.set keq k v d)).
Proof.
  intros ND. rewrite keys_set.
  destruct (Dict.get keq k d) eqn:E; [assumption|].
  apply get_None in E.
  apply NoDup_app; [assumption | constructor; [intros []|constructor] |].
  intros a Ha [<-|[]]. contradiction.
Qed.

Lemma keys_del_incl k (d : Dict.dict (K:=K) (V:=V)) :
  incl (Dict.keys (Dict.del keq k d)) (Dict.keys d).
Proof.
  induction d as [|[k0 v0] d IH]; cbn; [apply incl_refl|].
  destruct (keq k k0); cbn.
  - apply incl_tl, incl_refl.
  - apply incl_cons; [left; reflexivity | apply incl_tl, IH].
Qed.

Lemma NoDup_del k (d : Dict.dict (K:=K) (V:=V)) :
  NoDup (Dict.keys d) -> NoDup (Dict.keys (Dict.del keq k d)).
Proof.
  induction d as [|[k0 v0] d IH]; cbn; intros ND; [constructor|].
  inversion ND as [|? ? Hn ND']; subst.
  destruct (keq k k0); cbn; [assumption|].
  constructor; [|apply IH, ND'].
  intros H. apply Hn. apply (keys_del_incl k d), H.
Qed.

End DictFacts.
End DictFacts.

(** ** The loop and the fill index *)

Lemma for_each_ext {S X : Type} (body1 body2 : S -> X -> result S) xs :
  (forall st x, In x xs -> body1 st x = body2 st x) ->
  forall st, for_each body1 st xs = for_each body2 st xs.
Proof.
  induction xs as [|x xs IH]; intros H st; [reflexivity|].
  cbn. rewrite (H st x (or_introl eq_refl)).
  destruct (body2 st x) as [st'|e]; cbn; [|reflexivity].
  apply IH. intros st0 x0 Hx. apply H. right. exact Hx.
Qed.

Lemma for_each_app {S X : Type} (body : S -> X -> result S) xs ys st :
  for_each body st (xs ++ ys) = (st' <- for_each body st xs ;; for_each body st' ys).
Proof.
  revert st. induction xs as [|x xs IH]; intros st; [reflexivity|].
  cbn. destruct (body st x) as [st'|e]; cbn; [apply IH | reflexivity].
Qed.

Lemma key_eqb_spec a b : ApplyTrades.key_eqb a b = true <-> a = b.
Proof.
  destruct a as [a1 a2], b as [b1 b2]. unfold ApplyTrades.key_eqb. cbn.
  rewrite andb_true_iff, !String.eqb_eq. split.
  - intros [-> ->]. reflexivity.
  - intros [= -> ->]. auto.
Qed.

Lemma string_eqb_spec a b : String.eqb a b = true <-> a = b.
Proof. apply String.eqb_eq. Qed.

Section GroupFills.
Context {F : Type} (key : F -> string * string).

Let getdef (k : string * string) (d : Dict.dict (K:=string * string) (V:=list F)) :=
  match Dict.get ApplyTrades.key_eqb k d with Some l => l | None => [] end.

Lemma group_fills_acc (fills : list F) : forall d k,
  getdef k
    (fold_left
       (fun d f =>
          let old := match Dict.get ApplyTrades.key_eqb (key f) d with
                     | Some l => l | None => [] end in
          Dict.set ApplyTrades.key_eqb (key f) (old ++ [f]) d)
       fills d)
  = getdef k d ++ filter (fun f => ApplyTrades.key_eqb k (key f)) fills.
Proof.
  induction fills as [|f fills IH]; intros d k.
  - cbn. rewrite app_nil_r. reflexivity.
  - cbn [fold_left filter]. rewrite IH. unfold getdef at 1.
    destruct (ApplyTrades.key_eqb k (key f)) eqn:E.
    + apply key_eqb_spec in E. subst k.
      rewrite (DictFacts.get_set_same _ key_eqb_spec).
      unfold getdef. rewrite <- app_assoc. reflexivity.
    + rewrite (DictFacts.get_set_other _ key_eqb_spec).
      * reflexivity.
      * intros ->. rewrite (proj2 (key_eqb_spec _ _) eq_refl) in E. discriminate.
Qed.

(** The fills found for a trade are the fills with its action and ticker,
    in the order of the fills file. *)
Lemma fills_for_group_fills (fills : list F) action tkr :
  ApplyTrades.fills_for (ApplyTrades.group_fills key fills) action tkr
  = filter (fun f => ApplyTrades.key_eqb (action, tkr) (key f)) fills.
Proof.
  unfold ApplyTrades.fills_for, ApplyTrades.group_fills.
  apply (group_fills_acc fills [] (action, tkr)).
Qed.

End GroupFills.

(** ** Reconciliation does not consume fills *)

Lemma reconcile_ext fidx1 fidx2 t :
  ApplyTrades.fills_for fidx1 (ApplyTrades.t_action t) (ApplyTrades.t_ticker t)
  = ApplyTrades.fills_for fidx2 (ApplyTrades.t_action t) (ApplyTrades.t_ticker t) ->
  ApplyTrades.reconcile fidx1 t = ApplyTrades.reconcile fidx2 t.
Proof. unfold ApplyTrades.reconcile. intros ->. reflexivity. Qed.

Lemma filter_none {A : Type} (f : A -> bool) l :
  (forall x, In x l -> f x = false) -> filter f l = [].
Proof.
  induction l as [|x l IH]; intros H; [reflexivity|].
  cbn. rewrite (H x (or_introl eq_refl)). apply IH.
  intros y Hy. apply H. right. exact Hy.
Qed.

(** C10.  Reconciliation never consumes fills.  (1) A batch with two
    identical buy intents of 5 AAA and a single fill of 5 AAA at 100
    reconciles both intents and buys twice: the ledger ends with 10 AAA;
    the crypto path does the same.  (2) Fills whose (action, ticker) pair
    matches no trade intent change nothing: appending them to the fills
    leaves the result of [apply_equity] as it was. *)
Theorem C10_fills_are_not_consumed :
  ApplyTrades.apply_equity []
    [ApplyTrades.mktrade "buy" "AAA" (Dec.mkdec false 5 0);
     ApplyTrades.mktrade "buy" "AAA" (Dec.mkdec false 5 0)]
    [ApplyTrades.mkfill "buy" "AAA" (Dec.mkdec false 5 0) (Dec.mkdec false 100 0) "USD"]
  = Ok [mkrow "AAA" (Dec.mkdec false 10000000 (-6)) (Dec.mkdec false 1000000 (-4)) "USD"]
  /\ ApplyTrades.apply_crypto []
    [ApplyTrades.mktrade "buy" "BTC" (Dec.mkdec false 5 0);
     ApplyTrades.mktrade "buy" "BTC" (Dec.mkdec false 5 0)]
    [ApplyTrades.mkcfill "buy" "BTC" (Dec.mkdec false 5 0) (Dec.mkdec false 100 0)]
  = Ok [mkcrow "BTC" (Dec.mkdec false 10000000 (-6)) (Dec.mkdec false 1000000 (-4))]
  /\ forall holdings trades fills extra,
       (forall f t, In f extra -> In t trades ->
          (ApplyTrades.f_action f, ApplyTrades.f_ticker f)
          <> (ApplyTrades.t_action t, ApplyTrades.t_ticker t)) ->
       ApplyTrades.apply_equity holdings trades (fills ++ extra)
       = ApplyTrades.apply_equity holdings trades fills.
Proof.
  split; [vm_compute; reflexivity|].
  split; [vm_compute; reflexivity|].
  intros holdings trades fills extra H.
  unfold ApplyTrades.apply_equity.
  rewrite (for_each_ext
             (ApplyTrades.apply_equity_trade
                (ApplyTrades.group_fills
                   (fun f => (ApplyTrades.f_action f, ApplyTrades.f_ticker f))
                   (fills ++ extra)))
             (ApplyTrades.apply_equity_trade
                (ApplyTrades.group_fills
                   (fun f => (ApplyTrades.f_action f, ApplyTrades.f_ticker f))
                   fills))); [reflexivity|].
  intros st t Ht. unfold ApplyTrades.apply_equity_trade.
  rewrite (reconcile_ext _
             (ApplyTrades.group_fills
                (fun f => (ApplyTrades.f_action f, ApplyTrades.f_ticker f)) fills) t);
    [reflexivity|].
  rewrite !fills_for_group_fills, filter_app.
  rewrite (filter_none _ extra), app_nil_r; [reflexivity|].
  intros f Hf. cbv beta.
  destruct (ApplyTrades.key_eqb _ _) eqn:E; [|reflexivity].
  apply key_eqb_spec in E. exfalso. apply (H f t Hf Ht). symmetry. exact E.
Qed.

(** An unmatched fill for ZZZ next to a matched one for AAA. *)
Lemma C10_fills_are_not_consumed_witness :
  ApplyTrades.apply_equity []
    [ApplyTrades.mktrade "buy" "AAA" (Dec.mkdec false 5 0)]
    ([ApplyTrades.mkfill "buy" "AAA" (Dec.mkdec false 5 0) (Dec.mkdec false 100 0) "USD"]
     ++ [ApplyTrades.mkfill "sell" "ZZZ" (Dec.mkdec false 1 0) (Dec.mkdec false 7 0) "USD"])
  = ApplyTrades.apply_equity []
    [ApplyTrades.mktrade "buy" "AAA" (Dec.mkdec false 5 0)]
    [ApplyTrades.mkfill "buy" "AAA" (Dec.mkdec false 5 0) (Dec.mkdec false 100 0) "USD"].
Proof.
  apply (proj2 (proj2 C10_fills_are_not_consumed)).
  intros f t [<-|[]] [<-|[]]. discriminate.
Defined.

(** ** Non-positive quantities *)

(** C7.  [apply_trades.py] has no check of the sign of a quantity: a buy
    of -5 AAA backed by a fill of -5 is applied and takes 5 shares off the
    position, where [record_week.py] stops on the same fill with "non-positive
    qty". *)
Theorem C7_apply_trades_accepts_negative_quantity :
  ApplyTrades.apply_equity
    [mkrow "AAA" (Dec.mkdec false 10000000 (-6)) (Dec.mkdec false 1000000 (-4)) "USD"]
    [ApplyTrades.mktrade "buy" "AAA" (Dec.mkdec true 5 0)]
    [ApplyTrades.mkfill "buy" "AAA" (Dec.mkdec true 5 0) (Dec.mkdec false 100 0) "USD"]
  = Ok [mkrow "AAA" (Dec.mkdec false 5000000 (-6)) (Dec.mkdec false 1000000 (-4)) "USD"]
  /\ RecordWeek.apply_equity
    [mkrow "AAA" (Dec.mkdec false 10000000 (-6)) (Dec.mkdec false 1000000 (-4)) "USD"]
    [RecordWeek.mkfill "buy" "AAA" (Dec.mkdec true 5 0) (Dec.mkdec false 100 0) "USD"]
  = Err (NonPositiveQuantity "AAA").
Proof. split; vm_compute; reflexivity. Qed.

(** ** A failing batch writes nothing *)

Lemma for_each_fails {S X : Type} (body : S -> X -> result S) xs x ys st st' e :
  for_each body st xs = Ok st' ->
  body st' x = Err e ->
  for_each body st (xs ++ x :: ys) = Err e.
Proof.
  intros H1 H2. rewrite for_each_app, H1. cbn. rewrite H2. reflexivity.
Qed.

Lemma ledger_tui_load_after_init fs path :
  LedgerTui.load_holdings (LedgerTui.init_files_if_needed path fs) path
  = LedgerTui.load_holdings fs path.
Proof.
  unfold LedgerTui.init_files_if_needed, LedgerTui.load_holdings, exists_.
  destruct (Dict.get String.eqb path fs) eqn:E.
  - rewrite E. reflexivity.
  - rewrite (DictFacts.get_set_same _ string_eqb_spec). reflexivity.
Qed.

(** C2.  All-or-nothing batches.  In each of the three scripts, when the
    trades (fills, for [record_week.py]) before some trade are applied and
    that trade then fails, whatever the failure, the run ends with that
    error and the holdings file is exactly what it was before the run: no
    file is written or renamed by [apply_trades.py] and [record_week.py],
    and [ledger_tui.py] has at most created the missing, empty holdings
    file, so that the ledger it loads is the same. *)
Theorem C2_failed_batch_persists_nothing :
  (forall fs holdings_path out_path ts holdings trades1 t trades2 fills hidx e,
      ApplyTrades.load_holdings fs holdings_path = Ok holdings ->
      for_each
        (ApplyTrades.apply_equity_trade
           (ApplyTrades.group_fills
              (fun f => (ApplyTrades.f_action f, ApplyTrades.f_ticker f)) fills))
        (ApplyTrades.index_holdings ticker holdings) trades1 = Ok hidx ->
      ApplyTrades.apply_equity_trade
        (ApplyTrades.group_fills
           (fun f => (ApplyTrades.f_action f, ApplyTrades.f_ticker f)) fills)
        hidx t = Err e ->
      ApplyTrades.main fs holdings_path out_path ts (trades1 ++ t :: trades2) fills
      = (fs, Err e))
  /\ (forall fs holdings_path ts holds trades1 t trades2 idx e,
      LedgerTui.load_holdings fs holdings_path = Ok holds ->
      for_each LedgerTui.apply_equity_trade
        (ApplyTrades.index_holdings ticker holds) trades1 = Ok idx ->
      LedgerTui.apply_equity_trade idx t = Err e ->
      exists fs',
        LedgerTui.main fs holdings_path ts (trades1 ++ t :: trades2) = (fs', Err e)
        /\ LedgerTui.load_holdings fs' holdings_path = Ok holds
        /\ (exists_ holdings_path fs = true -> fs' = fs))
  /\ (forall fs holds_path holdings fills1 f fills2 idx e,
      RecordWeek.load_holdings fs holds_path = Ok holdings ->
      for_each RecordWeek.apply_equity_fill
        (RecordWeek.index_by ticker holdings) fills1 = Ok idx ->
      RecordWeek.apply_equity_fill idx f = Err e ->
      exists e', RecordWeek.main fs holds_path (fills1 ++ f :: fills2) = (fs, Err e')).
Proof.
  split; [|split].
  - intros fs hp op ts holdings trades1 t trades2 fills hidx e Hl H1 H2.
    unfold ApplyTrades.main. rewrite Hl.
    unfold ApplyTrades.apply_equity.
    rewrite (for_each_fails _ _ _ _ _ _ _ H1 H2). reflexivity.
  - intros fs hp ts holds trades1 t trades2 idx e Hl H1 H2.
    exists (LedgerTui.init_files_if_needed hp fs).
    unfold LedgerTui.main. rewrite ledger_tui_load_after_init, Hl.
    unfold LedgerTui.apply_equity.
    rewrite (for_each_fails _ _ _ _ _ _ _ H1 H2). cbn.
    split; [reflexivity|]. split; [reflexivity|].
    unfold LedgerTui.init_files_if_needed. intros ->. reflexivity.
  - intros fs hp holdings fills1 f fills2 idx e Hl H1 H2.
    unfold RecordWeek.main. rewrite Hl.
    destruct (forallb _ (fills1 ++ f :: fills2)).
    + unfold RecordWeek.apply_equity.
      rewrite (for_each_fails _ _ _ _ _ _ _ H1 H2). cbn. eauto.
    + eauto.
Qed.

(** The batch of the spec: the buy of 5 AAA goes through, the sell of 100
    AAA then exceeds the 15 held; the file still says 10 AAA. *)
Lemma C2_failed_batch_persists_nothing_witness :
  let fs := [("holdings.csv"%string,
              [mkcsv "AAA" "10.000000" "100.0000" "USD"])] in
  ApplyTrades.main fs "holdings.csv" "holdings.csv" "20250907-120000"
    ([ApplyTrades.mktrade "buy" "AAA" (Dec.mkdec false 5 0)]
     ++ ApplyTrades.mktrade "sell" "AAA" (Dec.mkdec false 100 0) :: [])
    [ApplyTrades.mkfill "buy" "AAA" (Dec.mkdec false 5 0) (Dec.mkdec false 110 0) "USD";
     ApplyTrades.mkfill "sell" "AAA" (Dec.mkdec false 100 0) (Dec.mkdec false 120 0) "USD"]
  = (fs, Err (InsufficientPosition "AAA")).
Proof.
  intros fs.
  apply (proj1 C2_failed_batch_persists_nothing fs _ _ _
           [mkrow "AAA" (Dec.mkdec false 10000000 (-6)) (Dec.mkdec false 1000000 (-4)) "USD"]
           _ _ _ _
           [("AAA"%string,
             mkrow "AAA" (Dec.mkdec false 15000000 (-6)) (Dec.mkdec false 1033333 (-4)) "USD")]).
  - vm_compute. reflexivity.
  - vm_compute. reflexivity.
  - vm_compute. reflexivity.
Defined.

(** ** The currency guard *)

Lemma string_eqb_neq a b : a <> b -> String.eqb a b = false.
Proof. intros H. apply String.eqb_neq. exact H. Qed.

Lemma existsb_currency (fills_here : list ApplyTrades.fill) cur :
  (exists f, In f fills_here /\ ApplyTrades.f_currency f <> cur) ->
  existsb (fun f => negb (String.eqb (ApplyTrades.f_currency f) cur)) fills_here = true.
Proof.
  intros (f & Hf & Hc). apply existsb_exists. exists f. split; [exact Hf|].
  rewrite (string_eqb_neq _ _ Hc). reflexivity.
Qed.

(** C6, as the code has it.  A buy on an instrument that has a position,
    once its fills are reconciled, fails with the currency-mismatch error
    when some matched fill's currency is not the position's, which is
    always so when two matched fills differ in currency.  The same holds
    for a buy entered in [ledger_tui.py]. *)
Theorem C6_buy_on_held_position_checks_currency :
  (forall fidx hidx t row qty fills_here avg_fill_price,
      ApplyTrades.t_action t = "buy"%string ->
      Dict.get String.eqb (ApplyTrades.t_ticker t) hidx = Some row ->
      ApplyTrades.reconcile fidx t = Ok (qty, fills_here, avg_fill_price) ->
      (exists f, In f fills_here /\ ApplyTrades.f_currency f <> currency row)
      \/ (exists f g, In f fills_here /\ In g fills_here
                      /\ ApplyTrades.f_currency f <> ApplyTrades.f_currency g) ->
      ApplyTrades.apply_equity_trade fidx hidx t
      = Err (CurrencyMismatch (ApplyTrades.t_ticker t)))
  /\ (forall idx t row,
      LedgerTui.t_action t = "buy"%string ->
      Dict.get String.eqb (LedgerTui.t_ticker t) idx = Some row ->
      currency row <> LedgerTui.t_currency t ->
      LedgerTui.apply_equity_trade idx t
      = Err (CurrencyMismatch (LedgerTui.t_ticker t))).
Proof.
  split.
  - intros fidx hidx t row qty fills_here p Ha Hg Hr H.
    unfold ApplyTrades.apply_equity_trade. rewrite Hr. cbn.
    unfold ApplyTrades.transition. rewrite Ha, Hg. cbn.
    rewrite existsb_currency; [reflexivity|].
    destruct H as [H|(f & g & Hf & Hgi & Hne)]; [exact H|].
    destruct (string_dec (ApplyTrades.f_currency f) (currency row)) as [E|N].
    + exists g. split; [exact Hgi|]. congruence.
    + exists f. split; assumption.
  - intros idx t row Ha Hg Hc.
    unfold LedgerTui.apply_equity_trade. rewrite Ha, Hg. cbn.
    rewrite (string_eqb_neq _ _ Hc). reflexivity.
Qed.

(** A position in USD and a buy filled in CAD. *)
Lemma C6_buy_on_held_position_checks_currency_witness :
  ApplyTrades.apply_equity_trade
    (ApplyTrades.group_fills
       (fun f => (ApplyTrades.f_action f, ApplyTrades.f_ticker f))
       [ApplyTrades.mkfill "buy" "AAA" (Dec.mkdec false 5 0) (Dec.mkdec false 110 0) "CAD"])
    [("AAA"%string,
      mkrow "AAA" (Dec.mkdec false 10000000 (-6)) (Dec.mkdec false 1000000 (-4)) "USD")]
    (ApplyTrades.mktrade "buy" "AAA" (Dec.mkdec false 5 0))
  = Err (CurrencyMismatch "AAA").
Proof.
  apply (proj1 C6_buy_on_held_position_checks_currency
           (ApplyTrades.group_fills
              (fun f => (ApplyTrades.f_action f, ApplyTrades.f_ticker f))
              [ApplyTrades.mkfill "buy" "AAA" (Dec.mkdec false 5 0) (Dec.mkdec false 110 0) "CAD"])
           [("AAA"%string,
             mkrow "AAA" (Dec.mkdec false 10000000 (-6)) (Dec.mkdec false 1000000 (-4)) "USD")]
           (ApplyTrades.mktrade "buy" "AAA" (Dec.mkdec false 5 0))
           (mkrow "AAA" (Dec.mkdec false 10000000 (-6)) (Dec.mkdec false 1000000 (-4)) "USD")
           (Dec.mkdec false 5 0)
           [ApplyTrades.mkfill "buy" "AAA" (Dec.mkdec false 5 0) (Dec.mkdec false 110 0) "CAD"]
           (Dec.mkdec false 110 0)).
  - reflexivity.
  - reflexivity.
  - vm_compute. reflexivity.
  - left. eexists. split; [left; reflexivity|]. discriminate.
Defined.

(** Where the claim fails: a first buy of AAA filled half in USD and half
    in CAD opens a USD position, and a sell of a USD position filled in CAD
    goes through. *)
Lemma C6_counterexample :
  ApplyTrades.apply_equity []
    [ApplyTrades.mktrade "buy" "AAA" (Dec.mkdec false 2 0)]
    [ApplyTrades.mkfill "buy" "AAA" (Dec.mkdec false 1 0) (Dec.mkdec false 10 0) "USD";
     ApplyTrades.mkfill "buy" "AAA" (Dec.mkdec false 1 0) (Dec.mkdec false 10 0) "CAD"]
  = Ok [mkrow "AAA" (Dec.mkdec false 2000000 (-6)) (Dec.mkdec false 100000 (-4)) "USD"]
  /\ ApplyTrades.apply_equity
    [mkrow "AAA" (Dec.mkdec false 10000000 (-6)) (Dec.mkdec false 1000000 (-4)) "USD"]
    [ApplyTrades.mktrade "sell" "AAA" (Dec.mkdec false 5 0)]
    [ApplyTrades.mkfill "sell" "AAA" (Dec.mkdec false 5 0) (Dec.mkdec false 120 0) "CAD"]
  = Ok [mkrow "AAA" (Dec.mkdec false 5000000 (-6)) (Dec.mkdec false 1000000 (-4)) "USD"].
Proof. split; vm_compute; reflexivity. Qed.

(** ** The order of strings and [sorted] *)

Module StringOrder.

Lemma ascii_compare_lt_trans a b c :
  Ascii.compare a b = Lt -> Ascii.compare b c = Lt -> Ascii.compare a c = Lt.
Proof.
  unfold Ascii.compare. rewrite !N.compare_lt_iff. apply N.lt_trans.
Qed.

Lemma ascii_compare_refl a : Ascii.compare a a = Eq.
Proof. unfold Ascii.compare. apply N.compare_refl. Qed.

Lemma compare_refl s : String.compare s s = Eq.
Proof.
  induction s as [|c s IH]; [reflexivity|].
  cbn. rewrite ascii_compare_refl. exact IH.
Qed.

Lemma compare_lt_trans : forall a b c,
  String.compare a b = Lt -> String.compare b c = Lt -> String.compare a c = Lt.
Proof.
  induction a as [|x a IH]; intros [|y b] [|z c]; cbn; try discriminate; auto.
  destruct (Ascii.compare x y) eqn:Exy; try discriminate;
    destruct (Ascii.compare y z) eqn:Eyz; try discriminate; intros H1 H2.
  - apply Ascii.compare_eq_iff in Exy, Eyz. subst.
    rewrite ascii_compare_refl. eapply IH; eassumption.
  - apply Ascii.compare_eq_iff in Exy. subst. rewrite Eyz. reflexivity.
  - apply Ascii.compare_eq_iff in Eyz. subst. rewrite Exy. reflexivity.
  - rewrite (ascii_compare_lt_trans _ _ _ Exy Eyz). reflexivity.
Qed.

Lemma lt_irrefl a : ~ string_lt a a.
Proof. unfold string_lt, String.ltb. rewrite compare_refl. discriminate. Qed.

Lemma lt_trans a b c : string_lt a b -> string_lt b c -> string_lt a c.
Proof.
  unfold string_lt, String.ltb.
  destruct (String.compare a b) eqn:E1; try discriminate.
  destruct (String.compare b c) eqn:E2; try discriminate.
  intros _ _. rewrite (compare_lt_trans _ _ _ E1 E2). reflexivity.
Qed.

Lemma lt_total a b : string_lt a b \/ a = b \/ string_lt b a.
Proof.
  unfold string_lt, String.ltb. rewrite (String.compare_antisym b a).
  destruct (String.compare a b) eqn:E; cbn; auto.
  right. left. apply String.compare_eq_iff, E.
Qed.

Lemma ltb_false a b : String.ltb a b = false -> a = b \/ string_lt b a.
Proof.
  intros H. destruct (lt_total a b) as [L|[E|G]]; auto.
  unfold string_lt in L. congruence.
Qed.

End StringOrder.

Section SortedFacts.
Context {A : Type} (key : A -> string).

Lemma key_le_trans a b c : (key_le key) a b -> (key_le key) b c -> (key_le key) a c.
Proof.
  unfold key_le. intros H1 H2.
  destruct (String.ltb (key c) (key a)) eqn:E; [|reflexivity].
  apply StringOrder.ltb_false in H1, H2.
  destruct H1 as [H1|H1], H2 as [H2|H2].
  - rewrite H2, H1 in E. exfalso. exact (StringOrder.lt_irrefl _ E).
  - rewrite H1 in H2. exfalso.
    exact (StringOrder.lt_irrefl _ (StringOrder.lt_trans _ _ _ H2 E)).
  - rewrite H2 in E. exfalso.
    exact (StringOrder.lt_irrefl _ (StringOrder.lt_trans _ _ _ H1 E)).
  - exfalso.
    exact (StringOrder.lt_irrefl _
             (StringOrder.lt_trans _ _ _ H2 (StringOrder.lt_trans _ _ _ E H1))).
Qed.

Lemma insert_by_perm x l : Permutation (insert_by key x l) (x :: l).
Proof.
  induction l as [|y l IH]; cbn; [reflexivity|].
  destruct (String.ltb (key x) (key y)); [reflexivity|].
  rewrite IH. apply perm_swap.
Qed.

Lemma sorted_by_acc_perm l : forall acc,
  Permutation (fold_left (fun acc x => insert_by key x acc) l acc) (acc ++ l).
Proof.
  induction l as [|x l IH]; intros acc; cbn.
  - rewrite app_nil_r. reflexivity.
  - rewrite IH, insert_by_perm.
    change (x :: acc ++ l) with ((x :: acc) ++ l).
    rewrite (Permutation_middle acc l x). reflexivity.
Qed.

(** [sorted] returns the same elements. *)
Lemma sorted_by_perm l : Permutation (sorted_by key l) l.
Proof. unfold sorted_by. apply (sorted_by_acc_perm l []). Qed.

Lemma insert_by_sorted x l :
  StronglySorted (key_le key) l -> StronglySorted (key_le key) (insert_by key x l).
Proof.
  induction 1 as [|y l Hs IH Hy]; cbn.
  - repeat constructor.
  - destruct (String.ltb (key x) (key y)) eqn:E.
    + constructor; [constructor; assumption|].
      assert (Hxy : (key_le key) x y).
      { unfold key_le. destruct (String.ltb (key y) (key x)) eqn:E2; [|reflexivity].
        exfalso. exact (StringOrder.lt_irrefl _ (StringOrder.lt_trans _ _ _ E E2)). }
      constructor; [exact Hxy|].
      eapply Forall_impl; [|exact Hy]. intros z Hz. eapply key_le_trans; eassumption.
    + constructor; [exact IH|].
      assert (Hp := insert_by_perm x l).
      eapply Permutation_Forall; [symmetry; exact Hp|].
      constructor; [exact E | exact Hy].
Qed.

Lemma sorted_by_acc_sorted l : forall acc,
  StronglySorted (key_le key) acc ->
  StronglySorted (key_le key) (fold_left (fun acc x => insert_by key x acc) l acc).
Proof.
  induction l as [|x l IH]; intros acc H; cbn; [exact H|].
  apply IH, insert_by_sorted, H.
Qed.

(** [sorted] returns ascending keys. *)
Lemma sorted_by_sorted l : StronglySorted (key_le key) (sorted_by key l).
Proof. apply sorted_by_acc_sorted. constructor. Qed.

Lemma sorted_strict l :
  NoDup (map key l) -> StronglySorted (key_le key) l -> StronglySorted (key_lt key) l.
Proof.
  induction l as [|x l IH]; intros ND H; [constructor|].
  inversion ND as [|? ? Hn ND']; subst. inversion H as [|? ? Hs Hx]; subst.
  constructor; [apply IH; assumption|].
  rewrite Forall_forall in *. intros y Hy.
  specialize (Hx y Hy). apply StringOrder.ltb_false in Hx.
  destruct Hx as [Hx|Hx]; [|exact Hx].
  exfalso. apply Hn. rewrite <- Hx. apply in_map, Hy.
Qed.

(** Two strictly ascending lists with the same elements are the same
    list. *)
Lemma strict_sorted_unique : forall l1 l2,
  StronglySorted (key_lt key) l1 -> StronglySorted (key_lt key) l2 ->
  Permutation l1 l2 -> l1 = l2.
Proof.
  induction l1 as [|x l1 IH]; intros l2 H1 H2 P.
  - apply Permutation_nil in P. subst. reflexivity.
  - destruct l2 as [|y l2]; [apply Permutation_sym, Permutation_nil in P; discriminate|].
    inversion H1 as [|? ? Hs1 Hx]; subst. inversion H2 as [|? ? Hs2 Hy]; subst.
    rewrite Forall_forall in Hx, Hy.
    assert (x = y).
    { assert (Iy : In y (x :: l1)) by (apply (Permutation_in _ (Permutation_sym P)); left; reflexivity).
      assert (Ix : In x (y :: l2)) by (apply (Permutation_in _ P); left; reflexivity).
      destruct Iy as [E|Iy]; [exact E|]. destruct Ix as [E|Ix]; [symmetry; exact E|].
      exfalso. apply (StringOrder.lt_irrefl (key x)).
      eapply StringOrder.lt_trans; [apply (Hx y Iy) | apply (Hy x Ix)]. }
    subst y. f_equal. apply IH; try assumption.
    apply Permutation_cons_inv in P. exact P.
Qed.

(** With distinct keys the result of [sorted] depends only on the elements,
    not on the order they come in. *)
Lemma sorted_by_order_independent l1 l2 :
  NoDup (map key l1) -> Permutation l1 l2 -> sorted_by key l1 = sorted_by key l2.
Proof.
  intros ND P.
  assert (ND2 : NoDup (map key l2)).
  { eapply Permutation_NoDup; [apply Permutation_map, P | exact ND]. }
  apply strict_sorted_unique.
  - apply sorted_strict; [|apply sorted_by_sorted].
    eapply Permutation_NoDup; [|exact ND].
    apply Permutation_map. symmetry. apply sorted_by_perm.
  - apply sorted_strict; [|apply sorted_by_sorted].
    eapply Permutation_NoDup; [|exact ND2].
    apply Permutation_map. symmetry. apply sorted_by_perm.
  - rewrite !sorted_by_perm. exact P.
Qed.

End SortedFacts.

(** ** The index of the holdings *)

Lemma wf_idx_nil : wf_idx [].
Proof. split; constructor. Qed.

Lemma wf_idx_set k v d : wf_idx d -> ticker v = k -> wf_idx (Dict.set String.eqb k v d).
Proof.
  intros [ND F] Hk. split.
  - apply (DictFacts.NoDup_set _ string_eqb_spec), ND.
  - clear ND. induction F as [|[k0 v0] d H0 F IH]; cbn.
    + constructor; [exact Hk | constructor].
    + destruct (String.eqb k k0) eqn:E.
      * apply String.eqb_eq in E. subst k0. constructor; [exact Hk | exact F].
      * constructor; [exact H0 | exact IH].
Qed.

Lemma wf_idx_del k d : wf_idx d -> wf_idx (Dict.del String.eqb k d).
Proof.
  intros [ND F]. split.
  - apply DictFacts.NoDup_del, ND.
  - clear ND. induction F as [|[k0 v0] d H0 F IH]; cbn; [constructor|].
    destruct (String.eqb k k0); [exact F | constructor; assumption].
Qed.

Lemma wf_idx_get k d r :
  wf_idx d -> Dict.get String.eqb k d = Some r -> ticker r = k.
Proof.
  intros [_ F] H. apply (DictFacts.get_In _ string_eqb_spec) in H.
  rewrite Forall_forall in F. exact (F _ H).
Qed.

Lemma wf_idx_index_holdings rows : wf_idx (ApplyTrades.index_holdings ticker rows).
Proof.
  unfold ApplyTrades.index_holdings.
  assert (G : forall d, wf_idx d ->
            wf_idx (fold_left (fun d r => Dict.set String.eqb (ticker r) r d) rows d)).
  { induction rows as [|r rows IH]; intros d H; cbn; [exact H|].
    apply IH, wf_idx_set; [exact H | reflexivity]. }
  apply G, wf_idx_nil.
Qed.

Lemma wf_idx_keys d : wf_idx d -> map ticker (Dict.values d) = Dict.keys d.
Proof.
  intros [_ F]. unfold Dict.values, Dict.keys. rewrite map_map.
  induction F as [|[k v] d H F IH]; cbn; [reflexivity|].
  cbn in H. rewrite H, IH. reflexivity.
Qed.

Lemma bind_Ok {A B : Type} (r : result A) (k : A -> result B) b :
  bind r k = Ok b -> exists a, r = Ok a /\ k a = Ok b.
Proof. destruct r as [a|e]; cbn; [eauto | discriminate]. Qed.

Ltac bind_inv H :=
  let x := fresh "x" in
  let E := fresh "E" in
  apply bind_Ok in H; destruct H as (x & E & H).

Lemma transition_wf hidx t qty fills_here p hidx' :
  wf_idx hidx ->
  ApplyTrades.transition hidx t qty fills_here p = Ok hidx' ->
  wf_idx hidx'.
Proof.
  intros W H. unfold ApplyTrades.transition in H.
  destruct (String.eqb (ApplyTrades.t_action t) "buy").
  - destruct (Dict.get String.eqb (ApplyTrades.t_ticker t) hidx) as [r|] eqn:G.
    + destruct (existsb _ fills_here); [discriminate|].
      do 7 bind_inv H. injection H as <-.
      apply wf_idx_set; [exact W|]. cbn. eapply wf_idx_get; eassumption.
    + destruct fills_here as [|f0 ?]; [discriminate|].
      do 2 bind_inv H. injection H as <-.
      apply wf_idx_set; [exact W | reflexivity].
  - destruct (Dict.get String.eqb (ApplyTrades.t_ticker t) hidx) as [r|] eqn:G;
      [|discriminate].
    destruct (Dec.gtb qty (shares r)); [discriminate|].
    do 2 bind_inv H.
    destruct (Dec.is_zero x0); injection H as <-.
    + apply wf_idx_del, W.
    + apply wf_idx_set; [exact W|]. cbn. eapply wf_idx_get; eassumption.
Qed.

Lemma apply_equity_trade_wf fidx hidx t hidx' :
  wf_idx hidx ->
  ApplyTrades.apply_equity_trade fidx hidx t = Ok hidx' ->
  wf_idx hidx'.
Proof.
  intros W H. unfold ApplyTrades.apply_equity_trade in H.
  bind_inv H. destruct x as [[qty fills_here] p].
  eapply transition_wf; eassumption.
Qed.

Lemma for_each_inv {S X : Type} (P : S -> Prop) (body : S -> X -> result S) xs :
  (forall st x st', P st -> body st x = Ok st' -> P st') ->
  forall st st', P st -> for_each body st xs = Ok st' -> P st'.
Proof.
  intros Hb. induction xs as [|x xs IH]; intros st st' Hs H; cbn in H.
  - injection H as <-. exact Hs.
  - bind_inv H. eapply IH; [|exact H]. eapply Hb; eassumption.
Qed.

(** ** The snapshot is sorted *)

(** In [apply_trades.py] the rows that [apply_equity] returns, and that
    [write_holdings] then writes in that order, are in strictly ascending
    order of ticker (so no ticker occurs twice); and the rows written for
    an index depend on its content only, not on the order in which its
    keys were inserted. *)
Lemma apply_trades_snapshot_sorted :
  (forall holdings trades fills rows,
      ApplyTrades.apply_equity holdings trades fills = Ok rows ->
      StronglySorted (key_lt ticker) rows)
  /\ (forall fs holdings_path out_path ts trades fills fs',
      ApplyTrades.main fs holdings_path out_path ts trades fills = (fs', Ok tt) ->
      exists content,
        Dict.get String.eqb out_path fs' = Some content
        /\ StronglySorted (key_lt c_ticker) content)
  /\ (forall d1 d2 : Dict.dict (K:=string) (V:=row),
      wf_idx d1 -> Permutation d1 d2 ->
      sorted_by ticker (Dict.values d1) = sorted_by ticker (Dict.values d2)).
Proof.
  assert (P1 : forall holdings trades fills rows,
             ApplyTrades.apply_equity holdings trades fills = Ok rows ->
             StronglySorted (key_lt ticker) rows).
  { intros holdings trades fills rows H. unfold ApplyTrades.apply_equity in H.
    bind_inv H. injection H as <-.
    assert (W : wf_idx x).
    { eapply (for_each_inv wf_idx); [|apply wf_idx_index_holdings|exact E].
      intros st t st' Hs Hb. eapply apply_equity_trade_wf; eassumption. }
    apply sorted_strict; [|apply sorted_by_sorted].
    eapply Permutation_NoDup.
    - apply Permutation_map. symmetry. apply sorted_by_perm.
    - rewrite (wf_idx_keys _ W). apply W. }
  split; [exact P1|]. split.
  - intros fs hp op ts trades fills fs' H. unfold ApplyTrades.main in H.
    destruct (ApplyTrades.load_holdings fs hp) as [holdings|e]; [|discriminate].
    destruct (ApplyTrades.apply_equity holdings trades fills) as [rows|e] eqn:E;
      [|discriminate].
    injection H as <-. exists (map encode_row rows). split.
    + unfold ApplyTrades.write_holdings.
      apply (DictFacts.get_set_same _ string_eqb_spec).
    + specialize (P1 _ _ _ _ E). clear E.
      induction P1 as [|r rows Hs IH Hr]; cbn; constructor; [exact IH|].
      rewrite Forall_forall in *. intros c Hc.
      apply in_map_iff in Hc. destruct Hc as (r' & <- & Hr').
      exact (Hr r' Hr').
  - intros d1 d2 W P. apply sorted_by_order_independent.
    + rewrite (wf_idx_keys _ W). apply W.
    + unfold Dict.values. apply Permutation_map, P.
Qed.


(** ** Normal forms of identifiers *)

Module NormalizeFacts.
Import Text TextFacts.
Import Notions.

Lemma upper_char_code c :
  code (upper_char c) = if (97 <=? code c) && (code c <=? 122) then code c - 32 else code c.
Proof.
  unfold upper_char. destruct ((97 <=? code c) && (code c <=? 122)) eqn:E; [|reflexivity].
  apply andb_true_iff in E. destruct E as [E1 E2].
  apply Z.leb_le in E1. apply Z.leb_le in E2.
  apply code_chr. lia.
Qed.

Lemma upper_char_idem c : upper_char (upper_char c) = upper_char c.
Proof.
  apply code_inj. rewrite (upper_char_code (upper_char c)), upper_char_code.
  destruct ((97 <=? code c) && (code c <=? 122)) eqn:E.
  - apply andb_true_iff in E. destruct E as [E1 E2].
    apply Z.leb_le in E1. apply Z.leb_le in E2.
    destruct (Z.leb_spec 97 (code c - 32)); [lia|]. reflexivity.
  - rewrite E. reflexivity.
Qed.

Lemma is_space_upper_char c : is_space (upper_char c) = is_space c.
Proof.
  unfold is_space. rewrite upper_char_code.
  destruct ((97 <=? code c) && (code c <=? 122)) eqn:E; [|reflexivity].
  apply andb_true_iff in E. destruct E as [E1 E2].
  apply Z.leb_le in E1. apply Z.leb_le in E2.
  repeat match goal with
         | |- context [?a <=? ?b] => destruct (Z.leb_spec a b); try lia
         end; reflexivity.
Qed.

Lemma lstrip_map_upper s : lstrip (map upper_char s) = map upper_char (lstrip s).
Proof.
  induction s as [|c s IH]; [reflexivity|].
  cbn. rewrite is_space_upper_char. destruct (is_space c); [exact IH | reflexivity].
Qed.

Lemma strip_chars_map_upper s :
  strip_chars (map upper_char s) = map upper_char (strip_chars s).
Proof.
  unfold strip_chars, rstrip.
  rewrite lstrip_map_upper, <- map_rev, lstrip_map_upper, map_rev. reflexivity.
Qed.

Lemma lstrip_fix s : no_leading_space s -> lstrip s = s.
Proof. destruct s as [|c s]; cbn; [reflexivity|]. intros ->. reflexivity. Qed.

Lemma lstrip_no_leading s : no_leading_space (lstrip s).
Proof.
  induction s as [|c s IH]; cbn; [exact I|].
  destruct (is_space c) eqn:E; [exact IH | exact E].
Qed.

Lemma lstrip_suffix s : exists pre, s = pre ++ lstrip s.
Proof.
  induction s as [|c s [pre IH]]; cbn; [exists []; reflexivity|].
  destruct (is_space c).
  - exists (c :: pre). cbn. f_equal. exact IH.
  - exists []. reflexivity.
Qed.

Lemma strip_chars_idem s : strip_chars (strip_chars s) = strip_chars s.
Proof.
  unfold strip_chars, rstrip.
  set (u := rev (lstrip s)).
  assert (H1 : no_leading_space (rev (lstrip u))).
  { destruct (lstrip_suffix u) as [pre Hp].
    assert (Hs : lstrip s = rev (lstrip u) ++ rev pre).
    { rewrite <- rev_app_distr, <- Hp. subst u. rewrite rev_involutive. reflexivity. }
    pose proof (lstrip_no_leading s) as Hn. rewrite Hs in Hn.
    destruct (rev (lstrip u)) as [|c r]; [exact I | exact Hn]. }
  rewrite (lstrip_fix _ H1), rev_involutive.
  rewrite (lstrip_fix _ (lstrip_no_leading u)). reflexivity.
Qed.

Lemma strip_upper s : strip (upper s) = upper (strip s).
Proof.
  unfold strip, upper. rewrite !list_ascii_of_string_of_list_ascii.
  rewrite strip_chars_map_upper. reflexivity.
Qed.

(** [s.strip().upper()] is a normal form: applying it again changes
    nothing. *)
Lemma normalize_idem s : normalize (normalize s) = normalize s.
Proof.
  unfold normalize. rewrite strip_upper.
  unfold strip, upper. rewrite !list_ascii_of_string_of_list_ascii.
  rewrite strip_chars_idem. rewrite map_map.
  f_equal. apply map_ext. intros c. apply upper_char_idem.
Qed.

End NormalizeFacts.

(** ** The round trip through the holdings file *)

Lemma decode_encode_row r : normal_row r -> decode_row (encode_row r) = Ok r.
Proof.
  intros [Ht Hc]. unfold decode_row, encode_row, Text.D_str.
  cbn [c_shares c_avg_cost c_ticker c_currency].
  rewrite !TextFacts.of_string_str. cbn [bind]. rewrite Ht, Hc.
  destruct r; reflexivity.
Qed.

Lemma decode_rows_normal cs rows :
  decode_rows cs = Ok rows -> Forall normal_row rows.
Proof.
  revert rows. induction cs as [|c cs IH]; intros rows H; cbn in H.
  - injection H as <-. constructor.
  - bind_inv H. bind_inv H. injection H as <-.
    constructor; [|apply IH; assumption].
    unfold decode_row in E. do 2 bind_inv E. injection E as <-.
    split; cbn; apply NormalizeFacts.normalize_idem.
Qed.

(** C5.  Decoding an encoded ledger gives the ledger back, row for row and
    digit for digit, for every list of rows whose tickers and currencies
    are in normal form (stripped, upper case), as the rows of every loaded
    ledger are; whatever the scales and signs of the decimals.  So a
    snapshot written by [write_holdings] loads as the ledger it was
    written from. *)
Theorem C5_decode_encode_round_trip :
  (forall rows, Forall normal_row rows -> decode_rows (map encode_row rows) = Ok rows)
  /\ (forall rows out_path ts fs,
        Forall normal_row rows ->
        ApplyTrades.load_holdings
          (ApplyTrades.write_holdings rows out_path ts fs) out_path = Ok rows)
  /\ (forall cs rows, decode_rows cs = Ok rows -> Forall normal_row rows).
Proof.
  assert (P1 : forall rows, Forall normal_row rows ->
                 decode_rows (map encode_row rows) = Ok rows).
  { induction 1 as [|r rows Hr _ IH]; cbn; [reflexivity|].
    rewrite (decode_encode_row r Hr). cbn. rewrite IH. reflexivity. }
  split; [exact P1|]. split.
  - intros rows op ts fs H.
    unfold ApplyTrades.load_holdings, ApplyTrades.write_holdings.
    rewrite (DictFacts.get_set_same _ string_eqb_spec). apply P1, H.
  - exact decode_rows_normal.
Qed.

(** The ledger of the spec's scenario after its second buy. *)
Lemma C5_decode_encode_round_trip_witness :
  decode_rows
    (map encode_row
       [mkrow "AAA" (Dec.mkdec false 15000000 (-6)) (Dec.mkdec false 1033333 (-4)) "USD"])
  = Ok [mkrow "AAA" (Dec.mkdec false 15000000 (-6)) (Dec.mkdec false 1033333 (-4)) "USD"].
Proof.
  apply (proj1 C5_decode_encode_round_trip).
  constructor; [|constructor]. split; vm_compute; reflexivity.
Defined.

(** ** Exact results of the context arithmetic *)

Module ArithFacts.
Import Dec DecFacts.
Import Notions.

Lemma Etiny_val : Etiny = -1000026.
Proof. reflexivity. Qed.

Lemma Etop_val : Etop = 999972.
Proof. reflexivity. Qed.

Lemma coeff_mkdec s n e : coeff (mkdec s n e) = Z.of_N n.
Proof. reflexivity. Qed.

Lemma in_context_triple s c e :
  0 <= c < 10 ^ 28 -> Etiny <= e <= Etop -> in_context (triple s c e).
Proof.
  intros Hc He. split.
  - rewrite coeff_triple by lia. exact (proj2 Hc).
  - exact He.
Qed.

(** A sum, difference or product that fits the precision is exact. *)
Lemma add_exact a b :
  let e := Z.min (dexp a) (dexp b) in
  let s := scoeff a * 10 ^ (dexp a - e) + scoeff b * 10 ^ (dexp b - e) in
  Z.abs s < 10 ^ 28 -> Etiny <= e <= Etop ->
  add a b = Ok (triple (if s =? 0 then dsign a && dsign b else s <? 0) (Z.abs s) e).
Proof.
  intros e s Hs He. unfold add. fold e. fold s.
  apply fix_in_context, in_context_triple; [lia | exact He].
Qed.

Lemma mul_exact a b :
  coeff a * coeff b < 10 ^ 28 -> Etiny <= dexp a + dexp b <= Etop ->
  mul a b = Ok (triple (xorb (dsign a) (dsign b)) (coeff a * coeff b) (dexp a + dexp b)).
Proof.
  intros Hc He. unfold mul.
  apply fix_in_context, in_context_triple; [|exact He].
  pose proof (coeff_nonneg a). pose proof (coeff_nonneg b). nia.
Qed.

Lemma scoeff_neg a : scoeff (neg a) = - scoeff a.
Proof. unfold scoeff, neg, coeff. cbn. destruct (dsign a); cbn; lia. Qed.

(** Half-up rounding as a quotient. *)
Lemma round_half_up_div c k :
  0 <= c -> 0 < k -> round_half_up c k = (2 * c + 10 ^ k) / (2 * 10 ^ k).
Proof.
  intros Hc Hk. unfold round_half_up.
  pose proof (pow10_gt0 k ltac:(lia)) as Hp.
  set (p := 10 ^ k) in *.
  pose proof (Z.div_mod c p ltac:(lia)) as Hd.
  pose proof (Z.mod_pos_bound c p Hp) as Hm.
  set (q := c / p) in *. set (r := c mod p) in *.
  destruct (Z.geb_spec (2 * r) p).
  - apply (Z.div_unique _ _ _ (2 * r - p)); lia.
  - apply (Z.div_unique _ _ _ (2 * r + p)); lia.
Qed.

Lemma round_half_up_0 k : 0 < k -> round_half_up 0 k = 0.
Proof.
  intros Hk. unfold round_half_up.
  pose proof (pow10_gt0 k ltac:(lia)) as Hp.
  rewrite Z.div_0_l, Z.mod_0_l by lia.
  destruct (Z.geb_spec (2 * 0) (10 ^ k)); lia.
Qed.

Lemma round_half_up_nonneg c k : 0 <= c -> 0 <= k -> 0 <= round_half_up c k.
Proof.
  intros Hc Hk. unfold round_half_up.
  pose proof (pow10_gt0 k Hk).
  pose proof (Z.div_pos c (10 ^ k) Hc ltac:(lia)).
  destruct (2 * (c mod 10 ^ k) >=? 10 ^ k); lia.
Qed.

Lemma round_half_up_le c k b :
  0 <= c -> 0 <= k -> c < b * 10 ^ k -> round_half_up c k <= b.
Proof.
  intros Hc Hk Hb. unfold round_half_up.
  pose proof (pow10_gt0 k Hk) as Hp.
  assert (c / 10 ^ k < b) by (apply Z.div_lt_upper_bound; lia).
  destruct (2 * (c mod 10 ^ k) >=? 10 ^ k); lia.
Qed.

Lemma qcoeff_nonneg d e : 0 <= qcoeff d e.
Proof.
  unfold qcoeff. pose proof (coeff_nonneg d).
  destruct (Z.geb_spec (dexp d) e).
  - pose proof (pow10_gt0 (dexp d - e) ltac:(lia)). nia.
  - apply round_half_up_nonneg; lia.
Qed.

(** [quantize] of a value that leaves room in the precision. *)
Lemma quantize_exact d e :
  -1000 <= e <= 1000 -> -1000 <= dexp d <= 1000 ->
  coeff d * 10 ^ (dexp d + 1000) < 10 ^ (27 + e + 1000) ->
  quantize_half_up d e = Ok (triple (dsign d) (qcoeff d e) e).
Proof.
  intros He Hd Hc. unfold quantize_half_up.
  pose proof (coeff_nonneg d) as Hn.
  assert (HE : (Etiny <=? e) && (e <=? Emax) = true).
  { apply andb_true_iff. split; apply Z.leb_le; unfold Etiny, Emax, Emin, prec; lia. }
  rewrite HE. cbn [negb].
  unfold is_zero. destruct (Z.eqb_spec (coeff d) 0) as [E0|N0].
  - assert (Hq : qcoeff d e = 0).
    { unfold qcoeff. rewrite E0. destruct (Z.geb_spec (dexp d) e); [lia|].
      apply round_half_up_0. lia. }
    rewrite Hq. rewrite fix_in_context; [reflexivity|].
    split; [reflexivity | cbn [dexp]; unfold Etiny, Etop, Emax, Emin, prec; lia].
  - assert (Hpos : 0 < coeff d) by lia.
    destruct (ndigits_spec (coeff d) Hpos) as (L1 & L2 & L3).
    assert (Hnd : ndigits (coeff d) + dexp d <= 27 + e).
    { destruct (Z.le_gt_cases (ndigits (coeff d) + dexp d) (27 + e)); [assumption|].
      exfalso.
      assert (10 ^ (27 + e + 1000) <= 10 ^ (ndigits (coeff d) - 1 + (dexp d + 1000))).
      { apply pow10_le. lia. }
      rewrite (pow10_split (ndigits (coeff d) - 1) (dexp d + 1000)) in H0 by lia.
      pose proof (pow10_gt0 (dexp d + 1000) ltac:(lia)).
      assert (10 ^ (ndigits (coeff d) - 1) * 10 ^ (dexp d + 1000)
              <= coeff d * 10 ^ (dexp d + 1000))
        by (apply Z.mul_le_mono_nonneg_r; lia).
      lia. }
    unfold adjusted.
    destruct (Z.gtb_spec (dexp d + ndigits (coeff d) - 1) Emax);
      [unfold Emax in *; lia|].
    destruct (Z.gtb_spec (dexp d + ndigits (coeff d) - 1 - e + 1) prec);
      [unfold prec in *; lia|].
    assert (Hq : 0 <= qcoeff d e < 10 ^ 28).
    { split; [apply qcoeff_nonneg|]. unfold qcoeff.
      destruct (Z.geb_spec (dexp d) e).
      - assert (10 ^ ndigits (coeff d) * 10 ^ (dexp d - e) <= 10 ^ 27).
        { rewrite <- pow10_split by lia. apply pow10_le. lia. }
        pose proof (pow10_gt0 (dexp d - e) ltac:(lia)).
        change (10 ^ 28) with (10 * 10 ^ 27). nia.
      - assert (round_half_up (coeff d) (e - dexp d) <= 10 ^ 27); [|change (10 ^ 28) with (10 * 10 ^ 27); lia].
        apply round_half_up_le; try lia.
        assert (10 ^ ndigits (coeff d) <= 10 ^ 27 * 10 ^ (e - dexp d)).
        { rewrite <- pow10_split by lia. apply pow10_le. lia. }
        lia. }
    assert (Hans : rescale_half_up d e = triple (dsign d) (qcoeff d e) e).
    { unfold rescale_half_up, is_zero, qcoeff.
      destruct (Z.eqb_spec (coeff d) 0); [lia|].
      destruct (dexp d >=? e); reflexivity. }
    rewrite Hans. rewrite coeff_triple by lia. cbn [dexp triple].
    pose proof (ndigits_le (qcoeff d e) 28 Hq ltac:(lia)).
    pose proof (ndigits_pos (qcoeff d e)).
    destruct (Z.gtb_spec (e + ndigits (qcoeff d e) - 1) Emax); [unfold Emax in *; lia|].
    destruct (Z.gtb_spec (ndigits (qcoeff d e)) prec); [unfold prec in *; lia|].
    apply fix_in_context, in_context_triple; [exact Hq|].
    unfold Etiny, Etop, Emax, Emin, prec; lia.
Qed.

End ArithFacts.

(** ** Exact values and quantization *)

Module ExactFacts.
Import Dec DecFacts ArithFacts Exact.
Import Notions.

Lemma pow10_Qpower e : (pow10 e == Qpower (inject_Z 10) e)%Q.
Proof.
  unfold pow10. destruct (Z.leb_spec 0 e).
  - apply Zpower_Qpower. assumption.
  - rewrite (Zpower_Qpower 10 (- e)) by lia.
    rewrite Qpower_opp. rewrite Qinv_involutive. reflexivity.
Qed.

Lemma pow10_add a b : (pow10 (a + b) == pow10 a * pow10 b)%Q.
Proof.
  rewrite !pow10_Qpower. apply Qpower_plus. discriminate.
Qed.

Lemma pow10_pos e : (0 < pow10 e)%Q.
Proof. rewrite pow10_Qpower. apply Qpower_0_lt. reflexivity. Qed.

Lemma pow10_neq0 e : ~ (pow10 e == 0)%Q.
Proof. pose proof (pow10_pos e) as H. intros E. rewrite E in H. discriminate. Qed.

Lemma pow10_Z e : 0 <= e -> pow10 e = inject_Z (10 ^ e).
Proof. intros H. unfold pow10. destruct (Z.leb_spec 0 e); [reflexivity | lia]. Qed.

Lemma pow10_opp e : (pow10 e * pow10 (- e) == 1)%Q.
Proof. rewrite <- pow10_add. replace (e + - e) with 0 by lia. reflexivity. Qed.

Lemma Qfloor_half_frac x a b :
  0 < b -> (x == inject_Z a / inject_Z b)%Q ->
  Qfloor (x + (1 # 2)) = (2 * a + b) / (2 * b).
Proof.
  intros Hb Hx. rewrite Zdiv_Qdiv. apply Qfloor_comp.
  rewrite Hx. rewrite !inject_Z_plus, !inject_Z_mult.
  assert (~ (inject_Z b == 0)%Q).
  { intros E. apply (Qeq_bool_neq (inject_Z b) 0); [|exact E].
    unfold Qeq_bool, inject_Z. cbn. apply Z.eqb_neq. lia. }
  field. assumption.
Qed.

(** [quantize] computes the exact half-up quantization of a non-negative
    decimal's value. *)
Lemma half_up_value d k :
  dsign d = false -> half_up (value d) k = qcoeff d (- k).
Proof.
  intros Hs. unfold half_up, value, scoeff, qcoeff. rewrite Hs.
  pose proof (coeff_nonneg d) as Hc.
  destruct (Z.geb_spec (dexp d) (- k)).
  - assert (E : (inject_Z (coeff d) * pow10 (dexp d) * pow10 k
                 == inject_Z (coeff d * 10 ^ (dexp d - - k)) / inject_Z 1)%Q).
    { rewrite <- Qmult_assoc, <- pow10_add.
      rewrite (pow10_Z (dexp d + k)) by lia.
      replace (dexp d - - k) with (dexp d + k) by lia.
      rewrite inject_Z_mult. field. }
    rewrite (Qfloor_half_frac _ _ 1 ltac:(lia) E).
    symmetry. apply (Z.div_unique _ _ _ 1); lia.
  - rewrite round_half_up_div by lia.
    apply Qfloor_half_frac; [apply pow10_gt0; lia|].
    rewrite <- Qmult_assoc, <- pow10_add.
    replace (- k - dexp d) with (- (dexp d + k)) by lia.
    rewrite <- (pow10_Z (- (dexp d + k))) by lia.
    pose proof (pow10_opp (dexp d + k)) as Ho.
    pose proof (pow10_neq0 (- (dexp d + k))) as Hz.
    assert (HP : (pow10 (dexp d + k) == / pow10 (- (dexp d + k)))%Q).
    { rewrite <- (Qmult_1_r (pow10 (dexp d + k))).
      rewrite <- (Qmult_inv_r (pow10 (- (dexp d + k)))) at 1 by exact Hz.
      rewrite Qmult_assoc, Ho. ring. }
    rewrite HP. reflexivity.
Qed.

End ExactFacts.

(** ** Decimals as whole numbers of small units *)

Module UnitFacts.
Import Dec DecFacts ArithFacts Exact ExactFacts.
Import Notions.

Lemma value_units f d :
  - f <= dexp d -> (value d == inject_Z (units f d) * pow10 (- f))%Q.
Proof.
  intros H. unfold value, units. rewrite inject_Z_mult.
  rewrite <- (pow10_Z (dexp d + f)) by lia.
  rewrite <- Qmult_assoc, <- pow10_add.
  replace (dexp d + f + - f) with (dexp d) by lia. reflexivity.
Qed.

Lemma within_units f d :
  within f d -> units f d = coeff d * 10 ^ (dexp d + f) /\ 0 <= units f d < 10 ^ (7 + f).
Proof.
  intros (Hs & He & Hc). unfold units, scoeff. rewrite Hs.
  split; [reflexivity|]. split; [|exact Hc].
  pose proof (coeff_nonneg d). pose proof (pow10_gt0 (dexp d + f) ltac:(lia)). nia.
Qed.

Lemma within_le f g d : 0 <= f <= g -> within f d -> within g d.
Proof.
  intros Hfg (Hs & He & Hc). repeat split; try assumption; try lia.
  replace (dexp d + g) with ((dexp d + f) + (g - f)) by lia.
  replace (7 + g) with ((7 + f) + (g - f)) by lia.
  rewrite (pow10_split (dexp d + f) (g - f)), (pow10_split (7 + f) (g - f)) by lia.
  pose proof (pow10_gt0 (g - f) ltac:(lia)).
  rewrite Z.mul_assoc. apply Z.mul_lt_mono_pos_r; assumption.
Qed.

Lemma units_align d e f :
  - f <= e <= dexp d ->
  scoeff d * 10 ^ (dexp d - e) * 10 ^ (e + f) = units f d.
Proof.
  intros H. unfold units. rewrite <- Z.mul_assoc, <- pow10_split by lia.
  f_equal. f_equal. lia.
Qed.

(** Sums and differences of such decimals are exact. *)
Lemma add_units f a b :
  0 <= f <= 20 ->
  dsign a = false ->
  - f <= dexp a <= 0 -> - f <= dexp b <= 0 ->
  0 <= units f a + units f b < 10 ^ (7 + f) ->
  exists c, add a b = Ok c
            /\ within f c
            /\ dexp c = Z.min (dexp a) (dexp b)
            /\ units f c = units f a + units f b.
Proof.
  intros Hf Sa Ha Hb Hu.
  set (e := Z.min (dexp a) (dexp b)).
  set (s := scoeff a * 10 ^ (dexp a - e) + scoeff b * 10 ^ (dexp b - e)).
  assert (He : - f <= e <= 0) by (subst e; lia).
  assert (Hs : s * 10 ^ (e + f) = units f a + units f b).
  { subst s. rewrite Z.mul_add_distr_r, !units_align by lia. reflexivity. }
  pose proof (pow10_gt0 (e + f) ltac:(lia)) as Hp.
  assert (Hs0 : 0 <= s) by nia.
  assert (Hs1 : s < 10 ^ 28).
  { assert (10 ^ (7 + f) <= 10 ^ 27) by (apply pow10_le; lia).
    change (10 ^ 28) with (10 * 10 ^ 27). nia. }
  exists (triple false s e).
  assert (Hadd : add a b = Ok (triple false s e)).
  { rewrite add_exact; fold e; fold s.
    - rewrite Z.abs_eq by lia. rewrite Sa. cbn [andb].
      destruct (Z.eqb_spec s 0); [reflexivity|].
      destruct (Z.ltb_spec s 0); [lia | reflexivity].
    - rewrite Z.abs_eq by lia. exact Hs1.
    - rewrite Etiny_val, Etop_val. lia. }
  split; [exact Hadd|].
  assert (Hc : coeff (triple false s e) = s) by (apply coeff_triple; lia).
  assert (Hun : units f (triple false s e) = units f a + units f b).
  { unfold units, scoeff. cbn [dsign dexp triple]. rewrite Hc. exact Hs. }
  split; [|split; [reflexivity | exact Hun]].
  repeat split; cbn [dsign dexp triple]; try lia.
Qed.

Lemma units_neg f b : units f (neg b) = - units f b.
Proof. unfold units. rewrite scoeff_neg. cbn [neg dexp]. lia. Qed.

Lemma sub_units f a b :
  0 <= f <= 20 ->
  dsign a = false ->
  - f <= dexp a <= 0 -> - f <= dexp b <= 0 ->
  0 <= units f a - units f b < 10 ^ (7 + f) ->
  exists c, sub a b = Ok c
            /\ within f c
            /\ dexp c = Z.min (dexp a) (dexp b)
            /\ units f c = units f a - units f b.
Proof.
  intros Hf Sa Ha Hb Hu. unfold sub.
  destruct (add_units f a (neg b) Hf Sa Ha) as (c & H1 & H2 & H3 & H4).
  - exact Hb.
  - rewrite units_neg. lia.
  - exists c. rewrite units_neg in H4.
    split; [exact H1|]. split; [exact H2|]. split; [exact H3|]. lia.
Qed.

Lemma Zcompare_mul_r x y p : 0 < p -> (x * p ?= y * p) = (x ?= y).
Proof.
  intros Hp. destruct (Z.compare_spec x y) as [E|L|G].
  - subst. apply Z.compare_refl.
  - apply Z.compare_lt_iff. apply Z.mul_lt_mono_pos_r; assumption.
  - apply Z.compare_gt_iff. apply Z.mul_lt_mono_pos_r; assumption.
Qed.

(** Comparison is comparison of the units. *)
Lemma cmp_units f a b :
  - f <= dexp a -> - f <= dexp b ->
  cmp a b = Z.compare (units f a) (units f b).
Proof.
  intros Ha Hb. unfold cmp.
  set (e := Z.min (dexp a) (dexp b)).
  rewrite <- (units_align a e f), <- (units_align b e f) by (subst e; lia).
  pose proof (pow10_gt0 (e + f) ltac:(subst e; lia)) as Hp.
  symmetry. apply Zcompare_mul_r. exact Hp.
Qed.

(** Quantizing to 6 or 4 digits is the exact half-up quantization of the
    value. *)
Lemma quantize_within f d k :
  0 <= f <= 20 -> 0 <= k <= 6 -> within f d ->
  quantize_half_up d (- k) = Ok (quantized (value d) k).
Proof.
  intros Hf Hk (Hs & He & Hc).
  rewrite quantize_exact; try lia.
  - unfold quantized. rewrite (half_up_value d k Hs), Hs. reflexivity.
  - replace (dexp d + 1000) with ((dexp d + f) + (1000 - f)) by lia.
    rewrite pow10_split by lia.
    assert (10 ^ (7 + f) * 10 ^ (1000 - f) <= 10 ^ (27 + - k + 1000)).
    { rewrite <- pow10_split by lia. apply pow10_le. lia. }
    pose proof (pow10_gt0 (1000 - f) ltac:(lia)). nia.
Qed.

End UnitFacts.

(** ** Selling *)

Lemma quantized_comp x y k : (x == y)%Q -> Exact.quantized x k = Exact.quantized y k.
Proof.
  intros H. unfold Exact.quantized, Exact.half_up.
  assert (E : Qfloor (x * Exact.pow10 k + (1 # 2)) = Qfloor (y * Exact.pow10 k + (1 # 2))).
  { apply Qfloor_comp. rewrite H. reflexivity. }
  rewrite E. reflexivity.
Qed.

Lemma value_sub_units f a b c :
  - f <= Dec.dexp a -> - f <= Dec.dexp b -> - f <= Dec.dexp c ->
  Notions.units f c = Notions.units f a - Notions.units f b ->
  (Exact.value c == Exact.value a - Exact.value b)%Q.
Proof.
  intros Ha Hb Hc H.
  rewrite (UnitFacts.value_units f a), (UnitFacts.value_units f b),
    (UnitFacts.value_units f c) by assumption.
  rewrite H. unfold Zminus. rewrite inject_Z_plus, inject_Z_opp. ring.
Qed.

Lemma value_add_units f a b c :
  - f <= Dec.dexp a -> - f <= Dec.dexp b -> - f <= Dec.dexp c ->
  Notions.units f c = Notions.units f a + Notions.units f b ->
  (Exact.value c == Exact.value a + Exact.value b)%Q.
Proof.
  intros Ha Hb Hc H.
  rewrite (UnitFacts.value_units f a), (UnitFacts.value_units f b),
    (UnitFacts.value_units f c) by assumption.
  rewrite H. rewrite inject_Z_plus. ring.
Qed.

Lemma quantized_zero x k : (x == 0)%Q -> Dec.is_zero (Exact.quantized x k) = true.
Proof.
  intros H. rewrite (quantized_comp x 0 k H).
  unfold Exact.quantized, Exact.half_up, Dec.is_zero, Dec.coeff. cbn [Dec.dint].
  assert (E : Qfloor (0 * Exact.pow10 k + (1 # 2)) = 0).
  { transitivity (Qfloor (1 # 2)); [|reflexivity]. apply Qfloor_comp. ring. }
  rewrite E. reflexivity.
Qed.

(** C3, as the code has it.  A reconciled sell of [q] from a position of
    [q0 >= q] (both non-negative, below ten million, with at most 15
    fractional digits) leaves [q0 - q] quantized to 6 digits half-up: when
    that is not zero the position keeps its average cost and currency with
    the new quantity; when it is zero, as it is for [q = q0], the
    instrument is deleted from the index, and any later reconciled sell of
    that instrument fails with "selling non-existent holding". *)
Theorem C3_sell_keeps_cost_or_removes :
  forall fidx hidx t row q fills_here p,
    String.eqb (ApplyTrades.t_action t) "buy" = false ->
    Dict.get String.eqb (ApplyTrades.t_ticker t) hidx = Some row ->
    ApplyTrades.reconcile fidx t = Ok (q, fills_here, p) ->
    Exact.within 15 (shares row) -> Exact.within 15 q ->
    Dec.gtb q (shares row) = false ->
    let left := Exact.quantized (Exact.value (shares row) - Exact.value q) 6 in
    ApplyTrades.apply_equity_trade fidx hidx t
    = Ok (if Dec.is_zero left
          then Dict.del String.eqb (ApplyTrades.t_ticker t) hidx
          else Dict.set String.eqb (ApplyTrades.t_ticker t)
                 (mkrow (ticker row) left (avg_cost row) (currency row)) hidx)
    /\ (Dec.eqb q (shares row) = true -> Dec.is_zero left = true)
    /\ (NoDup (Dict.keys hidx) ->
        forall fidx' t' r',
          ApplyTrades.t_ticker t' = ApplyTrades.t_ticker t ->
          String.eqb (ApplyTrades.t_action t') "buy" = false ->
          ApplyTrades.reconcile fidx' t' = Ok r' ->
          ApplyTrades.apply_equity_trade fidx'
            (Dict.del String.eqb (ApplyTrades.t_ticker t) hidx) t'
          = Err (NoSuchPosition (ApplyTrades.t_ticker t))).
Proof.
  intros fidx hidx t row q fills_here p Ha Hg Hr Wr Wq Hgt left.
  destruct Wr as (Sr & Er & Cr) eqn:Wr'. destruct Wq as (Sq & Eq_ & Cq) eqn:Wq'.
  assert (Hcmp : Dec.cmp q (shares row)
                 = Z.compare (Notions.units 15 q) (Notions.units 15 (shares row))).
  { apply UnitFacts.cmp_units; lia. }
  destruct (UnitFacts.within_units 15 _ (conj Sr (conj Er Cr))) as [_ Ur].
  destruct (UnitFacts.within_units 15 _ (conj Sq (conj Eq_ Cq))) as [_ Uq].
  assert (Hle : Notions.units 15 q <= Notions.units 15 (shares row)).
  { unfold Dec.gtb in Hgt. rewrite Hcmp in Hgt.
    destruct (Z.compare_spec (Notions.units 15 q) (Notions.units 15 (shares row)));
      try lia; try discriminate. }
  destruct (UnitFacts.sub_units 15 (shares row) q ltac:(lia) Sr Er Eq_ ltac:(lia))
    as (c & Hsub & Wc & Ec & Uc).
  assert (Hv : (Exact.value c == Exact.value (shares row) - Exact.value q)%Q).
  { apply (value_sub_units 15); lia. }
  assert (Hround : ApplyTrades.round_shares c = Ok left).
  { unfold ApplyTrades.round_shares. rewrite TextFacts.D_id. cbn [bind].
    pose proof (UnitFacts.quantize_within 15 c 6 ltac:(lia) ltac:(lia) Wc) as Hq.
    cbn [Z.opp] in Hq. rewrite Hq.
    f_equal. apply quantized_comp, Hv. }
  split; [|split].
  - unfold ApplyTrades.apply_equity_trade. rewrite Hr. cbn [bind].
    unfold ApplyTrades.transition. rewrite Ha, Hg, Hgt, Hsub. cbn [bind].
    rewrite Hround. cbn [bind].
    destruct (Dec.is_zero left); reflexivity.
  - intros He. apply quantized_zero.
    unfold Dec.eqb in He. rewrite Hcmp in He.
    destruct (Z.compare_spec (Notions.units 15 q) (Notions.units 15 (shares row)))
      as [E|L|G]; try discriminate.
    rewrite (UnitFacts.value_units 15 (shares row)), (UnitFacts.value_units 15 q) by lia.
    rewrite E. ring.
  - intros ND fidx' t' r' Ht Ha' Hr'.
    unfold ApplyTrades.apply_equity_trade. rewrite Hr'. cbn [bind].
    destruct r' as [[q' f'] p'].
    unfold ApplyTrades.transition. rewrite Ha', Ht.
    rewrite (DictFacts.get_del_same _ string_eqb_spec _ _ ND). reflexivity.
Qed.

(** Selling 5 of 15 AAA, in the state of the spec's scenario. *)
Lemma C3_sell_keeps_cost_or_removes_witness :
  ApplyTrades.apply_equity_trade
    (ApplyTrades.group_fills
       (fun f => (ApplyTrades.f_action f, ApplyTrades.f_ticker f))
       [ApplyTrades.mkfill "sell" "AAA" (Dec.mkdec false 5 0) (Dec.mkdec false 120 0) "USD"])
    [("AAA"%string,
      mkrow "AAA" (Dec.mkdec false 15000000 (-6)) (Dec.mkdec false 1033333 (-4)) "USD")]
    (ApplyTrades.mktrade "sell" "AAA" (Dec.mkdec false 5 0))
  = Ok [("AAA"%string,
         mkrow "AAA" (Dec.mkdec false 10000000 (-6)) (Dec.mkdec false 1033333 (-4)) "USD")].
Proof.
  refine (proj1 (C3_sell_keeps_cost_or_removes
           (ApplyTrades.group_fills
              (fun f => (ApplyTrades.f_action f, ApplyTrades.f_ticker f))
              [ApplyTrades.mkfill "sell" "AAA" (Dec.mkdec false 5 0) (Dec.mkdec false 120 0) "USD"])
           [("AAA"%string,
             mkrow "AAA" (Dec.mkdec false 15000000 (-6)) (Dec.mkdec false 1033333 (-4)) "USD")]
           (ApplyTrades.mktrade "sell" "AAA" (Dec.mkdec false 5 0))
           (mkrow "AAA" (Dec.mkdec false 15000000 (-6)) (Dec.mkdec false 1033333 (-4)) "USD")
           (Dec.mkdec false 5 0)
           [ApplyTrades.mkfill "sell" "AAA" (Dec.mkdec false 5 0) (Dec.mkdec false 120 0) "USD"]
           (Dec.mkdec false 120 0) _ _ _ _ _ _)).
  - reflexivity.
  - reflexivity.
  - vm_compute. reflexivity.
  - repeat split; vm_compute; try reflexivity; discriminate.
  - repeat split; vm_compute; try reflexivity; discriminate.
  - vm_compute. reflexivity.
Defined.

(** Where the claim fails: selling 0.0000006 of a position of 0.000001
    leaves 0.0000004, which is quantized to 0.000000, and the row is
    deleted although less than the whole position was sold. *)
Lemma C3_counterexample :
  Dec.ltb (Dec.mkdec false 6 (-7)) (Dec.mkdec false 1 (-6)) = true
  /\ ApplyTrades.apply_equity
       [mkrow "AAA" (Dec.mkdec false 1 (-6)) (Dec.mkdec false 1000000 (-4)) "USD"]
       [ApplyTrades.mktrade "sell" "AAA" (Dec.mkdec false 6 (-7))]
       [ApplyTrades.mkfill "sell" "AAA" (Dec.mkdec false 6 (-7)) (Dec.mkdec false 120 0) "USD"]
     = Ok [].
Proof. split; vm_compute; reflexivity. Qed.

(** ** What the arithmetic can raise *)

Lemma fix_error d e : Dec.fix_ d = Err e -> decimal_error e.
Proof.
  unfold Dec.fix_. intros H.
  repeat match type of H with
         | (if ?c then _ else _) = _ => destruct c
         | (let '(_, _) := (if ?c then _ else _) in _) = _ => destruct c
         end; try discriminate; injection H as <-; eexists; reflexivity.
Qed.

Lemma add_error a b e : Dec.add a b = Err e -> decimal_error e.
Proof. apply fix_error. Qed.

Lemma sub_error a b e : Dec.sub a b = Err e -> decimal_error e.
Proof. apply fix_error. Qed.

Lemma mul_error a b e : Dec.mul a b = Err e -> decimal_error e.
Proof. apply fix_error. Qed.

Lemma div_error a b e : Dec.div a b = Err e -> decimal_error e.
Proof.
  unfold Dec.div. intros H.
  destruct (Dec.is_zero b).
  - destruct (Dec.is_zero a); injection H as <-; eexists; reflexivity.
  - destruct (Dec.is_zero a); [exact (fix_error _ _ H)|].
    match type of H with
    | (let '(_, _) := ?x in _) = _ => destruct x
    end. exact (fix_error _ _ H).
Qed.

Lemma quantize_error d k e : Dec.quantize_half_up d k = Err e -> decimal_error e.
Proof.
  unfold Dec.quantize_half_up. intros H.
  repeat match type of H with
         | (if ?c then _ else _) = _ => destruct c
         end;
    try exact (fix_error _ _ H); injection H as <-; eexists; reflexivity.
Qed.

Lemma bind_Err {A B : Type} (r : result A) (k : A -> result B) e :
  bind r k = Err e -> r = Err e \/ exists a, r = Ok a /\ k a = Err e.
Proof. destruct r as [a|e']; cbn; [eauto | intros [= ->]; auto]. Qed.

Lemma round_shares_error d e : ApplyTrades.round_shares d = Err e -> decimal_error e.
Proof.
  unfold ApplyTrades.round_shares. rewrite TextFacts.D_id. cbn [bind].
  apply quantize_error.
Qed.

Lemma round_price_error d e : ApplyTrades.round_price d = Err e -> decimal_error e.
Proof.
  unfold ApplyTrades.round_price. rewrite TextFacts.D_id. cbn [bind].
  apply quantize_error.
Qed.

Lemma for_each_error {S X : Type} (P : error -> Prop) (body : S -> X -> result S) xs :
  (forall st x e, body st x = Err e -> P e) ->
  forall st e, for_each body st xs = Err e -> P e.
Proof.
  intros Hb. induction xs as [|x xs IH]; intros st e H; cbn in H; [discriminate|].
  apply bind_Err in H. destruct H as [H|(st' & _ & H)]; [eapply Hb | eapply IH]; eassumption.
Qed.

Lemma D_str_0 : Text.D_str "0" = Ok Dec.zero.
Proof. reflexivity. Qed.

Lemma dec_sum_error {X : Type} (g : X -> result Dec.decimal) fs e :
  (forall f e, g f = Err e -> decimal_error e) ->
  dec_sum g fs = Err e -> decimal_error e.
Proof.
  intros Hg. unfold dec_sum. rewrite D_str_0. cbn [bind].
  apply (for_each_error decimal_error).
  intros st x e0 H. apply bind_Err in H.
  destruct H as [H|(a & _ & H)]; [eapply Hg | eapply add_error]; eassumption.
Qed.

(** ** Totals of fills *)

Lemma dec_sum_units {X : Type} (g : X -> Dec.decimal) (fs : list X) :
  Forall (fun f => Exact.within 15 (g f)) fs ->
  sum_units g fs < 10 ^ 22 ->
  exists total,
    dec_sum (fun f => Ok (g f)) fs = Ok total
    /\ Exact.within 15 total
    /\ Notions.units 15 total = sum_units g fs.
Proof.
  unfold sum_units. intros Hw Hs. unfold dec_sum. rewrite D_str_0. cbn [bind].
  assert (G : forall acc,
           Exact.within 15 acc ->
           Notions.units 15 acc
           + fold_right (fun f a => Notions.units 15 (g f) + a) 0 fs < 10 ^ 22 ->
           exists total,
             for_each (fun acc f => x <- Ok (g f) ;; Dec.add acc x) acc fs = Ok total
             /\ Exact.within 15 total
             /\ Notions.units 15 total
                = Notions.units 15 acc
                  + fold_right (fun f a => Notions.units 15 (g f) + a) 0 fs).
  { clear Hs. induction Hw as [|f fs Hf Hw IH]; intros acc Wa Hb; cbn [for_each fold_right] in *.
    - exists acc. split; [reflexivity|]. split; [exact Wa|]. lia.
    - cbn [bind].
      destruct (UnitFacts.within_units 15 _ Wa) as [_ Ua].
      destruct (UnitFacts.within_units 15 _ Hf) as [_ Uf].
      assert (Hrest : 0 <= fold_right (fun f a => Notions.units 15 (g f) + a) 0 fs).
      { clear - Hw. induction Hw as [|f' fs' Hf' _ IH']; cbn; [lia|].
        destruct (UnitFacts.within_units 15 _ Hf') as [_ U']. lia. }
      destruct (UnitFacts.add_units 15 acc (g f) ltac:(lia) (proj1 Wa)
                  (proj1 (proj2 Wa)) (proj1 (proj2 Hf)) ltac:(change (7 + 15) with 22; lia))
        as (c & Hc & Wc & _ & Uc).
      rewrite Hc. cbn [bind].
      destruct (IH c Wc ltac:(lia)) as (total & Ht & Wt & Ut).
      exists total. split; [exact Ht|]. split; [exact Wt|]. lia. }
  destruct (G Dec.zero) as (total & Ht & Wt & Ut).
  - repeat split; cbn; try reflexivity; lia.
  - change (Notions.units 15 Dec.zero) with 0. lia.
  - exists total. split; [exact Ht|]. split; [exact Wt|].
    rewrite Ut. reflexivity.
Qed.

Lemma exact_sum_units {X : Type} (g : X -> Dec.decimal) (fs : list X) :
  Forall (fun f => Exact.within 15 (g f)) fs ->
  (Exact.exact_sum (map g fs)
   == inject_Z (sum_units g fs) * Exact.pow10 (- (15)))%Q.
Proof.
  unfold sum_units. induction 1 as [|f fs Hf _ IH]; cbn [map Exact.exact_sum fold_right].
  - ring.
  - fold (Exact.exact_sum (map g fs)). rewrite IH.
    rewrite (UnitFacts.value_units 15 (g f)) by apply Hf.
    rewrite inject_Z_plus. ring.
Qed.

(** Equality of decimals is equality of their values. *)
Lemma eqb_value a b : Dec.eqb a b = true <-> (Exact.value a == Exact.value b)%Q.
Proof.
  unfold Dec.eqb, Dec.cmp.
  set (e := Z.min (Dec.dexp a) (Dec.dexp b)).
  assert (Ha : (Exact.value a
                == inject_Z (Dec.scoeff a * 10 ^ (Dec.dexp a - e)) * Exact.pow10 e)%Q).
  { unfold Exact.value. rewrite inject_Z_mult.
    rewrite <- (ExactFacts.pow10_Z (Dec.dexp a - e)) by (subst e; lia).
    rewrite <- Qmult_assoc, <- ExactFacts.pow10_add.
    replace (Dec.dexp a - e + e) with (Dec.dexp a) by lia. reflexivity. }
  assert (Hb : (Exact.value b
                == inject_Z (Dec.scoeff b * 10 ^ (Dec.dexp b - e)) * Exact.pow10 e)%Q).
  { unfold Exact.value. rewrite inject_Z_mult.
    rewrite <- (ExactFacts.pow10_Z (Dec.dexp b - e)) by (subst e; lia).
    rewrite <- Qmult_assoc, <- ExactFacts.pow10_add.
    replace (Dec.dexp b - e + e) with (Dec.dexp b) by lia. reflexivity. }
  rewrite Ha, Hb.
  set (x := Dec.scoeff a * 10 ^ (Dec.dexp a - e)).
  set (y := Dec.scoeff b * 10 ^ (Dec.dexp b - e)).
  split.
  - destruct (Z.compare_spec x y) as [E|L|G]; try discriminate.
    intros _. rewrite E. reflexivity.
  - intros H. apply Qmult_inj_r in H; [|apply ExactFacts.pow10_neq0].
    apply (proj1 (inject_Z_injective x y)) in H. rewrite H, Z.compare_refl. reflexivity.
Qed.

(** ** The quantity check *)

Lemma decimal_error_not_mismatch e tkr : decimal_error e -> e <> QuantityMismatch tkr.
Proof. intros [s ->]. discriminate. Qed.

Lemma not_decimal_mismatch tkr : ~ decimal_error (QuantityMismatch tkr).
Proof. intros [s H]. discriminate. Qed.

Ltac err_step H :=
  apply bind_Err in H;
  destruct H as [H|(?a & _ & H)].

Lemma transition_not_mismatch hidx t qty fills_here p e tkr :
  ApplyTrades.transition hidx t qty fills_here p = Err e -> e <> QuantityMismatch tkr.
Proof.
  unfold ApplyTrades.transition. intros H.
  destruct (String.eqb (ApplyTrades.t_action t) "buy").
  - destruct (Dict.get String.eqb (ApplyTrades.t_ticker t) hidx) as [r|].
    + destruct (existsb _ fills_here); [injection H as <-; discriminate|].
      err_step H; [exact (decimal_error_not_mismatch _ _ (add_error _ _ _ H))|].
      err_step H; [exact (decimal_error_not_mismatch _ _ (mul_error _ _ _ H))|].
      err_step H; [exact (decimal_error_not_mismatch _ _ (mul_error _ _ _ H))|].
      err_step H; [exact (decimal_error_not_mismatch _ _ (add_error _ _ _ H))|].
      err_step H; [exact (decimal_error_not_mismatch _ _ (div_error _ _ _ H))|].
      err_step H; [exact (decimal_error_not_mismatch _ _ (round_shares_error _ _ H))|].
      err_step H; [exact (decimal_error_not_mismatch _ _ (round_price_error _ _ H))|].
      discriminate.
    + destruct fills_here as [|f0 ?]; [injection H as <-; discriminate|].
      err_step H; [exact (decimal_error_not_mismatch _ _ (round_shares_error _ _ H))|].
      err_step H; [exact (decimal_error_not_mismatch _ _ (round_price_error _ _ H))|].
      discriminate.
  - destruct (Dict.get String.eqb (ApplyTrades.t_ticker t) hidx) as [r|];
      [|injection H as <-; discriminate].
    destruct (Dec.gtb qty (shares r)); [injection H as <-; discriminate|].
    err_step H; [exact (decimal_error_not_mismatch _ _ (sub_error _ _ _ H))|].
    err_step H; [exact (decimal_error_not_mismatch _ _ (round_shares_error _ _ H))|].
    destruct (Dec.is_zero a0); discriminate.
Qed.

(** C4, as the code has it.  For a trade with at least one matching fill,
    when the matching fills' quantities are non-negative with at most 15
    fractional digits and add up to less than ten million, the trade fails
    with the quantity-mismatch error exactly when their exact sum differs
    from the trade's quantity (any decimal, compared by value). *)
Theorem C4_quantity_mismatch_iff_sums_differ :
  forall fidx hidx t,
    let fills_here :=
      ApplyTrades.fills_for fidx (ApplyTrades.t_action t) (ApplyTrades.t_ticker t) in
    fills_here <> [] ->
    Forall (fun f => Exact.within 15 (ApplyTrades.f_qty f)) fills_here ->
    sum_units ApplyTrades.f_qty fills_here < 10 ^ 22 ->
    (ApplyTrades.apply_equity_trade fidx hidx t
     = Err (QuantityMismatch (ApplyTrades.t_ticker t))
     <-> ~ (Exact.exact_sum (map ApplyTrades.f_qty fills_here)
            == Exact.value (ApplyTrades.t_qty t))%Q).
Proof.
  intros fidx hidx t fills_here Hne Hw Hs.
  destruct (dec_sum_units ApplyTrades.f_qty fills_here Hw Hs) as (total & Ht & Wt & Ut).
  assert (Hv : (Exact.value total
                == Exact.exact_sum (map ApplyTrades.f_qty fills_here))%Q).
  { rewrite (exact_sum_units _ _ Hw), <- Ut.
    apply UnitFacts.value_units. apply Wt. }
  unfold ApplyTrades.apply_equity_trade, ApplyTrades.reconcile.
  rewrite TextFacts.D_id. cbn [bind]. fold fills_here.
  destruct fills_here as [|f0 fs] eqn:Ef; [congruence|].
  rewrite Ht. cbn [bind].
  destruct (Dec.eqb total (ApplyTrades.t_qty t)) eqn:E; cbn [negb].
  - apply eqb_value in E. split.
    + intros H. exfalso.
      err_step H.
      * err_step H.
        -- apply (not_decimal_mismatch (ApplyTrades.t_ticker t)).
           eapply dec_sum_error; [|exact H]. intros f e. apply mul_error.
        -- err_step H; [|discriminate].
           apply (not_decimal_mismatch (ApplyTrades.t_ticker t)).
           eapply div_error. exact H.
      * destruct a as [[q fh] p].
        exact (transition_not_mismatch _ _ _ _ _ _ (ApplyTrades.t_ticker t) H eq_refl).
    + intros H. exfalso. apply H. rewrite <- Hv. exact E.
  - split; [|reflexivity].
    intros _ H. rewrite <- Hv in H. apply eqb_value in H. congruence.
Qed.

(** The spec's example: a trade of 10 against a fill of 9.999999. *)
Lemma C4_quantity_mismatch_iff_sums_differ_witness :
  ApplyTrades.apply_equity_trade
    (ApplyTrades.group_fills
       (fun f => (ApplyTrades.f_action f, ApplyTrades.f_ticker f))
       [ApplyTrades.mkfill "buy" "AAA" (Dec.mkdec false 9999999 (-6)) (Dec.mkdec false 100 0) "USD"])
    []
    (ApplyTrades.mktrade "buy" "AAA" (Dec.mkdec false 10 0))
  = Err (QuantityMismatch "AAA").
Proof.
  apply (proj2 (C4_quantity_mismatch_iff_sums_differ
           (ApplyTrades.group_fills
              (fun f => (ApplyTrades.f_action f, ApplyTrades.f_ticker f))
              [ApplyTrades.mkfill "buy" "AAA" (Dec.mkdec false 9999999 (-6)) (Dec.mkdec false 100 0) "USD"])
           []
           (ApplyTrades.mktrade "buy" "AAA" (Dec.mkdec false 10 0))
           ltac:(discriminate)
           ltac:(repeat constructor; vm_compute; try reflexivity; discriminate)
           ltac:(vm_compute; reflexivity))).
  vm_compute. discriminate.
Defined.

(** Where the claim fails: a fill of 10.0000000000000000000000000001 (30
    digits) is rounded to 28 digits when it is summed, so it passes for a
    trade of 10 although the sums differ; and a trade and a fill of the same
    30-digit quantity are reported as a mismatch although they are equal. *)
Lemma C4_counterexample :
  Dec.eqb (Dec.mkdec false 100000000000000000000000000001 (-28)) (Dec.mkdec false 10 0)
  = false
  /\ ApplyTrades.apply_equity []
       [ApplyTrades.mktrade "buy" "AAA" (Dec.mkdec false 10 0)]
       [ApplyTrades.mkfill "buy" "AAA"
          (Dec.mkdec false 100000000000000000000000000001 (-28))
          (Dec.mkdec false 100 0) "USD"]
     = Ok [mkrow "AAA" (Dec.mkdec false 10000000 (-6)) (Dec.mkdec false 1000000 (-4)) "USD"]
  /\ ApplyTrades.apply_equity []
       [ApplyTrades.mktrade "buy" "AAA"
          (Dec.mkdec false 100000000000000000000000000001 (-28))]
       [ApplyTrades.mkfill "buy" "AAA"
          (Dec.mkdec false 100000000000000000000000000001 (-28))
          (Dec.mkdec false 100 0) "USD"]
     = Err (QuantityMismatch "AAA").
Proof. repeat split; vm_compute; reflexivity. Qed.

(** ** Division: how far the rounded quotient is from the exact one *)

Module DivFacts.
Import Dec DecFacts ArithFacts.
Import Notions.

Lemma strip_to_spec fuel : forall c e ideal c' e',
  strip_to fuel c e ideal = (c', e') ->
  exists s, 0 <= s /\ e' = e + s /\ c = c' * 10 ^ s.
Proof.
  induction fuel as [|fuel IH]; intros c e ideal c' e' H; cbn [strip_to] in H.
  - injection H as <- <-. exists 0. change (10 ^ 0) with 1. lia.
  - destruct ((e <? ideal) && (c mod 10 =? 0)) eqn:E.
    + apply andb_true_iff in E. destruct E as [_ E]. apply Z.eqb_eq in E.
      destruct (IH _ _ _ _ _ H) as (s & Hs & He & Hc).
      exists (s + 1). split; [lia|]. split; [lia|].
      rewrite pow10_succ by lia.
      pose proof (Z.div_mod c 10 ltac:(lia)). lia.
    + injection H as <- <-. exists 0. change (10 ^ 0) with 1. lia.
Qed.

(** Rounding half-even to a multiple of 10 or 100 moves a number by at
    most one half of that. *)
Lemma half_even_bound k c :
  k = 1 \/ k = 2 -> 0 <= c ->
  - (10 ^ k / 2) <= round_half_even c k * 10 ^ k - c <= 10 ^ k / 2.
Proof.
  intros Hk Hc. unfold round_half_even.
  destruct Hk as [-> | ->].
  - change (10 ^ 1) with 10. change (10 / 2) with 5.
    destruct ((2 * (c mod 10) >? 10) || ((2 * (c mod 10) =? 10) && Z.odd (c / 10))) eqn:E.
    + apply orb_true_iff in E. destruct E as [E|E].
      * apply Z.gtb_lt in E. Z.div_mod_to_equations; lia.
      * apply andb_true_iff in E. destruct E as [E _]. apply Z.eqb_eq in E. Z.div_mod_to_equations; lia.
    + apply orb_false_iff in E. destruct E as [E _]. rewrite Z.gtb_ltb in E.
      apply Z.ltb_ge in E. Z.div_mod_to_equations; lia.
  - change (10 ^ 2) with 100. change (100 / 2) with 50.
    destruct ((2 * (c mod 100) >? 100) || ((2 * (c mod 100) =? 100) && Z.odd (c / 100))) eqn:E.
    + apply orb_true_iff in E. destruct E as [E|E].
      * apply Z.gtb_lt in E. Z.div_mod_to_equations; lia.
      * apply andb_true_iff in E. destruct E as [E _]. apply Z.eqb_eq in E. Z.div_mod_to_equations; lia.
    + apply orb_false_iff in E. destruct E as [E _]. rewrite Z.gtb_ltb in E.
      apply Z.ltb_ge in E. Z.div_mod_to_equations; lia.
Qed.

(** With the sticky digit of an inexact division the rounded value is
    strictly less than one half above the quotient. *)
Lemma sticky_bound k q :
  k = 1 \/ k = 2 -> 0 <= q ->
  let c := if q mod 5 =? 0 then q + 1 else q in
  1 - 10 ^ k / 2 <= round_half_even c k * 10 ^ k - q <= 10 ^ k / 2.
Proof.
  intros Hk Hq c. pose proof (half_even_bound k c Hk) as Hb.
  unfold round_half_even in *. subst c.
  destruct Hk as [-> | ->].
  - change (10 ^ 1) with 10 in *. change (10 / 2) with 5 in *.
    destruct (Z.eqb_spec (q mod 5) 0) as [E5|N5].
    + specialize (Hb ltac:(lia)).
      destruct ((2 * ((q + 1) mod 10) >? 10)
                || ((2 * ((q + 1) mod 10) =? 10) && Z.odd ((q + 1) / 10))) eqn:E.
      * apply orb_true_iff in E. destruct E as [E|E].
        -- apply Z.gtb_lt in E. Z.div_mod_to_equations; lia.
        -- apply andb_true_iff in E. destruct E as [E _]. apply Z.eqb_eq in E. Z.div_mod_to_equations; lia.
      * apply orb_false_iff in E. destruct E as [E _]. rewrite Z.gtb_ltb in E.
        apply Z.ltb_ge in E. Z.div_mod_to_equations; lia.
    + specialize (Hb Hq).
      destruct ((2 * (q mod 10) >? 10)
                || ((2 * (q mod 10) =? 10) && Z.odd (q / 10))) eqn:E.
      * apply orb_true_iff in E. destruct E as [E|E].
        -- apply Z.gtb_lt in E. Z.div_mod_to_equations; lia.
        -- apply andb_true_iff in E. destruct E as [E _]. apply Z.eqb_eq in E. Z.div_mod_to_equations; lia.
      * apply orb_false_iff in E. destruct E as [E _]. rewrite Z.gtb_ltb in E.
        apply Z.ltb_ge in E. Z.div_mod_to_equations; lia.
  - change (10 ^ 2) with 100 in *. change (100 / 2) with 50 in *.
    destruct (Z.eqb_spec (q mod 5) 0) as [E5|N5].
    + specialize (Hb ltac:(lia)).
      destruct ((2 * ((q + 1) mod 100) >? 100)
                || ((2 * ((q + 1) mod 100) =? 100) && Z.odd ((q + 1) / 100))) eqn:E.
      * apply orb_true_iff in E. destruct E as [E|E].
        -- apply Z.gtb_lt in E. Z.div_mod_to_equations; lia.
        -- apply andb_true_iff in E. destruct E as [E _]. apply Z.eqb_eq in E. Z.div_mod_to_equations; lia.
      * apply orb_false_iff in E. destruct E as [E _]. rewrite Z.gtb_ltb in E.
        apply Z.ltb_ge in E. Z.div_mod_to_equations; lia.
    + specialize (Hb Hq).
      destruct ((2 * (q mod 100) >? 100)
                || ((2 * (q mod 100) =? 100) && Z.odd (q / 100))) eqn:E.
      * apply orb_true_iff in E. destruct E as [E|E].
        -- apply Z.gtb_lt in E. Z.div_mod_to_equations; lia.
        -- apply andb_true_iff in E. destruct E as [E _]. apply Z.eqb_eq in E. Z.div_mod_to_equations; lia.
      * apply orb_false_iff in E. destruct E as [E _]. rewrite Z.gtb_ltb in E.
        apply Z.ltb_ge in E. Z.div_mod_to_equations; lia.
Qed.

Lemma round_half_even_le c k :
  0 <= c -> 0 <= k -> round_half_even c k <= c / 10 ^ k + 1.
Proof.
  intros Hc Hk. unfold round_half_even.
  destruct ((2 * (c mod 10 ^ k) >? 10 ^ k)
            || ((2 * (c mod 10 ^ k) =? 10 ^ k) && Z.odd (c / 10 ^ k))); lia.
Qed.

Lemma round_half_even_ge c k :
  0 <= c -> 0 <= k -> c / 10 ^ k <= round_half_even c k.
Proof.
  intros Hc Hk. unfold round_half_even.
  destruct ((2 * (c mod 10 ^ k) >? 10 ^ k)
            || ((2 * (c mod 10 ^ k) =? 10 ^ k) && Z.odd (c / 10 ^ k))); lia.
Qed.

(** [_fix] on a coefficient of 29 or 30 digits: one or two digits are
    rounded away, half-even. *)
Lemma fix_round c e :
  10 ^ 28 <= c < 10 ^ 30 -> -10000 <= e <= 10000 ->
  let k := ndigits c - 28 in
  (k = 1 \/ k = 2)
  /\ exists y, fix_ (triple false c e) = Ok y
       /\ dsign y = false
       /\ coeff y < 10 ^ 28
       /\ e + k <= dexp y <= e + k + 1
       /\ coeff y * 10 ^ (dexp y - e) = round_half_even c k * 10 ^ k.
Proof.
  intros Hc He k.
  assert (Hc0 : 0 < c) by (pose proof (pow10_gt0 28); lia).
  destruct (ndigits_spec c Hc0) as (L1 & L2 & L3).
  assert (Hk : k = 1 \/ k = 2).
  { subst k.
    assert (29 <= ndigits c) by (apply (ndigits_ge c 28); lia).
    assert (ndigits c <= 30) by (apply ndigits_le; lia).
    lia. }
  split; [exact Hk|].
  unfold fix_. rewrite coeff_triple by lia. cbn [dexp dsign triple].
  destruct (Z.eqb_spec c 0); [lia|].
  unfold Etop, Etiny, Emax, Emin, prec.
  destruct (Z.gtb_spec (ndigits c + e - 28) (999999 - 28 + 1)); [lia|].
  destruct (Z.ltb_spec (ndigits c + e - 28) (-999999 - 28 + 1)); [lia|].
  destruct (Z.ltb_spec e (ndigits c + e - 28)); [|lia].
  replace (ndigits c + e - 28 - e) with k by (subst k; lia).
  set (c' := round_half_even c k).
  assert (Hpk : 0 < 10 ^ k) by (apply pow10_gt0; lia).
  assert (Hq : c / 10 ^ k < 10 ^ 28).
  { apply Z.div_lt_upper_bound; [lia|].
    rewrite <- pow10_split by lia. replace (k + 28) with (ndigits c) by (subst k; lia).
    exact L3. }
  assert (Hc'0 : 0 <= c').
  { pose proof (round_half_even_ge c k ltac:(lia) ltac:(lia)).
    pose proof (Z.div_pos c (10 ^ k) ltac:(lia) Hpk). subst c'. lia. }
  assert (Hc'1 : c' <= 10 ^ 28).
  { pose proof (round_half_even_le c k ltac:(lia) ltac:(lia)). subst c'. lia. }
  destruct (Z.gtb_spec (ndigits c') 28) as [G|G].
  - (* the carry made a 29th digit *)
    assert (E' : c' = 10 ^ 28).
    { destruct (Z.eq_dec c' (10 ^ 28)) as [E'|N']; [exact E'|].
      pose proof (ndigits_le c' 28 ltac:(lia) ltac:(lia)). lia. }
    destruct (Z.gtb_spec (ndigits c + e - 28 + 1) (999999 - 28 + 1)); [lia|].
    exists (triple false (c' / 10) (ndigits c + e - 28 + 1)).
    assert (Hd : c' / 10 = 10 ^ 27) by (rewrite E'; reflexivity).
    split; [reflexivity|]. split; [reflexivity|].
    rewrite coeff_triple by (rewrite Hd; apply Z.lt_le_incl, pow10_gt0; lia).
    cbn [dexp triple].
    split; [rewrite Hd; reflexivity|]. split; [subst k; lia|].
    replace (ndigits c + e - 28 + 1 - e) with (k + 1) by (subst k; lia).
    rewrite Hd, E', pow10_succ by lia. change (10 ^ 28) with (10 * 10 ^ 27). lia.
  - destruct (Z.gtb_spec (ndigits c + e - 28) (999999 - 28 + 1)); [lia|].
    exists (triple false c' (ndigits c + e - 28)).
    split; [reflexivity|]. split; [reflexivity|].
    rewrite coeff_triple by lia. cbn [dexp triple].
    assert (c' < 10 ^ 28).
    { destruct (Z.eq_dec c' 0) as [->|N0]; [reflexivity|].
      destruct (ndigits_spec c' ltac:(lia)) as (M1 & M2 & M3).
      pose proof (pow10_le (ndigits c') 28 ltac:(lia)). lia. }
    split; [assumption|]. split; [subst k; lia|].
    replace (ndigits c + e - 28 - e) with k by (subst k; lia). reflexivity.
Qed.

(** The quotient that [__truediv__] computes has 29 or 30 digits. *)
Lemma quotient_digits n m :
  0 < n -> 0 < m ->
  let shift := ndigits m - ndigits n + 29 in
  0 <= shift ->
  10 ^ 28 <= n * 10 ^ shift / m < 10 ^ 30.
Proof.
  intros Hn Hm shift Hs.
  destruct (ndigits_spec n Hn) as (N1 & N2 & N3).
  destruct (ndigits_spec m Hm) as (M1 & M2 & M3).
  pose proof (pow10_gt0 shift Hs) as Hp.
  split.
  - apply Z.div_le_lower_bound; [lia|].
    assert (10 ^ (ndigits n - 1) * 10 ^ shift <= n * 10 ^ shift)
      by (apply Z.mul_le_mono_nonneg_r; lia).
    rewrite <- pow10_split in H by lia.
    replace (ndigits n - 1 + shift) with (ndigits m + 28) in H by (subst shift; lia).
    rewrite pow10_split in H by lia.
    pose proof (pow10_gt0 28 ltac:(lia)).
    assert (m * 10 ^ 28 <= 10 ^ ndigits m * 10 ^ 28)
      by (apply Z.mul_le_mono_nonneg_r; lia).
    lia.
  - apply Z.div_lt_upper_bound; [lia|].
    assert (n * 10 ^ shift < 10 ^ ndigits n * 10 ^ shift)
      by (apply Z.mul_lt_mono_pos_r; lia).
    rewrite <- pow10_split in H by lia.
    replace (ndigits n + shift) with ((ndigits m - 1) + 30) in H by (subst shift; lia).
    rewrite pow10_split in H by lia.
    pose proof (pow10_gt0 30 ltac:(lia)).
    assert (10 ^ (ndigits m - 1) * 10 ^ 30 <= m * 10 ^ 30)
      by (apply Z.mul_le_mono_nonneg_r; lia).
    lia.
Qed.

(** The quotient [N / M] of two positive decimals, counted in units of
    [10^e] where [e] is the exponent of the unrounded quotient: a multiple
    of [10^k], [k <= 2], at most half of [10^k] away from the exact
    quotient. *)
Lemma div_rounded N M :
  dsign N = false -> dsign M = false ->
  0 < coeff N -> 0 < coeff M < 10 ^ 28 ->
  ndigits (coeff N) <= 27 ->
  -100 <= dexp N <= 100 -> -100 <= dexp M <= 100 ->
  let shift := ndigits (coeff M) - ndigits (coeff N) + 29 in
  let e := dexp N - dexp M - shift in
  exists y k Y',
    div N M = Ok y
    /\ dsign y = false
    /\ e <= dexp y <= e + 32
    /\ 0 <= k <= 2
    /\ coeff y * 10 ^ (dexp y - e) = Y' * 10 ^ k
    /\ - (10 ^ k * coeff M)
       <= 2 * (Y' * 10 ^ k * coeff M - coeff N * 10 ^ shift)
       <= 10 ^ k * coeff M.
Proof.
  intros SN SM Hn Hm Ln EN EM shift e.
  set (n := coeff N) in *. set (m := coeff M) in *.
  pose proof (ndigits_pos m) as Lm1.
  assert (Lm2 : ndigits m <= 28) by (apply ndigits_le; lia).
  pose proof (ndigits_pos n) as Ln1.
  assert (Hs : 3 <= shift <= 57) by (subst shift; lia).
  pose proof (quotient_digits n m Hn (proj1 Hm)) as Hq. cbv zeta in Hq.
  fold shift in Hq. specialize (Hq ltac:(lia)).
  unfold div. rewrite SN, SM. cbn [xorb]. unfold is_zero. fold n m.
  destruct (Z.eqb_spec m 0); [lia|]. destruct (Z.eqb_spec n 0); [lia|].
  cbv zeta. unfold prec.
  replace (ndigits m - ndigits n + 28 + 1) with shift by (subst shift; lia).
  destruct (Z.geb_spec shift 0); [|lia].
  fold e.
  set (num := n * 10 ^ shift) in *.
  pose proof (Z.div_mod num m ltac:(lia)) as Hdm.
  pose proof (Z.mod_pos_bound num m ltac:(lia)) as Hr.
  set (q := num / m) in *. set (r := num mod m) in *.
  destruct (Z.eqb_spec r 0) as [R0|R1].
  - destruct (strip_to (Z.to_nat shift) q e (dexp N - dexp M)) as [c e'] eqn:St.
    apply strip_to_spec in St. destruct St as (s & Hs0 & He' & Hc).
    pose proof (pow10_gt0 s Hs0) as Hps.
    assert (Hc0 : 0 < c) by nia.
    assert (Hcq : c <= q) by nia.
    assert (Hs30 : s < 30).
    { destruct (Z.lt_ge_cases s 30); [assumption|].
      pose proof (pow10_le 30 s ltac:(lia)). nia. }
    destruct (Z.lt_ge_cases c (10 ^ 28)) as [Small|Big].
    + exists (triple false c e'), 0, q.
      split.
      { apply fix_in_context, in_context_triple; [lia|].
        rewrite Etiny_val, Etop_val. subst e e'. lia. }
      split; [reflexivity|].
      rewrite coeff_triple by lia. cbn [dexp triple].
      split; [lia|]. split; [lia|].
      split.
      { replace (e' - e) with s by lia. change (10 ^ 0) with 1. lia. }
      change (10 ^ 0) with 1. lia.
    + destruct (fix_round c e' ltac:(lia) ltac:(subst e e'; lia)) as (Hk & y & Hy & Sy & Cy & Ey & Yy).
      set (k0 := ndigits c - 28) in *.
      assert (Hc29 : 10 ^ (27 + k0) <= c).
      { destruct (ndigits_spec c Hc0) as (_ & L & _).
        replace (27 + k0) with (ndigits c - 1) by (subst k0; lia). exact L. }
      assert (Hks : k0 + s <= 2).
      { destruct (Z.le_gt_cases (k0 + s) 2); [assumption|].
        pose proof (pow10_le 30 (27 + k0 + s) ltac:(lia)) as Hle.
        rewrite (pow10_split (27 + k0) s) in Hle by lia.
        assert (10 ^ (27 + k0) * 10 ^ s <= c * 10 ^ s)
          by (apply Z.mul_le_mono_nonneg_r; lia).
        lia. }
      exists y, (k0 + s), (round_half_even c k0).
      split; [exact Hy|]. split; [exact Sy|].
      split; [lia|]. split; [lia|].
      split.
      { replace (dexp y - e) with ((dexp y - e') + s) by lia.
        rewrite (pow10_split (dexp y - e') s) by lia.
        rewrite Z.mul_assoc, Yy.
        rewrite (pow10_split k0 s) by lia. ring. }
      pose proof (half_even_bound k0 c Hk ltac:(lia)) as Hb.
      rewrite (pow10_split k0 s) by lia.
      set (Y := round_half_even c k0 * 10 ^ k0) in *.
      assert (H2 : 2 * (10 ^ k0 / 2) = 10 ^ k0) by (destruct Hk as [-> | ->]; reflexivity).
      set (h := 10 ^ k0 / 2) in *.
      assert (Hnum : num = c * 10 ^ s * m) by lia.
      rewrite Hnum.
      replace (round_half_even c k0 * (10 ^ k0 * 10 ^ s) * m - c * 10 ^ s * m)
        with ((Y - c) * (10 ^ s * m)) by (subst Y; ring).
      rewrite <- H2.
      assert (0 <= 10 ^ s * m) by nia.
      set (P := 10 ^ s * m) in *.
      replace (2 * h * 10 ^ s * m) with (2 * h * P) by (subst P; ring).
      assert ((Y - c) * P <= h * P) by (apply Z.mul_le_mono_nonneg_r; lia).
      assert (- h * P <= (Y - c) * P) by (apply Z.mul_le_mono_nonneg_r; lia).
      lia.
  - set (c := if q mod 5 =? 0 then q + 1 else q).
    assert (Hc : 10 ^ 28 <= c < 10 ^ 30).
    { subst c. destruct (Z.eqb_spec (q mod 5) 0) as [E5|N5]; [|lia].
      split; [lia|].
      destruct (Z.eq_dec (q + 1) (10 ^ 30)) as [E|N']; [|lia].
      exfalso. assert (Eq : q = 10 ^ 30 - 1) by lia.
      rewrite Eq in E5. vm_compute in E5. discriminate. }
    destruct (fix_round c e ltac:(lia) ltac:(subst e; lia)) as (Hk & y & Hy & Sy & Cy & Ey & Yy).
    set (k0 := ndigits c - 28) in *.
    exists y, k0, (round_half_even c k0).
    split; [exact Hy|]. split; [exact Sy|].
    split; [lia|]. split; [lia|].
    split; [exact Yy|].
    pose proof (sticky_bound k0 q Hk ltac:(lia)) as Hb. cbv zeta in Hb. fold c in Hb.
    set (Y := round_half_even c k0 * 10 ^ k0) in *.
    assert (H2 : 2 * (10 ^ k0 / 2) = 10 ^ k0) by (destruct Hk as [-> | ->]; reflexivity).
    set (h := 10 ^ k0 / 2) in *.
    rewrite <- H2.
    assert ((Y - q) * m <= h * m) by (apply Z.mul_le_mono_nonneg_r; lia).
    assert ((1 - h) * m <= (Y - q) * m) by (apply Z.mul_le_mono_nonneg_r; lia).
    lia.
Qed.

Lemma half_pow10 t : 1 <= t -> 10 ^ t / 2 = 5 * 10 ^ (t - 1).
Proof.
  intros Ht. replace t with ((t - 1) + 1) at 1 by lia.
  rewrite pow10_succ by lia.
  replace (10 * 10 ^ (t - 1)) with (5 * 10 ^ (t - 1) * 2) by ring.
  apply Z.div_mul. lia.
Qed.

Lemma twice_half_pow10 t : 1 <= t -> 2 * (10 ^ t / 2) = 10 ^ t.
Proof.
  intros Ht. rewrite half_pow10 by assumption.
  replace t with ((t - 1) + 1) at 2 by lia.
  rewrite pow10_succ by lia. ring.
Qed.

(** The coefficient of [quantize(10^g)], read off the value of [y] in
    units of [10^e]. *)
Lemma qcoeff_units y e g :
  e <= dexp y -> e < g ->
  qcoeff y g
  = (coeff y * 10 ^ (dexp y - e) + 10 ^ (g - e) / 2) / (2 * (10 ^ (g - e) / 2)).
Proof.
  intros Hy Hg. rewrite twice_half_pow10 by lia.
  pose proof (coeff_nonneg y) as Hc.
  pose proof (twice_half_pow10 (g - e) ltac:(lia)) as H2.
  pose proof (pow10_gt0 (g - e) ltac:(lia)) as Hp.
  set (h := 10 ^ (g - e) / 2) in *.
  unfold qcoeff. destruct (Z.geb_spec (dexp y) g) as [G|L].
  - replace (dexp y - e) with ((dexp y - g) + (g - e)) by lia.
    rewrite pow10_split by lia. rewrite Z.mul_assoc.
    set (R := coeff y * 10 ^ (dexp y - g)).
    apply (Z.div_unique _ _ _ h); lia.
  - rewrite round_half_up_div by lia.
    pose proof (pow10_gt0 (dexp y - e) ltac:(lia)) as Hw.
    rewrite <- (Z.div_mul_cancel_r (2 * coeff y + 10 ^ (g - dexp y))
                  (2 * 10 ^ (g - dexp y)) (10 ^ (dexp y - e))) by lia.
    rewrite <- (Z.div_mul_cancel_l (coeff y * 10 ^ (dexp y - e) + h) (10 ^ (g - e)) 2) by lia.
    assert (E : 10 ^ (g - e) = 10 ^ (g - dexp y) * 10 ^ (dexp y - e)).
    { rewrite <- pow10_split by lia. f_equal. lia. }
    f_equal.
    + rewrite Z.mul_add_distr_l, H2, E. ring.
    + rewrite E. ring.
Qed.

(** No double rounding: a multiple [Y] of [10^k], [k <= 2], within half
    of [10^k] of the quotient [num / m] quantizes, at a quantum [10^t]
    far enough above, to the same number as the exact quotient does. *)
Lemma no_double_rounding Y' k n shift m t :
  0 <= k <= 2 -> 3 <= t -> 0 <= shift -> 0 < m -> 0 <= n ->
  100 * m <= 10 ^ (t - 1) -> 100 * m <= 10 ^ shift ->
  - (10 ^ k * m) <= 2 * (Y' * 10 ^ k * m - n * 10 ^ shift) <= 10 ^ k * m ->
  (Y' * 10 ^ k + 10 ^ t / 2) / (2 * (10 ^ t / 2))
  = (n * 10 ^ shift + 10 ^ t / 2 * m) / (2 * (10 ^ t / 2) * m).
Proof.
  intros Hk Ht Hs Hm Hn S1 S2 Herr.
  pose proof (twice_half_pow10 t ltac:(lia)) as H2.
  pose proof (half_pow10 t ltac:(lia)) as H5.
  pose proof (pow10_gt0 t ltac:(lia)) as Hpt.
  pose proof (pow10_gt0 k ltac:(lia)) as Hpk.
  pose proof (pow10_gt0 shift Hs) as Hps.
  pose proof (pow10_gt0 (t - 1) ltac:(lia)) as Hpt1.
  set (h := 10 ^ t / 2) in *.
  set (num := n * 10 ^ shift) in *.
  set (Y := Y' * 10 ^ k) in *.
  assert (Hh : 0 < h) by lia.
  assert (Hhm : 0 < 2 * h * m) by nia.
  pose proof (Z.div_mod (num + h * m) (2 * h * m) ltac:(lia)) as Hdm.
  pose proof (Z.mod_pos_bound (num + h * m) (2 * h * m) Hhm) as Hr.
  set (T := (num + h * m) / (2 * h * m)) in *.
  set (r := (num + h * m) mod (2 * h * m)) in *.
  (* [h] is a multiple of [10^k] *)
  assert (Hhk : exists h', h = h' * 10 ^ k).
  { exists (5 * 10 ^ (t - 1 - k)). rewrite H5.
    replace (t - 1) with ((t - 1 - k) + k) at 1 by lia.
    rewrite pow10_split by lia. ring. }
  destruct Hhk as (h' & Hh').
  assert (Hkm : 0 < 10 ^ k * m) by nia.
  assert (Hk100 : 10 ^ k <= 100).
  { pose proof (pow10_le k 2 ltac:(lia)). change (10 ^ 2) with 100 in *. lia. }
  assert (Hkm100 : 10 ^ k * m <= 100 * m) by (apply Z.mul_le_mono_nonneg_r; lia).
  assert (Lo : 2 * h * T <= Y + h).
  { destruct (Z.le_gt_cases (2 * h * T) (Y + h)) as [|Bad]; [assumption|exfalso].
    (* Y < (2T - 1) h, both multiples of 10^k *)
    assert (B1 : Y' < (2 * T - 1) * h').
    { apply (Z.mul_lt_mono_pos_r (10 ^ k)); [exact Hpk|].
      fold Y. rewrite <- Z.mul_assoc, <- Hh'. lia. }
    assert (B2 : Y + 10 ^ k <= (2 * T - 1) * h).
    { assert (Y' + 1 <= (2 * T - 1) * h') by lia.
      assert ((Y' + 1) * 10 ^ k <= (2 * T - 1) * h' * 10 ^ k)
        by (apply Z.mul_le_mono_nonneg_r; lia).
      rewrite <- Z.mul_assoc, <- Hh' in H0. subst Y. lia. }
    assert (B3 : (Y + 10 ^ k) * m <= (2 * T - 1) * h * m)
      by (apply Z.mul_le_mono_nonneg_r; lia).
    lia. }
  assert (Hi : Y + h < 2 * h * (T + 1)).
  { destruct (Z.lt_ge_cases (Y + h) (2 * h * (T + 1))) as [|Bad]; [assumption|exfalso].
    (* Y >= (2T + 1) h =: b, and b m - num is a positive multiple of a
       power of ten above 50 m *)
    assert (B1 : (2 * T + 1) * h * m <= Y * m)
      by (apply Z.mul_le_mono_nonneg_r; lia).
    assert (B2 : 0 < (2 * T + 1) * h * m - num) by lia.
    assert (B3 : 100 * m <= (2 * T + 1) * h * m - num).
    { destruct (Z.le_gt_cases (t - 1) shift) as [C|C].
      - assert (E : (2 * T + 1) * h * m - num
                    = ((2 * T + 1) * 5 * m - n * 10 ^ (shift - (t - 1))) * 10 ^ (t - 1)).
        { subst num. rewrite H5.
          replace shift with ((shift - (t - 1)) + (t - 1)) at 1 by lia.
          rewrite pow10_split by lia. ring. }
        rewrite E in *.
        set (z := (2 * T + 1) * 5 * m - n * 10 ^ (shift - (t - 1))) in *.
        assert (1 <= z) by nia.
        assert (1 * 10 ^ (t - 1) <= z * 10 ^ (t - 1))
          by (apply Z.mul_le_mono_nonneg_r; lia).
        lia.
      - assert (E : (2 * T + 1) * h * m - num
                    = ((2 * T + 1) * 5 * 10 ^ (t - 1 - shift) * m - n) * 10 ^ shift).
        { subst num. rewrite H5.
          replace (t - 1) with ((t - 1 - shift) + shift) at 1 by lia.
          rewrite pow10_split by lia. ring. }
        rewrite E in *.
        set (z := (2 * T + 1) * 5 * 10 ^ (t - 1 - shift) * m - n) in *.
        assert (1 <= z) by nia.
        assert (1 * 10 ^ shift <= z * 10 ^ shift)
          by (apply Z.mul_le_mono_nonneg_r; lia).
        lia. }
    lia. }
  assert (Hd1 : T <= (Y + h) / (2 * h)).
  { apply Z.div_le_lower_bound; lia. }
  assert (Hd2 : (Y + h) / (2 * h) < T + 1).
  { apply Z.div_lt_upper_bound; lia. }
  lia.
Qed.

(** The exact half-up quantization of a quotient of non-negative
    decimals, as an integer quotient. *)
Lemma half_up_quotient N M k shift t :
  dsign N = false -> dsign M = false -> 0 < coeff M ->
  0 <= shift -> 1 <= t ->
  dexp N + k + t = dexp M + shift ->
  Exact.half_up (Exact.value N / Exact.value M)%Q k
  = (coeff N * 10 ^ shift + 10 ^ t / 2 * coeff M) / (2 * (10 ^ t / 2) * coeff M).
Proof.
  intros SN SM Hm Hs Ht He.
  pose proof (twice_half_pow10 t Ht) as H2.
  pose proof (pow10_gt0 t ltac:(lia)) as Hpt.
  set (h := 10 ^ t / 2) in *.
  unfold Exact.half_up.
  rewrite (ExactFacts.Qfloor_half_frac _ (coeff N * 10 ^ shift) (coeff M * 10 ^ t)).
  - replace (2 * (coeff N * 10 ^ shift) + coeff M * 10 ^ t)
      with (2 * (coeff N * 10 ^ shift + h * coeff M)) by (rewrite <- H2; ring).
    replace (2 * (coeff M * 10 ^ t)) with (2 * (2 * h * coeff M)) by (rewrite <- H2; ring).
    apply Z.div_mul_cancel_l; nia.
  - nia.
  - unfold Exact.value, scoeff. rewrite SN, SM.
    rewrite !inject_Z_mult.
    rewrite <- (ExactFacts.pow10_Z shift), <- (ExactFacts.pow10_Z t) by lia.
    assert (K : (Exact.pow10 shift * Exact.pow10 (dexp M)
                 == Exact.pow10 (dexp N) * Exact.pow10 k * Exact.pow10 t)%Q).
    { rewrite <- !ExactFacts.pow10_add.
      replace (shift + dexp M) with (dexp N + k + t) by lia. reflexivity. }
    pose proof (ExactFacts.pow10_neq0 (dexp M)) as ZM.
    pose proof (ExactFacts.pow10_neq0 t) as ZT.
    assert (Zm : ~ (inject_Z (coeff M) == 0)%Q).
    { intros E. apply (Qeq_bool_neq (inject_Z (coeff M)) 0); [|exact E].
      unfold Qeq_bool, inject_Z. cbn. apply Z.eqb_neq. lia. }
    assert (K' : (Exact.pow10 shift
                  == Exact.pow10 (dexp N) * Exact.pow10 k * Exact.pow10 t / Exact.pow10 (dexp M))%Q).
    { rewrite <- K. field. exact ZM. }
    rewrite K'. field. repeat split; assumption.
Qed.

(** Division followed by [quantize] to four digits, for a numerator with
    at most 12 fractional digits below [10^15] and a positive denominator
    with at most 6: the result is the exact quotient, quantized once. *)
Lemma div_quantize N M :
  dsign N = false -> dsign M = false ->
  -12 <= dexp N <= 0 -> -6 <= dexp M <= 0 ->
  coeff N * 10 ^ (dexp N + 12) < 10 ^ 27 ->
  0 < coeff M < 10 ^ 28 ->
  exists y, div N M = Ok y
    /\ quantize_half_up y (-4) = Ok (Exact.quantized (Exact.value N / Exact.value M)%Q 4).
Proof.
  intros SN SM EN EM Hn Hm.
  pose proof (coeff_nonneg N) as Hn0.
  destruct (Z.eq_dec (coeff N) 0) as [Z0|NZ].
  - exists (mkdec false 0 (dexp N - dexp M)). split.
    + unfold div, is_zero. rewrite SN, SM, Z0. cbn [xorb].
      destruct (Z.eqb_spec (coeff M) 0); [lia|]. cbn [Z.eqb].
      apply fix_in_context. split; [reflexivity|].
      cbn [dexp]. rewrite Etiny_val, Etop_val. lia.
    + rewrite quantize_exact.
      * unfold Exact.quantized. cbn [dsign]. unfold triple. f_equal. f_equal.
        assert (E : Exact.half_up (Exact.value N / Exact.value M)%Q 4 = 0).
        { unfold Exact.half_up.
          transitivity (Qfloor (1 # 2)); [|reflexivity]. apply Qfloor_comp.
          unfold Exact.value, scoeff. rewrite SN, Z0.
          unfold Qdiv. ring. }
        rewrite E. f_equal. unfold qcoeff. cbn [dexp].
        change (coeff (mkdec false 0 (dexp N - dexp M))) with 0.
        destruct (Z.geb_spec (dexp N - dexp M) (-4)); [reflexivity|].
        apply round_half_up_0. lia.
      * lia.
      * cbn [dexp]. lia.
      * cbn [dexp coeff dint]. change (Z.of_N 0) with 0. rewrite Z.mul_0_l.
        apply pow10_gt0. lia.
  - assert (Hn1 : 0 < coeff N) by lia.
    set (n := coeff N) in *. set (m := coeff M) in *.
    destruct (ndigits_spec n Hn1) as (Ln1 & Ln2 & Ln3).
    destruct (ndigits_spec m (proj1 Hm)) as (Lm1 & Lm2 & Lm3).
    assert (Lm4 : ndigits m <= 28) by (apply ndigits_le; lia).
    pose proof (pow10_gt0 (dexp N + 12) ltac:(lia)) as Hp12.
    assert (Ln4 : ndigits n + dexp N <= 15).
    { destruct (Z.le_gt_cases (ndigits n + dexp N) 15); [assumption|exfalso].
      pose proof (pow10_le 27 ((ndigits n - 1) + (dexp N + 12)) ltac:(lia)) as Hle.
      rewrite pow10_split in Hle by lia.
      assert (10 ^ (ndigits n - 1) * 10 ^ (dexp N + 12) <= n * 10 ^ (dexp N + 12))
        by (apply Z.mul_le_mono_nonneg_r; lia).
      lia. }
    assert (Ln5 : ndigits n <= 27) by lia.
    destruct (div_rounded N M SN SM Hn1 Hm Ln5 ltac:(lia) ltac:(lia))
      as (y & k & Y' & Hy & Sy & Ey & Hk & HY & Herr).
    fold n m in Ey, HY, Herr.
    set (shift := ndigits m - ndigits n + 29) in *.
    set (e := dexp N - dexp M - shift) in *.
    set (t := -4 - e).
    assert (Et : t = -4 - e) by reflexivity.
    assert (Ht : ndigits m + 4 <= t) by (subst t e shift; lia).
    assert (Hs : ndigits m + 2 <= shift) by (subst shift; lia).
    pose proof (pow10_gt0 k ltac:(lia)) as Hpk.
    pose proof (pow10_gt0 shift ltac:(lia)) as Hps.
    assert (S1 : 100 * m <= 10 ^ (t - 1)).
    { pose proof (pow10_le (ndigits m + 2) (t - 1) ltac:(lia)) as Hle.
      rewrite pow10_split in Hle by lia. change (10 ^ 2) with 100 in Hle. lia. }
    assert (S2 : 100 * m <= 10 ^ shift).
    { pose proof (pow10_le (ndigits m + 2) shift ltac:(lia)) as Hle.
      rewrite pow10_split in Hle by lia. change (10 ^ 2) with 100 in Hle. lia. }
    exists y. split; [exact Hy|].
    rewrite quantize_exact.
    + unfold Exact.quantized. rewrite Sy. unfold triple. f_equal. f_equal.
      rewrite (qcoeff_units y e (-4)) by lia. fold t. rewrite HY.
      rewrite (no_double_rounding Y' k n shift m t) by (try assumption; lia).
      symmetry. f_equal.
      apply (half_up_quotient N M 4 shift t); try assumption; lia.
    + lia.
    + lia.
    + (* the quotient is below 10^31 units of 10^e *)
      pose proof (quotient_digits n m Hn1 (proj1 Hm)) as Hq. cbv zeta in Hq.
      fold shift in Hq. specialize (Hq ltac:(lia)).
      pose proof (Z.div_mod (n * 10 ^ shift) m ltac:(lia)) as Hdm.
      pose proof (Z.mod_pos_bound (n * 10 ^ shift) m ltac:(lia)) as Hr.
      set (q := n * 10 ^ shift / m) in *.
      assert (Hmq : m * q <= m * (10 ^ 30 - 1))
        by (apply Z.mul_le_mono_nonneg_l; lia).
      assert (Hk100 : 10 ^ k <= 100).
      { pose proof (pow10_le k 2 ltac:(lia)). change (10 ^ 2) with 100 in *. lia. }
      assert (Hkm : 10 ^ k * m <= 100 * m) by (apply Z.mul_le_mono_nonneg_r; lia).
      assert (HYm : Y' * 10 ^ k * m < (10 ^ 30 + 50) * m) by lia.
      apply Z.mul_lt_mono_pos_r in HYm; [|lia].
      replace (dexp y + 1000) with ((dexp y - e) + (e + 1000)) by lia.
      rewrite pow10_split by (subst e shift; lia).
      rewrite Z.mul_assoc, HY.
      pose proof (pow10_gt0 (e + 1000) ltac:(subst e shift; lia)) as Hpe.
      assert (Y' * 10 ^ k * 10 ^ (e + 1000) < 10 ^ 31 * 10 ^ (e + 1000)).
      { apply Z.mul_lt_mono_pos_r; [exact Hpe|].
        assert (10 ^ 30 + 50 < 10 ^ 31) by reflexivity. lia. }
      rewrite <- pow10_split in H by (subst e shift; lia).
      pose proof (pow10_le (31 + (e + 1000)) (27 + -4 + 1000) ltac:(subst t e shift; lia)).
      lia.
Qed.

End DivFacts.

(** ** Buying *)

Module BuyFacts.
Import Dec DecFacts ArithFacts Exact ExactFacts UnitFacts.
Import Notions.

(** The sum of two non-negative decimals with at most [f] fractional
    digits is exact as long as it fits the precision. *)
Lemma add_nonneg f a b :
  0 <= f <= 20 ->
  dsign a = false -> dsign b = false ->
  - f <= dexp a <= 0 -> - f <= dexp b <= 0 ->
  units f a + units f b < 10 ^ 27 ->
  exists c, add a b = Ok c
            /\ dsign c = false
            /\ - f <= dexp c <= 0
            /\ coeff c * 10 ^ (dexp c + f) = units f a + units f b
            /\ (value c == value a + value b)%Q.
Proof.
  intros Hf Sa Sb Ha Hb Hu.
  set (e := Z.min (dexp a) (dexp b)).
  set (s := scoeff a * 10 ^ (dexp a - e) + scoeff b * 10 ^ (dexp b - e)).
  assert (He : - f <= e <= 0) by (subst e; lia).
  assert (Hs : s * 10 ^ (e + f) = units f a + units f b).
  { subst s. rewrite Z.mul_add_distr_r, !units_align by lia. reflexivity. }
  pose proof (pow10_gt0 (e + f) ltac:(lia)) as Hp.
  assert (Ua : 0 <= units f a).
  { unfold units, scoeff. rewrite Sa. pose proof (coeff_nonneg a).
    pose proof (pow10_gt0 (dexp a + f) ltac:(lia)). nia. }
  assert (Ub : 0 <= units f b).
  { unfold units, scoeff. rewrite Sb. pose proof (coeff_nonneg b).
    pose proof (pow10_gt0 (dexp b + f) ltac:(lia)). nia. }
  assert (Hs0 : 0 <= s) by nia.
  assert (Hs1 : s < 10 ^ 28).
  { change (10 ^ 28) with (10 * 10 ^ 27). nia. }
  assert (Hadd : add a b = Ok (triple false s e)).
  { rewrite add_exact; fold e; fold s.
    - rewrite Z.abs_eq by lia. rewrite Sa. cbn [andb].
      destruct (Z.eqb_spec s 0); [reflexivity|].
      destruct (Z.ltb_spec s 0); [lia | reflexivity].
    - rewrite Z.abs_eq by lia. exact Hs1.
    - rewrite Etiny_val, Etop_val. lia. }
  assert (Hc : coeff (triple false s e) = s) by (apply coeff_triple; lia).
  exists (triple false s e).
  split; [exact Hadd|]. split; [reflexivity|]. split; [exact He|].
  split.
  - rewrite Hc. exact Hs.
  - apply (value_add_units f); cbn [dexp triple]; try lia.
    unfold units at 1, scoeff. cbn [dsign dexp triple]. rewrite Hc. exact Hs.
Qed.

(** The product of two non-negative decimals is exact as long as it fits
    the precision. *)
Lemma mul_nonneg f g a b :
  0 <= f <= 10 -> 0 <= g <= 10 ->
  dsign a = false -> dsign b = false ->
  - f <= dexp a <= 0 -> - g <= dexp b <= 0 ->
  units f a * units g b < 10 ^ 28 ->
  exists c, mul a b = Ok c
            /\ dsign c = false
            /\ - (f + g) <= dexp c <= 0
            /\ units (f + g) c = units f a * units g b
            /\ (value c == value a * value b)%Q.
Proof.
  intros Hf Hg Sa Sb Ha Hb Hu.
  pose proof (coeff_nonneg a) as Ca. pose proof (coeff_nonneg b) as Cb.
  pose proof (pow10_gt0 (dexp a + f) ltac:(lia)) as Pa.
  pose proof (pow10_gt0 (dexp b + g) ltac:(lia)) as Pb.
  assert (Ua : units f a = coeff a * 10 ^ (dexp a + f))
    by (unfold units, scoeff; rewrite Sa; reflexivity).
  assert (Ub : units g b = coeff b * 10 ^ (dexp b + g))
    by (unfold units, scoeff; rewrite Sb; reflexivity).
  assert (Hab : 0 <= coeff a * coeff b) by nia.
  assert (Hprod : units f a * units g b
                  = coeff a * coeff b * 10 ^ (dexp a + dexp b + (f + g))).
  { rewrite Ua, Ub.
    replace (dexp a + dexp b + (f + g)) with ((dexp a + f) + (dexp b + g)) by lia.
    rewrite (pow10_split (dexp a + f) (dexp b + g)) by lia. ring. }
  pose proof (pow10_gt0 (dexp a + dexp b + (f + g)) ltac:(lia)) as Pab.
  assert (Hlt : coeff a * coeff b < 10 ^ 28).
  { assert (coeff a * coeff b * 1
            <= coeff a * coeff b * 10 ^ (dexp a + dexp b + (f + g)))
      by (apply Z.mul_le_mono_nonneg_l; lia).
    lia. }
  exists (triple false (coeff a * coeff b) (dexp a + dexp b)).
  split.
  { rewrite mul_exact; [rewrite Sa, Sb; reflexivity | exact Hlt |].
    rewrite Etiny_val, Etop_val. lia. }
  split; [reflexivity|]. split; [cbn [dexp triple]; lia|].
  split.
  - unfold units at 1, scoeff. cbn [dsign dexp triple].
    rewrite coeff_triple by lia. symmetry. exact Hprod.
  - unfold value, scoeff. cbn [dsign dexp triple]. rewrite Sa, Sb.
    rewrite coeff_triple by lia. rewrite inject_Z_mult, pow10_add. ring.
Qed.

(** [quantize] of a non-negative decimal that leaves room in the
    precision is the exact half-up quantization of its value. *)
Lemma quantize_nonneg d k :
  0 <= k <= 6 -> dsign d = false -> -100 <= dexp d <= 0 ->
  coeff d * 10 ^ (dexp d + 100) < 10 ^ 120 ->
  quantize_half_up d (- k) = Ok (quantized (value d) k).
Proof.
  intros Hk Hs He Hc.
  rewrite quantize_exact; try lia.
  - unfold quantized. rewrite (half_up_value d k Hs), Hs. reflexivity.
  - replace (dexp d + 1000) with ((dexp d + 100) + 900) by lia.
    rewrite pow10_split by lia.
    assert (10 ^ 120 * 10 ^ 900 <= 10 ^ (27 + - k + 1000)).
    { rewrite <- pow10_split by lia. apply pow10_le. lia. }
    pose proof (pow10_gt0 900 ltac:(lia)). nia.
Qed.

End BuyFacts.

(** C1, as the code has it.  A reconciled buy of [q] at the effective
    unit price [p] on a held position of [q0 > 0] at [avg0], with fills in
    the position's currency, where the four numbers are non-negative,
    below ten million and have at most 6 fractional digits: the position
    keeps its ticker and currency, its quantity becomes [q0 + q] quantized
    to 6 digits half-up and its average cost
    [(q0 * avg0 + q * p) / (q0 + q)] quantized to 4 digits half-up, both
    quantizations applied to the exact values. *)
Theorem C1_buy_blends_weighted_average :
  forall fidx hidx t row q fills_here p,
    String.eqb (ApplyTrades.t_action t) "buy" = true ->
    Dict.get String.eqb (ApplyTrades.t_ticker t) hidx = Some row ->
    ApplyTrades.reconcile fidx t = Ok (q, fills_here, p) ->
    existsb (fun f => negb (String.eqb (ApplyTrades.f_currency f) (currency row)))
      fills_here = false ->
    Exact.modest (shares row) -> 0 < Dec.coeff (shares row) ->
    Exact.modest (avg_cost row) -> Exact.modest q -> Exact.modest p ->
    let q0 := Exact.value (shares row) in
    let avg0 := Exact.value (avg_cost row) in
    let vq := Exact.value q in
    let vp := Exact.value p in
    ApplyTrades.apply_equity_trade fidx hidx t
    = Ok (Dict.set String.eqb (ApplyTrades.t_ticker t)
            (mkrow (ticker row)
               (Exact.quantized (q0 + vq)%Q 6)
               (Exact.quantized ((q0 * avg0 + vq * vp) / (q0 + vq))%Q 4)
               (currency row))
            hidx).
Proof.
  intros fidx hidx t row q fills_here p Ha Hg Hr Hcur W0 Hpos Wa Wq Wp q0 avg0 vq vp.
  destruct (UnitFacts.within_units 6 _ W0) as [E0 U0].
  destruct (UnitFacts.within_units 6 _ Wa) as [Ea Ua].
  destruct (UnitFacts.within_units 6 _ Wq) as [Eq_ Uq].
  destruct (UnitFacts.within_units 6 _ Wp) as [Ep Up].
  destruct W0 as (S0 & X0 & C0). destruct Wa as (Sa & Xa & Ca).
  destruct Wq as (Sq & Xq & Cq). destruct Wp as (Sp & Xp & Cp).
  change (10 ^ (7 + 6)) with (10 ^ 13) in *.
  assert (P26 : 10 ^ 13 * 10 ^ 13 = 10 ^ 26) by reflexivity.
  assert (L27 : 2 * 10 ^ 26 < 10 ^ 27) by reflexivity.
  assert (L28 : 10 ^ 26 < 10 ^ 28) by reflexivity.
  assert (L13 : 2 * 10 ^ 13 < 10 ^ 27) by reflexivity.
  assert (H0a : Notions.units 6 (shares row) * Notions.units 6 (avg_cost row) < 10 ^ 26).
  { rewrite <- P26. apply Z.mul_lt_mono_nonneg; lia. }
  assert (Hqp : Notions.units 6 q * Notions.units 6 p < 10 ^ 26).
  { rewrite <- P26. apply Z.mul_lt_mono_nonneg; lia. }
  (* new_sh = row["shares"] + qty *)
  destruct (BuyFacts.add_nonneg 6 (shares row) q ltac:(lia) S0 Sq X0 Xq ltac:(lia))
    as (M & HM & SM & XM & UM & VM).
  (* row["shares"] * row["avg_cost"] and qty * avg_fill_price *)
  destruct (BuyFacts.mul_nonneg 6 6 (shares row) (avg_cost row)
              ltac:(lia) ltac:(lia) S0 Sa X0 Xa ltac:(lia))
    as (held & Hheld & Sh & Xh & Uh & Vh).
  destruct (BuyFacts.mul_nonneg 6 6 q p ltac:(lia) ltac:(lia) Sq Sp Xq Xp ltac:(lia))
    as (bought & Hbought & Sb & Xb & Ub & Vb).
  change (6 + 6) with 12 in *.
  destruct (BuyFacts.add_nonneg 12 held bought ltac:(lia) Sh Sb Xh Xb
              ltac:(rewrite Uh, Ub; lia))
    as (N & HN & SN & XN & UN & VN).
  (* the division and the two quantizations *)
  assert (HpM : 0 < 10 ^ (Dec.dexp M + 6)) by (apply DecFacts.pow10_gt0; lia).
  assert (Hu0 : 0 < Notions.units 6 (shares row)).
  { rewrite E0. apply Z.mul_pos_pos; [exact Hpos|]. apply DecFacts.pow10_gt0. lia. }
  pose proof (DecFacts.coeff_nonneg M) as HM0.
  assert (HM1 : 0 < Dec.coeff M) by nia.
  assert (HM2 : Dec.coeff M < 2 * 10 ^ 13).
  { assert (Dec.coeff M * 1 <= Dec.coeff M * 10 ^ (Dec.dexp M + 6))
      by (apply Z.mul_le_mono_nonneg_l; lia).
    lia. }
  assert (L2813 : 2 * 10 ^ 13 < 10 ^ 28) by reflexivity.
  destruct (DivFacts.div_quantize N M SN SM XN XM
              ltac:(rewrite UN, Uh, Ub; lia) ltac:(lia))
    as (y & Hy & Hqy).
  assert (Hsh : ApplyTrades.round_shares M = Ok (Exact.quantized (q0 + vq)%Q 6)).
  { unfold ApplyTrades.round_shares. rewrite TextFacts.D_id. cbn [bind].
    pose proof (BuyFacts.quantize_nonneg M 6 ltac:(lia) SM ltac:(lia)) as Hq.
    cbn [Z.opp] in Hq. rewrite Hq.
    - f_equal. apply quantized_comp. exact VM.
    - replace (Dec.dexp M + 100) with ((Dec.dexp M + 6) + 94) by lia.
      rewrite DecFacts.pow10_split by lia. rewrite Z.mul_assoc, UM.
      assert (L120 : 2 * 10 ^ 13 * 10 ^ 94 < 10 ^ 120) by reflexivity.
      pose proof (DecFacts.pow10_gt0 94 ltac:(lia)).
      assert ((Notions.units 6 (shares row) + Notions.units 6 q) * 10 ^ 94
              <= 2 * 10 ^ 13 * 10 ^ 94)
        by (apply Z.mul_le_mono_nonneg_r; lia).
      lia. }
  assert (Hac : ApplyTrades.round_price y
                = Ok (Exact.quantized ((q0 * avg0 + vq * vp) / (q0 + vq))%Q 4)).
  { unfold ApplyTrades.round_price. rewrite TextFacts.D_id. cbn [bind].
    rewrite Hqy. f_equal. apply quantized_comp.
    rewrite VN, Vh, Vb, VM. reflexivity. }
  unfold ApplyTrades.apply_equity_trade. rewrite Hr. cbn [bind].
  unfold ApplyTrades.transition. rewrite Ha, Hg, Hcur.
  rewrite HM. cbn [bind]. rewrite Hheld. cbn [bind]. rewrite Hbought. cbn [bind].
  rewrite HN. cbn [bind]. rewrite Hy. cbn [bind]. rewrite Hsh. cbn [bind].
  rewrite Hac. cbn [bind]. reflexivity.
Qed.

(** The spec's scenario: 10.000000 AAA at 100.0000, then a buy of 5
    filled at 110.0000, gives 15.000000 at 103.3333. *)
Lemma C1_buy_blends_weighted_average_witness :
  ApplyTrades.apply_equity_trade
    (ApplyTrades.group_fills
       (fun f => (ApplyTrades.f_action f, ApplyTrades.f_ticker f))
       [ApplyTrades.mkfill "buy" "AAA" (Dec.mkdec false 5 0)
          (Dec.mkdec false 1100000 (-4)) "USD"])
    [("AAA"%string,
      mkrow "AAA" (Dec.mkdec false 10000000 (-6)) (Dec.mkdec false 1000000 (-4)) "USD")]
    (ApplyTrades.mktrade "buy" "AAA" (Dec.mkdec false 5 0))
  = Ok [("AAA"%string,
         mkrow "AAA" (Dec.mkdec false 15000000 (-6)) (Dec.mkdec false 1033333 (-4)) "USD")].
Proof.
  refine (C1_buy_blends_weighted_average
            (ApplyTrades.group_fills
               (fun f => (ApplyTrades.f_action f, ApplyTrades.f_ticker f))
               [ApplyTrades.mkfill "buy" "AAA" (Dec.mkdec false 5 0)
                  (Dec.mkdec false 1100000 (-4)) "USD"])
            [("AAA"%string,
              mkrow "AAA" (Dec.mkdec false 10000000 (-6)) (Dec.mkdec false 1000000 (-4)) "USD")]
            (ApplyTrades.mktrade "buy" "AAA" (Dec.mkdec false 5 0))
            (mkrow "AAA" (Dec.mkdec false 10000000 (-6)) (Dec.mkdec false 1000000 (-4)) "USD")
            (Dec.mkdec false 5 0)
            [ApplyTrades.mkfill "buy" "AAA" (Dec.mkdec false 5 0)
               (Dec.mkdec false 1100000 (-4)) "USD"]
            (Dec.mkdec false 1100000 (-4)) _ _ _ _ _ _ _ _ _).
  - reflexivity.
  - reflexivity.
  - vm_compute. reflexivity.
  - reflexivity.
  - repeat split; vm_compute; try reflexivity; discriminate.
  - vm_compute. reflexivity.
  - repeat split; vm_compute; try reflexivity; discriminate.
  - repeat split; vm_compute; try reflexivity; discriminate.
  - repeat split; vm_compute; try reflexivity; discriminate.
Defined.

(** Where the claim fails: on 1.000000 AAA at 0.0004, a buy of 7 filled at
    0.2857142857142857142857142857.  The product of quantity and price,
    1.9999999999999999999999999999, does not fit the 28 digits of the
    context and becomes 2.000000000000000000000000000; the average cost
    comes out as 0.2501, where the exact blend 0.25004999... quantizes to
    0.2500. *)
Lemma C1_counterexample :
  let q := Dec.mkdec false 7 0 in
  let p := Dec.mkdec false 2857142857142857142857142857 (-28) in
  let f := ApplyTrades.mkfill "buy" "AAA" q p "USD" in
  let row := mkrow "AAA" (Dec.mkdec false 1000000 (-6)) (Dec.mkdec false 4 (-4)) "USD" in
  let fidx :=
    ApplyTrades.group_fills
      (fun f => (ApplyTrades.f_action f, ApplyTrades.f_ticker f)) [f] in
  let t := ApplyTrades.mktrade "buy" "AAA" q in
  ApplyTrades.reconcile fidx t = Ok (q, [f], p)
  /\ ApplyTrades.apply_equity_trade fidx [("AAA"%string, row)] t
     = Ok [("AAA"%string,
            mkrow "AAA" (Dec.mkdec false 8000000 (-6)) (Dec.mkdec false 2501 (-4)) "USD")]
  /\ Exact.quantized
       ((Exact.value (shares row) * Exact.value (avg_cost row)
         + Exact.value q * Exact.value p)
        / (Exact.value (shares row) + Exact.value q))%Q 4
     = Dec.mkdec false 2500 (-4).
Proof. vm_compute. repeat split; reflexivity. Qed.

(** ** Operations on different instruments commute *)

Section Interleaving.
Context {T : Type} (tk : T -> string).
Context (step : Dict.dict (K:=string) (V:=row) -> T -> result (Dict.dict (K:=string) (V:=row))).

(** The step reads and writes the position of its instrument only. *)
Hypothesis step_local : forall d t,
  step d t = (o <- local tk step (Dict.get String.eqb (tk t) d) t ;; Ok (upd (tk t) o d)).

Lemma get_upd_same k o d :
  NoDup (Dict.keys d) -> Dict.get String.eqb k (upd k o d) = o.
Proof.
  intros ND. destruct o as [v|]; cbn [upd].
  - apply (DictFacts.get_set_same _ string_eqb_spec).
  - apply (DictFacts.get_del_same _ string_eqb_spec), ND.
Qed.

Lemma get_upd_other k k' o d :
  k <> k' -> Dict.get String.eqb k (upd k' o d) = Dict.get String.eqb k d.
Proof.
  intros N. destruct o as [v|]; cbn [upd].
  - apply (DictFacts.get_set_other _ string_eqb_spec), N.
  - apply (DictFacts.get_del_other _ string_eqb_spec), N.
Qed.

Lemma NoDup_upd k o d : NoDup (Dict.keys d) -> NoDup (Dict.keys (upd k o d)).
Proof.
  intros ND. destruct o as [v|]; cbn [upd].
  - apply (DictFacts.NoDup_set _ string_eqb_spec), ND.
  - apply DictFacts.NoDup_del, ND.
Qed.

Lemma step_NoDup d t d' :
  NoDup (Dict.keys d) -> step d t = Ok d' -> NoDup (Dict.keys d').
Proof.
  intros ND H. rewrite step_local in H.
  destruct (local tk step (Dict.get String.eqb (tk t) d) t) as [o|e]; cbn [bind] in H;
    [|discriminate].
  injection H as <-. apply NoDup_upd, ND.
Qed.

(** The position of [k] after a batch is what the batch's operations on
    [k] alone make of it. *)
Lemma for_each_on_instrument ts : forall d d',
  NoDup (Dict.keys d) ->
  for_each step d ts = Ok d' ->
  forall k, for_each (local tk step) (Dict.get String.eqb k d) (on_instrument tk k ts)
            = Ok (Dict.get String.eqb k d').
Proof.
  induction ts as [|t ts IH]; intros d d' ND H k; cbn [for_each] in H.
  - injection H as <-. reflexivity.
  - destruct (step d t) as [d1|e] eqn:Hs; cbn [bind] in H; [|discriminate].
    pose proof (step_NoDup _ _ _ ND Hs) as ND1.
    specialize (IH d1 d' ND1 H k).
    rewrite step_local in Hs.
    destruct (local tk step (Dict.get String.eqb (tk t) d) t) as [o|e] eqn:Hl; cbn [bind] in Hs;
      [|discriminate].
    injection Hs as <-.
    unfold on_instrument in *. cbn [filter].
    destruct (String.eqb (tk t) k) eqn:E.
    + apply String.eqb_eq in E. subst k. cbn [for_each]. rewrite Hl. cbn [bind].
      rewrite get_upd_same in IH by exact ND. exact IH.
    + apply String.eqb_neq in E.
      rewrite get_upd_other in IH by (intros X; apply E; symmetry; exact X).
      exact IH.
Qed.

(** Conversely the batch succeeds as soon as, for each instrument, its
    own operations do. *)
Lemma for_each_from_instruments ts : forall d,
  NoDup (Dict.keys d) ->
  (forall k, exists o,
      for_each (local tk step) (Dict.get String.eqb k d) (on_instrument tk k ts) = Ok o) ->
  exists d', for_each step d ts = Ok d'.
Proof.
  induction ts as [|t ts IH]; intros d ND H; cbn [for_each].
  - eexists. reflexivity.
  - destruct (H (tk t)) as (o & Ho).
    unfold on_instrument in Ho. cbn [filter] in Ho.
    rewrite String.eqb_refl in Ho. cbn [for_each] in Ho.
    rewrite step_local.
    destruct (local tk step (Dict.get String.eqb (tk t) d) t) as [o1|e] eqn:Hl; cbn [bind] in Ho;
      [|discriminate].
    cbn [bind]. apply IH; [apply NoDup_upd, ND|].
    intros k. destruct (String.eqb (tk t) k) eqn:E.
    + apply String.eqb_eq in E. subst k.
      rewrite get_upd_same by exact ND. exists o. exact Ho.
    + destruct (H k) as (o' & Ho'). unfold on_instrument in Ho'. cbn [filter] in Ho'.
      rewrite E in Ho'. apply String.eqb_neq in E.
      rewrite get_upd_other by (intros X; apply E; symmetry; exact X).
      exists o'. exact Ho'.
Qed.

Lemma interleaving ts ts' d d1 :
  NoDup (Dict.keys d) ->
  same_order_per_instrument tk ts ts' ->
  for_each step d ts = Ok d1 ->
  exists d2, for_each step d ts' = Ok d2
             /\ NoDup (Dict.keys d1) /\ NoDup (Dict.keys d2)
             /\ forall k, Dict.get String.eqb k d2 = Dict.get String.eqb k d1.
Proof.
  intros ND Hsame H.
  pose proof (for_each_on_instrument ts d d1 ND H) as H1.
  destruct (for_each_from_instruments ts' d ND) as (d2 & H2).
  { intros k. exists (Dict.get String.eqb k d1). rewrite <- Hsame. apply H1. }
  exists d2. split; [exact H2|].
  split; [eapply (for_each_inv (fun d => NoDup (Dict.keys d))); [apply step_NoDup| exact ND | exact H]|].
  split; [eapply (for_each_inv (fun d => NoDup (Dict.keys d))); [apply step_NoDup| exact ND | exact H2]|].
  intros k.
  pose proof (for_each_on_instrument ts' d d2 ND H2 k) as H3.
  rewrite <- Hsame, H1 in H3. injection H3 as H3. symmetry. exact H3.
Qed.

End Interleaving.

(** Two indexes with distinct keys and the same content hold the same
    rows. *)
Lemma In_get (k : string) (v : row) d :
  NoDup (Dict.keys d) -> In (k, v) d -> Dict.get String.eqb k d = Some v.
Proof.
  induction d as [|[k0 v0] d IH]; cbn; intros ND H; [contradiction|].
  inversion ND as [|? ? Hn ND']; subst.
  destruct H as [H|H].
  - injection H as -> ->. rewrite String.eqb_refl. reflexivity.
  - destruct (String.eqb k k0) eqn:E.
    + apply String.eqb_eq in E. subst k0. exfalso. apply Hn.
      change k with (fst (k, v)). apply in_map, H.
    + apply IH; assumption.
Qed.

Lemma NoDup_keys_NoDup (d : Dict.dict (K:=string) (V:=row)) :
  NoDup (Dict.keys d) -> NoDup d.
Proof.
  induction d as [|[k v] d IH]; cbn; intros ND; [constructor|].
  inversion ND as [|? ? Hn ND']; subst. constructor; [|apply IH, ND'].
  intros H. apply Hn. change k with (fst (k, v)). apply in_map, H.
Qed.

Lemma same_content_perm (d1 d2 : Dict.dict (K:=string) (V:=row)) :
  NoDup (Dict.keys d1) -> NoDup (Dict.keys d2) ->
  (forall k, Dict.get String.eqb k d2 = Dict.get String.eqb k d1) ->
  Permutation (Dict.values d1) (Dict.values d2).
Proof.
  intros N1 N2 H. unfold Dict.values. apply Permutation_map.
  apply NoDup_Permutation; try (apply NoDup_keys_NoDup; assumption).
  intros [k v]. split; intros Hin.
  - apply (DictFacts.get_In _ string_eqb_spec). rewrite H. apply In_get; assumption.
  - apply (DictFacts.get_In _ string_eqb_spec). rewrite <- H. apply In_get; assumption.
Qed.

(** Each script's loop body reads and writes the position of the
    operation's instrument only. *)
Ltac local_step :=
  repeat match goal with
         | |- context [bind ?r _] =>
             lazymatch r with
             | bind _ _ => fail
             | Ok _ => fail
             | Err _ => fail
             | (if _ then _ else _) => fail
             | _ => destruct r; cbn [bind]; try reflexivity
             end
         end.

Ltac local_done :=
  cbn [bind Dict.set Dict.del Dict.get]; rewrite ?String.eqb_refl;
  cbn [bind Dict.set Dict.del Dict.get upd]; rewrite ?String.eqb_refl;
  try reflexivity.

Lemma apply_trades_step_local fidx d t :
  ApplyTrades.apply_equity_trade fidx d t
  = (o <- local ApplyTrades.t_ticker (ApplyTrades.apply_equity_trade fidx)
            (Dict.get String.eqb (ApplyTrades.t_ticker t) d) t ;;
     Ok (upd (ApplyTrades.t_ticker t) o d)).
Proof.
  unfold local, ApplyTrades.apply_equity_trade.
  destruct (ApplyTrades.reconcile fidx t) as [[[qty fh] p]|e]; cbn [bind]; [|reflexivity].
  unfold ApplyTrades.transition.
  destruct (String.eqb (ApplyTrades.t_action t) "buy").
  - destruct (Dict.get String.eqb (ApplyTrades.t_ticker t) d) as [r|];
      cbn [cell Dict.get]; rewrite ?String.eqb_refl.
    + destruct (existsb _ fh); [reflexivity|]. local_step. local_done.
    + destruct fh as [|f0 fh]; [reflexivity|]. local_step. local_done.
  - destruct (Dict.get String.eqb (ApplyTrades.t_ticker t) d) as [r|];
      cbn [cell Dict.get]; rewrite ?String.eqb_refl; [|reflexivity].
    destruct (Dec.gtb qty (shares r)); [reflexivity|]. local_step.
    destruct (Dec.is_zero _); local_done.
Qed.

Lemma ledger_tui_step_local d t :
  LedgerTui.apply_equity_trade d t
  = (o <- local LedgerTui.t_ticker LedgerTui.apply_equity_trade
            (Dict.get String.eqb (LedgerTui.t_ticker t) d) t ;;
     Ok (upd (LedgerTui.t_ticker t) o d)).
Proof.
  unfold local, LedgerTui.apply_equity_trade.
  destruct (String.eqb (LedgerTui.t_action t) "buy").
  - destruct (Dict.get String.eqb (LedgerTui.t_ticker t) d) as [r|];
      cbn [cell Dict.get]; rewrite ?String.eqb_refl.
    + destruct (negb _); [reflexivity|]. local_step. local_done.
    + local_step. local_done.
  - destruct (Dict.get String.eqb (LedgerTui.t_ticker t) d) as [r|];
      cbn [cell Dict.get]; rewrite ?String.eqb_refl; [|reflexivity].
    destruct (Dec.gtb _ (shares r)); [reflexivity|]. local_step.
    destruct (Dec.is_zero _); local_done.
Qed.


Lemma ledger_tui_trade_wf idx t idx' :
  wf_idx idx -> LedgerTui.apply_equity_trade idx t = Ok idx' -> wf_idx idx'.
Proof.
  intros W H. unfold LedgerTui.apply_equity_trade in H.
  destruct (String.eqb (LedgerTui.t_action t) "buy").
  - destruct (Dict.get String.eqb (LedgerTui.t_ticker t) idx) as [r|] eqn:G.
    + destruct (negb _); [discriminate|].
      do 7 bind_inv H. injection H as <-.
      apply wf_idx_set; [exact W|]. cbn. eapply wf_idx_get; eassumption.
    + do 2 bind_inv H. injection H as <-.
      apply wf_idx_set; [exact W | reflexivity].
  - destruct (Dict.get String.eqb (LedgerTui.t_ticker t) idx) as [r|] eqn:G;
      [|discriminate].
    destruct (Dec.gtb _ (shares r)); [discriminate|].
    do 2 bind_inv H.
    destruct (Dec.is_zero x0); injection H as <-.
    + apply wf_idx_del, W.
    + apply wf_idx_set; [exact W|]. cbn. eapply wf_idx_get; eassumption.
Qed.

Lemma forallb_perm {A : Type} (f : A -> bool) l1 l2 :
  Permutation l1 l2 -> forallb f l1 = forallb f l2.
Proof.
  induction 1 as [|x l l' P IH|x y l|l l' l'' P1 IH1 P2 IH2]; cbn.
  - reflexivity.
  - rewrite IH. reflexivity.
  - destruct (f x), (f y); reflexivity.
  - congruence.
Qed.

Lemma opt_key_ticker r :
  match ticker_or_symbol r with Some k => k | None => EmptyString end = ticker r.
Proof.
  unfold ticker_or_symbol. destruct (String.eqb (ticker r) EmptyString) eqn:E.
  - apply String.eqb_eq in E. symmetry. exact E.
  - reflexivity.
Qed.

(** With distinct tickers the rows that the writers of [ledger_tui.py] and
    [record_week.py] sort depend on the rows only, not on their order. *)
Lemma sorted_by_opt_key_perm l1 l2 :
  NoDup (map ticker l1) -> Permutation l1 l2 ->
  sorted_by_opt_key ticker_or_symbol l1 = sorted_by_opt_key ticker_or_symbol l2.
Proof.
  intros ND P.
  pose proof (Permutation_length P) as HL.
  pose proof (forallb_perm
                (fun x => match ticker_or_symbol x with Some _ => true | None => false end)
                _ _ P) as HF.
  assert (HS : sorted_by (fun x => match ticker_or_symbol x with
                                   | Some k => k | None => EmptyString end) l1
               = sorted_by (fun x => match ticker_or_symbol x with
                                     | Some k => k | None => EmptyString end) l2).
  { apply sorted_by_order_independent; [|exact P].
    rewrite (map_ext _ ticker opt_key_ticker). exact ND. }
  destruct l1 as [|a [|b l1]].
  - apply Permutation_nil in P. subst l2. reflexivity.
  - apply Permutation_length_1_inv in P. subst l2. reflexivity.
  - destruct l2 as [|a' [|b' l2]]; try discriminate HL.
    unfold sorted_by_opt_key. rewrite HF, HS. reflexivity.
Qed.

(** ** The order of the buys *)

(** C9, as the code has it.  The final position of an instrument is made
    by the operations on that instrument, in their order: two batches that
    hold the same operations per instrument, interleaved differently, end
    in the same ledger.  In [apply_trades.py] the rows returned are the
    same; in [ledger_tui.py] they are the same rows, in the order of the
    index, and [save_holdings] writes the same file. *)
Theorem C9_position_made_by_own_operations :
  (forall holdings fills ts ts' rows,
      same_order_per_instrument ApplyTrades.t_ticker ts ts' ->
      ApplyTrades.apply_equity holdings ts fills = Ok rows ->
      ApplyTrades.apply_equity holdings ts' fills = Ok rows)
  /\ (forall holdings ts ts' rows,
      same_order_per_instrument LedgerTui.t_ticker ts ts' ->
      LedgerTui.apply_equity holdings ts = Ok rows ->
      exists rows',
        LedgerTui.apply_equity holdings ts' = Ok rows'
        /\ Permutation rows rows'
        /\ forall path stamp fs,
             LedgerTui.save_holdings path stamp rows' fs
             = LedgerTui.save_holdings path stamp rows fs).
Proof.
  split.
  - intros holdings fills ts ts' rows Hsame H.
    unfold ApplyTrades.apply_equity in *.
    bind_inv H. injection H as <-.
    pose proof (wf_idx_index_holdings holdings) as W0.
    destruct (interleaving ApplyTrades.t_ticker _ (apply_trades_step_local _)
                ts ts' _ x (proj1 W0) Hsame E) as (d2 & H2 & N1 & N2 & Hget).
    rewrite H2. cbn [bind]. f_equal.
    assert (W : wf_idx x).
    { eapply (for_each_inv wf_idx); [|exact W0|exact E].
      intros st t st' Hs Hb. eapply apply_equity_trade_wf; eassumption. }
    symmetry. apply sorted_by_order_independent.
    + rewrite (wf_idx_keys _ W). exact N1.
    + apply same_content_perm; assumption.
  - intros holdings ts ts' rows Hsame H.
    unfold LedgerTui.apply_equity in *.
    bind_inv H. injection H as <-.
    pose proof (wf_idx_index_holdings holdings) as W0.
    destruct (interleaving LedgerTui.t_ticker _ ledger_tui_step_local
                ts ts' _ x (proj1 W0) Hsame E) as (d2 & H2 & N1 & N2 & Hget).
    rewrite H2. cbn [bind]. exists (Dict.values d2).
    assert (W : wf_idx x).
    { eapply (for_each_inv wf_idx); [|exact W0|exact E].
      intros st t st' Hs Hb. eapply ledger_tui_trade_wf; eassumption. }
    assert (P : Permutation (Dict.values x) (Dict.values d2))
      by (apply same_content_perm; assumption).
    split; [reflexivity|]. split; [exact P|].
    intros path stamp fs. unfold LedgerTui.save_holdings.
    rewrite (sorted_by_opt_key_perm (Dict.values x) (Dict.values d2)); [reflexivity| |exact P].
    rewrite (wf_idx_keys _ W). exact N1.
Qed.

(** A buy of AAA and a buy of BBB, applied in the other order. *)
Lemma C9_position_made_by_own_operations_witness :
  ApplyTrades.apply_equity
    [mkrow "AAA" (Dec.mkdec false 10000000 (-6)) (Dec.mkdec false 1000000 (-4)) "USD"]
    [ApplyTrades.mktrade "buy" "BBB" (Dec.mkdec false 2 0);
     ApplyTrades.mktrade "buy" "AAA" (Dec.mkdec false 5 0)]
    [ApplyTrades.mkfill "buy" "AAA" (Dec.mkdec false 5 0) (Dec.mkdec false 1100000 (-4)) "USD";
     ApplyTrades.mkfill "buy" "BBB" (Dec.mkdec false 2 0) (Dec.mkdec false 50 0) "USD"]
  = Ok [mkrow "AAA" (Dec.mkdec false 15000000 (-6)) (Dec.mkdec false 1033333 (-4)) "USD";
        mkrow "BBB" (Dec.mkdec false 2000000 (-6)) (Dec.mkdec false 500000 (-4)) "USD"].
Proof.
  refine (proj1 C9_position_made_by_own_operations
            [mkrow "AAA" (Dec.mkdec false 10000000 (-6)) (Dec.mkdec false 1000000 (-4)) "USD"]
            [ApplyTrades.mkfill "buy" "AAA" (Dec.mkdec false 5 0)
               (Dec.mkdec false 1100000 (-4)) "USD";
             ApplyTrades.mkfill "buy" "BBB" (Dec.mkdec false 2 0) (Dec.mkdec false 50 0) "USD"]
            [ApplyTrades.mktrade "buy" "AAA" (Dec.mkdec false 5 0);
             ApplyTrades.mktrade "buy" "BBB" (Dec.mkdec false 2 0)]
            [ApplyTrades.mktrade "buy" "BBB" (Dec.mkdec false 2 0);
             ApplyTrades.mktrade "buy" "AAA" (Dec.mkdec false 5 0)]
            _ _ _).
  - intros k. unfold on_instrument. cbn [filter ApplyTrades.t_ticker].
    destruct (String.eqb "AAA" k) eqn:E1; destruct (String.eqb "BBB" k) eqn:E2;
      try reflexivity.
    apply String.eqb_eq in E1. apply String.eqb_eq in E2. subst k. discriminate E2.
  - vm_compute. reflexivity.
Defined.

(** Where the claim fails: on 1.000000 AAA at 10.0000, a buy of 1 at
    10.0001 and a buy of 1 at 10.0000.  In this order the average cost
    becomes 10.00005, quantized to 10.0001, and then 10.00006..., quantized
    to 10.0001; in the other order it stays 10.0000 and then becomes
    10.00003..., quantized to 10.0000.  The same happens to
    [apply_trades.py] over two runs, one buy each. *)
Lemma C9_counterexample :
  let start := [mkrow "AAA" (Dec.mkdec false 1000000 (-6)) (Dec.mkdec false 100000 (-4)) "USD"] in
  let one := Dec.mkdec false 1 0 in
  let dear := Dec.mkdec false 100001 (-4) in
  let cheap := Dec.mkdec false 100000 (-4) in
  let b1 := LedgerTui.mktrade "buy" "AAA" one dear "USD" in
  let b2 := LedgerTui.mktrade "buy" "AAA" one cheap "USD" in
  let t := ApplyTrades.mktrade "buy" "AAA" one in
  let f1 := [ApplyTrades.mkfill "buy" "AAA" one dear "USD"] in
  let f2 := [ApplyTrades.mkfill "buy" "AAA" one cheap "USD"] in
  Permutation [b1; b2] [b2; b1]
  /\ LedgerTui.apply_equity start [b1; b2]
     = Ok [mkrow "AAA" (Dec.mkdec false 3000000 (-6)) (Dec.mkdec false 100001 (-4)) "USD"]
  /\ LedgerTui.apply_equity start [b2; b1]
     = Ok [mkrow "AAA" (Dec.mkdec false 3000000 (-6)) (Dec.mkdec false 100000 (-4)) "USD"]
  /\ (r <- ApplyTrades.apply_equity start [t] f1 ;; ApplyTrades.apply_equity r [t] f2)
     = Ok [mkrow "AAA" (Dec.mkdec false 3000000 (-6)) (Dec.mkdec false 100001 (-4)) "USD"]
  /\ (r <- ApplyTrades.apply_equity start [t] f2 ;; ApplyTrades.apply_equity r [t] f1)
     = Ok [mkrow "AAA" (Dec.mkdec false 3000000 (-6)) (Dec.mkdec false 100000 (-4)) "USD"].
Proof.
  cbv zeta. split; [apply perm_swap|].
  vm_compute. repeat split; reflexivity.
Qed.

(** * Further properties of the scripts *)

(** ** Reading numbers and identifiers *)

(** X1.  [D = lambda x: Decimal(str(x))] leaves every finite decimal as it
    is: sign, digits and exponent, in plain and in scientific notation. *)
Theorem D_keeps_every_decimal :
  forall d, Text.D d = Ok d.
Proof. intros d. apply TextFacts.D_id. Qed.

(** X2.  [strip().upper()], the form the loaders give to tickers and
    currencies, changes nothing when applied again. *)
Theorem normalize_twice_is_once :
  forall s, Text.normalize (Text.normalize s) = Text.normalize s.
Proof. intros s. apply NormalizeFacts.normalize_idem. Qed.

(** ** The fills of a trade *)

(** X3.  The index of fills built by [setdefault(k, []).append(f)] gives,
    for an action and an instrument, the fills of the file with that
    action and instrument, in the order of the file; equities and crypto
    alike. *)
Theorem fills_grouped_in_file_order :
  (forall (fills : list ApplyTrades.fill) action tkr,
      ApplyTrades.fills_for
        (ApplyTrades.group_fills
           (fun f => (ApplyTrades.f_action f, ApplyTrades.f_ticker f)) fills)
        action tkr
      = filter (fun f => String.eqb action (ApplyTrades.f_action f)
                         && String.eqb tkr (ApplyTrades.f_ticker f)) fills)
  /\ (forall (fills : list ApplyTrades.cfill) action sym,
      ApplyTrades.fills_for
        (ApplyTrades.group_fills
           (fun f => (ApplyTrades.cf_action f, ApplyTrades.cf_symbol f)) fills)
        action sym
      = filter (fun f => String.eqb action (ApplyTrades.cf_action f)
                         && String.eqb sym (ApplyTrades.cf_symbol f)) fills).
Proof.
  split; intros fills action k; rewrite fills_for_group_fills; reflexivity.
Qed.

(** X4.  A trade for which the fills file has no line with the same action
    and instrument stops the run with "no fill provided", whatever the
    holdings are; equities and crypto alike. *)
Theorem trade_without_fills_stops_the_run :
  (forall fills hidx t,
      (forall f, In f fills ->
         (ApplyTrades.f_action f, ApplyTrades.f_ticker f)
         <> (ApplyTrades.t_action t, ApplyTrades.t_ticker t)) ->
      ApplyTrades.apply_equity_trade
        (ApplyTrades.group_fills
           (fun f => (ApplyTrades.f_action f, ApplyTrades.f_ticker f)) fills)
        hidx t
      = Err (NoFillsForTrade (ApplyTrades.t_action t) (ApplyTrades.t_ticker t)))
  /\ (forall fills hidx t,
      (forall f, In f fills ->
         (ApplyTrades.cf_action f, ApplyTrades.cf_symbol f)
         <> (ApplyTrades.t_action t, ApplyTrades.t_ticker t)) ->
      ApplyTrades.apply_crypto_trade
        (ApplyTrades.group_fills
           (fun f => (ApplyTrades.cf_action f, ApplyTrades.cf_symbol f)) fills)
        hidx t
      = Err (NoFillsForTrade (ApplyTrades.t_action t) (ApplyTrades.t_ticker t))).
Proof.
  split; intros fills hidx t H.
  - unfold ApplyTrades.apply_equity_trade, ApplyTrades.reconcile.
    rewrite TextFacts.D_id. cbn [bind].
    rewrite fills_for_group_fills, filter_none; [reflexivity|].
    intros f Hf. destruct (ApplyTrades.key_eqb _ _) eqn:E; [|reflexivity].
    apply key_eqb_spec in E. exfalso. apply (H f Hf). symmetry. exact E.
  - unfold ApplyTrades.apply_crypto_trade.
    rewrite TextFacts.D_id. cbn [bind].
    rewrite fills_for_group_fills, filter_none; [reflexivity|].
    intros f Hf. destruct (ApplyTrades.key_eqb _ _) eqn:E; [|reflexivity].
    apply key_eqb_spec in E. exfalso. apply (H f Hf). symmetry. exact E.
Qed.

(** A sell of BBB against fills of AAA only. *)
Lemma trade_without_fills_stops_the_run_witness :
  ApplyTrades.apply_equity_trade
    (ApplyTrades.group_fills
       (fun f => (ApplyTrades.f_action f, ApplyTrades.f_ticker f))
       [ApplyTrades.mkfill "buy" "AAA" (Dec.mkdec false 5 0) (Dec.mkdec false 100 0) "USD"])
    [("BBB"%string,
      mkrow "BBB" (Dec.mkdec false 1000000 (-6)) (Dec.mkdec false 100000 (-4)) "USD")]
    (ApplyTrades.mktrade "sell" "BBB" (Dec.mkdec false 1 0))
  = Err (NoFillsForTrade "sell" "BBB").
Proof.
  refine (proj1 trade_without_fills_stops_the_run
            [ApplyTrades.mkfill "buy" "AAA" (Dec.mkdec false 5 0) (Dec.mkdec false 100 0) "USD"]
            [("BBB"%string,
              mkrow "BBB" (Dec.mkdec false 1000000 (-6)) (Dec.mkdec false 100000 (-4)) "USD")]
            (ApplyTrades.mktrade "sell" "BBB" (Dec.mkdec false 1 0)) _).
  intros f [<-|[]]. cbn. discriminate.
Defined.

(** ** One transition, three scripts *)

Lemma ledger_tui_trade_is_transition idx t :
  LedgerTui.apply_equity_trade idx t
  = ApplyTrades.transition idx
      (ApplyTrades.mktrade (LedgerTui.t_action t) (LedgerTui.t_ticker t)
         (LedgerTui.t_qty t))
      (LedgerTui.t_qty t)
      [ApplyTrades.mkfill (LedgerTui.t_action t) (LedgerTui.t_ticker t)
         (LedgerTui.t_qty t) (LedgerTui.t_unit_price t) (LedgerTui.t_currency t)]
      (LedgerTui.t_unit_price t).
Proof.
  unfold LedgerTui.apply_equity_trade, ApplyTrades.transition.
  cbn [ApplyTrades.t_action ApplyTrades.t_ticker ApplyTrades.f_currency existsb].
  destruct (String.eqb (LedgerTui.t_action t) "buy"); [|reflexivity].
  destruct (Dict.get String.eqb (LedgerTui.t_ticker t) idx) as [r|]; [|reflexivity].
  rewrite orb_false_r, (String.eqb_sym (LedgerTui.t_currency t) (currency r)).
  reflexivity.
Qed.

Lemma record_week_fill_is_transition idx f :
  RecordWeek.apply_equity_fill idx f
  = if Dec.leb (RecordWeek.f_qty f) Dec.zero
    then Err (NonPositiveQuantity (RecordWeek.f_ticker f))
    else
      ApplyTrades.transition idx
        (ApplyTrades.mktrade (RecordWeek.f_action f) (RecordWeek.f_ticker f)
           (RecordWeek.f_qty f))
        (RecordWeek.f_qty f)
        [ApplyTrades.mkfill (RecordWeek.f_action f) (RecordWeek.f_ticker f)
           (RecordWeek.f_qty f) (RecordWeek.f_fill_price f) (RecordWeek.f_currency f)]
        (RecordWeek.f_fill_price f).
Proof.
  unfold RecordWeek.apply_equity_fill, ApplyTrades.transition.
  rewrite !TextFacts.D_id. cbn [bind].
  cbn [ApplyTrades.t_action ApplyTrades.t_ticker ApplyTrades.f_currency existsb].
  destruct (Dec.leb (RecordWeek.f_qty f) Dec.zero); [reflexivity|].
  destruct (String.eqb (RecordWeek.f_action f) "buy"); [|reflexivity].
  destruct (Dict.get String.eqb (RecordWeek.f_ticker f) idx) as [r|]; [|reflexivity].
  rewrite orb_false_r, (String.eqb_sym (RecordWeek.f_currency f) (currency r)).
  reflexivity.
Qed.

(** X5.  The loop bodies of [ledger_tui.py] and [record_week.py] are the
    buy and sell of [apply_trades.py], applied to a trade with a single
    fill at the unit price; [record_week.py] first rejects a quantity that
    is not positive. *)
Theorem scripts_share_one_transition :
  (forall idx t,
      LedgerTui.apply_equity_trade idx t
      = ApplyTrades.transition idx
          (ApplyTrades.mktrade (LedgerTui.t_action t) (LedgerTui.t_ticker t)
             (LedgerTui.t_qty t))
          (LedgerTui.t_qty t)
          [ApplyTrades.mkfill (LedgerTui.t_action t) (LedgerTui.t_ticker t)
             (LedgerTui.t_qty t) (LedgerTui.t_unit_price t) (LedgerTui.t_currency t)]
          (LedgerTui.t_unit_price t))
  /\ (forall idx f,
      RecordWeek.apply_equity_fill idx f
      = if Dec.leb (RecordWeek.f_qty f) Dec.zero
        then Err (NonPositiveQuantity (RecordWeek.f_ticker f))
        else
          ApplyTrades.transition idx
            (ApplyTrades.mktrade (RecordWeek.f_action f) (RecordWeek.f_ticker f)
               (RecordWeek.f_qty f))
            (RecordWeek.f_qty f)
            [ApplyTrades.mkfill (RecordWeek.f_action f) (RecordWeek.f_ticker f)
               (RecordWeek.f_qty f) (RecordWeek.f_fill_price f) (RecordWeek.f_currency f)]
            (RecordWeek.f_fill_price f)).
Proof.
  split; [exact ledger_tui_trade_is_transition | exact record_week_fill_is_transition].
Qed.

(** ** Comparisons and the errors of a trade *)

(** Comparison of decimals is comparison of their exact values, whatever
    the number of digits. *)
Lemma cmp_value a b : Dec.cmp a b = (Exact.value a ?= Exact.value b)%Q.
Proof.
  unfold Dec.cmp.
  set (e := Z.min (Dec.dexp a) (Dec.dexp b)).
  assert (Ha : (Exact.value a
                == inject_Z (Dec.scoeff a * 10 ^ (Dec.dexp a - e)) * Exact.pow10 e)%Q).
  { unfold Exact.value. rewrite inject_Z_mult.
    rewrite <- (ExactFacts.pow10_Z (Dec.dexp a - e)) by (subst e; lia).
    rewrite <- Qmult_assoc, <- ExactFacts.pow10_add.
    replace (Dec.dexp a - e + e) with (Dec.dexp a) by lia. reflexivity. }
  assert (Hb : (Exact.value b
                == inject_Z (Dec.scoeff b * 10 ^ (Dec.dexp b - e)) * Exact.pow10 e)%Q).
  { unfold Exact.value. rewrite inject_Z_mult.
    rewrite <- (ExactFacts.pow10_Z (Dec.dexp b - e)) by (subst e; lia).
    rewrite <- Qmult_assoc, <- ExactFacts.pow10_add.
    replace (Dec.dexp b - e + e) with (Dec.dexp b) by lia. reflexivity. }
  rewrite Ha, Hb.
  set (x := Dec.scoeff a * 10 ^ (Dec.dexp a - e)).
  set (y := Dec.scoeff b * 10 ^ (Dec.dexp b - e)).
  pose proof (ExactFacts.pow10_pos e) as Hp.
  symmetry. destruct (Z.compare_spec x y) as [E|L|G].
  - apply Qeq_alt. rewrite E. reflexivity.
  - apply Qlt_alt. apply Qmult_lt_r; [exact Hp|]. rewrite <- Zlt_Qlt. exact L.
  - apply Qgt_alt. apply Qmult_lt_r; [exact Hp|]. rewrite <- Zlt_Qlt. exact G.
Qed.

Lemma gtb_value a b : Dec.gtb a b = true <-> (Exact.value b < Exact.value a)%Q.
Proof.
  unfold Dec.gtb. rewrite cmp_value. rewrite Qgt_alt.
  destruct (Exact.value a ?= Exact.value b)%Q; split; congruence.
Qed.

Lemma leb_value a b : Dec.leb a b = true <-> (Exact.value a <= Exact.value b)%Q.
Proof.
  unfold Dec.leb. rewrite cmp_value. rewrite Qle_alt.
  destruct (Exact.value a ?= Exact.value b)%Q; split; congruence.
Qed.

Lemma value_zero : (Exact.value Dec.zero == 0)%Q.
Proof. reflexivity. Qed.

Lemma reconcile_fills fidx t q fh p :
  ApplyTrades.reconcile fidx t = Ok (q, fh, p) ->
  q = ApplyTrades.t_qty t
  /\ fh = ApplyTrades.fills_for fidx (ApplyTrades.t_action t) (ApplyTrades.t_ticker t)
  /\ fh <> [].
Proof.
  unfold ApplyTrades.reconcile. rewrite TextFacts.D_id. cbn [bind].
  destruct (ApplyTrades.fills_for fidx _ _) as [|f0 fs]; [discriminate|].
  intros H. bind_inv H.
  destruct (negb _); [discriminate|].
  do 2 bind_inv H. injection H as <- <- <-.
  repeat split. discriminate.
Qed.

Lemma reconcile_errors fidx t e :
  ApplyTrades.reconcile fidx t = Err e ->
  e = NoFillsForTrade (ApplyTrades.t_action t) (ApplyTrades.t_ticker t)
  \/ e = QuantityMismatch (ApplyTrades.t_ticker t)
  \/ decimal_error e.
Proof.
  unfold ApplyTrades.reconcile. rewrite TextFacts.D_id. cbn [bind].
  destruct (ApplyTrades.fills_for fidx _ _) as [|f0 fs].
  - intros [= <-]. left. reflexivity.
  - intros H. err_step H.
    + right. right. eapply dec_sum_error; [|exact H]. intros f e' [=].
    + destruct (negb _).
      * injection H as <-. right. left. reflexivity.
      * right. right. err_step H.
        -- eapply dec_sum_error; [|exact H]. intros f e'. apply mul_error.
        -- err_step H; [eapply div_error; exact H | discriminate].
Qed.

(** What the buy or the sell can stop with. *)
Lemma transition_errors hidx t qty fills_here p e :
  fills_here <> [] ->
  ApplyTrades.transition hidx t qty fills_here p = Err e ->
  e = CurrencyMismatch (ApplyTrades.t_ticker t)
  \/ e = NoSuchPosition (ApplyTrades.t_ticker t)
  \/ e = InsufficientPosition (ApplyTrades.t_ticker t)
  \/ decimal_error e.
Proof.
  unfold ApplyTrades.transition. intros Hne H.
  destruct (String.eqb (ApplyTrades.t_action t) "buy").
  - destruct (Dict.get String.eqb (ApplyTrades.t_ticker t) hidx) as [r|].
    + destruct (existsb _ fills_here); [injection H as <-; left; reflexivity|].
      right. right. right.
      err_step H; [exact (add_error _ _ _ H)|].
      err_step H; [exact (mul_error _ _ _ H)|].
      err_step H; [exact (mul_error _ _ _ H)|].
      err_step H; [exact (add_error _ _ _ H)|].
      err_step H; [exact (div_error _ _ _ H)|].
      err_step H; [exact (round_shares_error _ _ H)|].
      err_step H; [exact (round_price_error _ _ H)|].
      discriminate.
    + destruct fills_here as [|f0 ?]; [contradiction|].
      right. right. right.
      err_step H; [exact (round_shares_error _ _ H)|].
      err_step H; [exact (round_price_error _ _ H)|].
      discriminate.
  - destruct (Dict.get String.eqb (ApplyTrades.t_ticker t) hidx) as [r|];
      [|injection H as <-; right; left; reflexivity].
    destruct (Dec.gtb qty (shares r)); [injection H as <-; right; right; left; reflexivity|].
    right. right. right.
    err_step H; [exact (sub_error _ _ _ H)|].
    err_step H; [exact (round_shares_error _ _ H)|].
    destruct (Dec.is_zero a0); discriminate.
Qed.

(** X6.  A trade of [apply_trades.py] stops the run with one of the five
    messages of the loop (no fill, quantity mismatch, currency mismatch,
    selling a non-existent holding, selling more than held), each about the
    trade's own instrument, or with an exception of the decimal
    arithmetic; [fills_here[0]] never raises. *)
Theorem what_stops_a_trade :
  forall fidx hidx t e,
    ApplyTrades.apply_equity_trade fidx hidx t = Err e ->
    e = NoFillsForTrade (ApplyTrades.t_action t) (ApplyTrades.t_ticker t)
    \/ e = QuantityMismatch (ApplyTrades.t_ticker t)
    \/ e = CurrencyMismatch (ApplyTrades.t_ticker t)
    \/ e = NoSuchPosition (ApplyTrades.t_ticker t)
    \/ e = InsufficientPosition (ApplyTrades.t_ticker t)
    \/ decimal_error e.
Proof.
  intros fidx hidx t e H. unfold ApplyTrades.apply_equity_trade in H.
  destruct (ApplyTrades.reconcile fidx t) as [[[q fh] p]|e'] eqn:Hr; cbn [bind] in H.
  - destruct (reconcile_fills _ _ _ _ _ Hr) as (_ & _ & Hne).
    destruct (transition_errors _ _ _ _ _ _ Hne H) as [E|[E|[E|E]]]; auto 10.
  - injection H as <-. destruct (reconcile_errors _ _ _ Hr) as [E|[E|E]]; auto 10.
Qed.

(** A sell of an instrument that is not held. *)
Lemma what_stops_a_trade_witness :
  NoSuchPosition "BBB" = NoFillsForTrade "sell" "BBB"
  \/ NoSuchPosition "BBB" = QuantityMismatch "BBB"
  \/ NoSuchPosition "BBB" = CurrencyMismatch "BBB"
  \/ NoSuchPosition "BBB" = NoSuchPosition "BBB"
  \/ NoSuchPosition "BBB" = InsufficientPosition "BBB"
  \/ decimal_error (NoSuchPosition "BBB").
Proof.
  refine (what_stops_a_trade
            (ApplyTrades.group_fills
               (fun f => (ApplyTrades.f_action f, ApplyTrades.f_ticker f))
               [ApplyTrades.mkfill "sell" "BBB" (Dec.mkdec false 1 0)
                  (Dec.mkdec false 100 0) "USD"])
            []
            (ApplyTrades.mktrade "sell" "BBB" (Dec.mkdec false 1 0))
            (NoSuchPosition "BBB") _).
  vm_compute. reflexivity.
Defined.

(** X7.  A reconciled sell on a held position stops with "sell qty
    exceeds holding" exactly when the quantity is greater than the
    quantity held, compared exactly, whatever the digits. *)
Theorem sell_fails_iff_more_than_held :
  forall fidx hidx t row q fills_here p,
    String.eqb (ApplyTrades.t_action t) "buy" = false ->
    Dict.get String.eqb (ApplyTrades.t_ticker t) hidx = Some row ->
    ApplyTrades.reconcile fidx t = Ok (q, fills_here, p) ->
    (ApplyTrades.apply_equity_trade fidx hidx t
     = Err (InsufficientPosition (ApplyTrades.t_ticker t))
     <-> (Exact.value (shares row) < Exact.value q)%Q).
Proof.
  intros fidx hidx t row q fh p Ha Hg Hr.
  unfold ApplyTrades.apply_equity_trade. rewrite Hr. cbn [bind].
  unfold ApplyTrades.transition. rewrite Ha, Hg.
  rewrite <- gtb_value.
  destruct (Dec.gtb q (shares row)); split; try reflexivity; try discriminate.
  intros H. exfalso.
  err_step H; [destruct (sub_error _ _ _ H); discriminate|].
  err_step H; [destruct (round_shares_error _ _ H); discriminate|].
  destruct (Dec.is_zero a0); discriminate.
Qed.

(** Selling 20 of 15 AAA. *)
Lemma sell_fails_iff_more_than_held_witness :
  ApplyTrades.apply_equity_trade
    (ApplyTrades.group_fills
       (fun f => (ApplyTrades.f_action f, ApplyTrades.f_ticker f))
       [ApplyTrades.mkfill "sell" "AAA" (Dec.mkdec false 20 0) (Dec.mkdec false 120 0) "USD"])
    [("AAA"%string,
      mkrow "AAA" (Dec.mkdec false 15000000 (-6)) (Dec.mkdec false 1033333 (-4)) "USD")]
    (ApplyTrades.mktrade "sell" "AAA" (Dec.mkdec false 20 0))
  = Err (InsufficientPosition "AAA").
Proof.
  refine (proj2 (sell_fails_iff_more_than_held
           (ApplyTrades.group_fills
              (fun f => (ApplyTrades.f_action f, ApplyTrades.f_ticker f))
              [ApplyTrades.mkfill "sell" "AAA" (Dec.mkdec false 20 0)
                 (Dec.mkdec false 120 0) "USD"])
           [("AAA"%string,
             mkrow "AAA" (Dec.mkdec false 15000000 (-6)) (Dec.mkdec false 1033333 (-4)) "USD")]
           (ApplyTrades.mktrade "sell" "AAA" (Dec.mkdec false 20 0))
           (mkrow "AAA" (Dec.mkdec false 15000000 (-6)) (Dec.mkdec false 1033333 (-4)) "USD")
           (Dec.mkdec false 20 0)
           [ApplyTrades.mkfill "sell" "AAA" (Dec.mkdec false 20 0)
              (Dec.mkdec false 120 0) "USD"]
           (Dec.mkdec false 120 0) _ _ _) _).
  - reflexivity.
  - reflexivity.
  - vm_compute. reflexivity.
  - vm_compute. reflexivity.
Defined.

(** X8.  [record_week.py] stops a fill with "non-positive qty" exactly
    when its quantity is zero or negative, before looking at the holdings,
    the action or the price. *)
Theorem record_week_rejects_non_positive :
  forall idx f,
    RecordWeek.apply_equity_fill idx f = Err (NonPositiveQuantity (RecordWeek.f_ticker f))
    <-> (Exact.value (RecordWeek.f_qty f) <= 0)%Q.
Proof.
  intros idx f.
  rewrite record_week_fill_is_transition.
  rewrite <- value_zero, <- leb_value.
  destruct (Dec.leb (RecordWeek.f_qty f) Dec.zero); split; try reflexivity; try discriminate.
  intros H. exfalso.
  apply transition_errors in H; [|discriminate].
  destruct H as [E|[E|[E|[s E]]]]; discriminate.
Qed.

(** ** The holdings file *)

Lemma forallb_some_ticker rows :
  (exists r, In r rows /\ ticker r = EmptyString) ->
  forallb (fun x => match ticker_or_symbol x with Some _ => true | None => false end) rows
  = false.
Proof.
  intros (r & Hin & Hr).
  destruct (forallb _ rows) eqn:E; [|reflexivity].
  rewrite forallb_forall in E. specialize (E r Hin).
  unfold ticker_or_symbol in E. rewrite Hr in E. discriminate.
Qed.

Lemma sorted_by_opt_key_fails rows :
  (2 <= List.length rows)%nat ->
  (exists r, In r rows /\ ticker r = EmptyString) ->
  sorted_by_opt_key ticker_or_symbol rows = Err TypeError.
Proof.
  intros Hl He. destruct rows as [|a [|b rows]]; cbn in Hl; try lia.
  unfold sorted_by_opt_key. rewrite (forallb_some_ticker _ He). reflexivity.
Qed.

(** X9.  The writers of [record_week.py] and [ledger_tui.py] open the
    holdings file for writing before they sort the rows.  With two or more
    rows of which one has an empty ticker, the sort key of that row is
    [None], [sorted] raises [TypeError], and the file is left without any
    row: [record_week.py] has then lost the previous holdings, while
    [ledger_tui.py] has renamed them aside first. *)
Theorem failed_sort_empties_the_holdings_file :
  forall path rows fs,
    (2 <= List.length rows)%nat ->
    (exists r, In r rows /\ ticker r = EmptyString) ->
    RecordWeek.write_holdings path rows fs
    = (Dict.set String.eqb path [] fs, Err TypeError)
    /\ forall stamp,
         LedgerTui.save_holdings path stamp rows fs
         = (Dict.set String.eqb path []
              (if exists_ path fs then rename path (backup_name path stamp) fs else fs),
            Err TypeError).
Proof.
  intros path rows fs Hl He.
  pose proof (sorted_by_opt_key_fails rows Hl He) as Hs.
  split.
  - unfold RecordWeek.write_holdings. rewrite Hs. reflexivity.
  - intros stamp. unfold LedgerTui.save_holdings. rewrite Hs. reflexivity.
Qed.

(** A run of [record_week.py] without fills on a file of two rows, the
    first with an empty ticker. *)
Lemma failed_sort_empties_the_holdings_file_witness :
  RecordWeek.write_holdings "holdings.csv"
    [mkrow "" (Dec.mkdec false 1000000 (-6)) (Dec.mkdec false 100000 (-4)) "USD";
     mkrow "AAA" (Dec.mkdec false 2000000 (-6)) (Dec.mkdec false 100000 (-4)) "USD"]
    [("holdings.csv"%string,
      [mkcsv "" "1.000000" "10.0000" "USD"; mkcsv "AAA" "2.000000" "10.0000" "USD"])]
  = ([("holdings.csv"%string, [])], Err TypeError).
Proof.
  refine (proj1 (failed_sort_empties_the_holdings_file "holdings.csv"
           [mkrow "" (Dec.mkdec false 1000000 (-6)) (Dec.mkdec false 100000 (-4)) "USD";
            mkrow "AAA" (Dec.mkdec false 2000000 (-6)) (Dec.mkdec false 100000 (-4)) "USD"]
           [("holdings.csv"%string,
             [mkcsv "" "1.000000" "10.0000" "USD"; mkcsv "AAA" "2.000000" "10.0000" "USD"])]
           _ _)).
  - cbn. lia.
  - eexists. split; [left; reflexivity | reflexivity].
Defined.

Lemma append_neq_self (p s : string) : s <> EmptyString -> String.append p s <> p.
Proof.
  intros Hs. induction p as [|c p IH]; cbn; intros H.
  - contradiction.
  - injection H as H. exact (IH H).
Qed.

Lemma backup_name_neq path ts : backup_name path ts <> path.
Proof. unfold backup_name. apply append_neq_self. discriminate. Qed.

(** X10.  [write_holdings] of [apply_trades.py] and [save_holdings] of
    [ledger_tui.py] keep the previous content of an existing holdings file
    under [<path>.bak-<timestamp>] and write the new rows to the path; a
    file that is neither of the two is left as it is. *)
Theorem previous_holdings_are_kept_aside :
  forall rows out ts fs old,
    Dict.get String.eqb out fs = Some old ->
    let fs' := ApplyTrades.write_holdings rows out ts fs in
    Dict.get String.eqb (backup_name out ts) fs' = Some old
    /\ Dict.get String.eqb out fs' = Some (map encode_row rows)
    /\ (forall p, p <> out -> p <> backup_name out ts ->
          Dict.get String.eqb p fs' = Dict.get String.eqb p fs)
    /\ (forall sorted,
          sorted_by_opt_key ticker_or_symbol rows = Ok sorted ->
          LedgerTui.save_holdings out ts rows fs
          = (ApplyTrades.write_holdings sorted out ts fs, Ok tt)).
Proof.
  intros rows out ts fs old Hg fs'. subst fs'.
  unfold ApplyTrades.write_holdings, exists_, rename. rewrite Hg.
  pose proof (backup_name_neq out ts) as Hn.
  split; [|split; [|split]].
  - rewrite (DictFacts.get_set_other _ string_eqb_spec) by exact Hn.
    apply (DictFacts.get_set_same _ string_eqb_spec).
  - apply (DictFacts.get_set_same _ string_eqb_spec).
  - intros p H1 H2.
    rewrite (DictFacts.get_set_other _ string_eqb_spec) by exact H1.
    rewrite (DictFacts.get_set_other _ string_eqb_spec) by exact H2.
    apply (DictFacts.get_del_other _ string_eqb_spec). exact H1.
  - intros sorted Hs. unfold LedgerTui.save_holdings, exists_, rename.
    rewrite Hg, Hs. reflexivity.
Qed.

(** Writing one row over a file of one row. *)
Lemma previous_holdings_are_kept_aside_witness :
  Dict.get String.eqb "holdings.csv.bak-20250907-120000"%string
    (ApplyTrades.write_holdings
       [mkrow "AAA" (Dec.mkdec false 2000000 (-6)) (Dec.mkdec false 100000 (-4)) "USD"]
       "holdings.csv" "20250907-120000"
       [("holdings.csv"%string, [mkcsv "AAA" "1.000000" "10.0000" "USD"])])
  = Some [mkcsv "AAA" "1.000000" "10.0000" "USD"].
Proof.
  refine (proj1 (previous_holdings_are_kept_aside
           [mkrow "AAA" (Dec.mkdec false 2000000 (-6)) (Dec.mkdec false 100000 (-4)) "USD"]
           "holdings.csv" "20250907-120000"
           [("holdings.csv"%string, [mkcsv "AAA" "1.000000" "10.0000" "USD"])]
           [mkcsv "AAA" "1.000000" "10.0000" "USD"] _)).
  reflexivity.
Defined.

(** X11.  [init_files_if_needed] creates a missing holdings file without
    rows, never touches an existing one, and does nothing the second
    time; the holdings loaded afterwards are those loaded before. *)
Theorem init_files_only_creates :
  forall path fs,
    (exists_ path fs = true -> LedgerTui.init_files_if_needed path fs = fs)
    /\ (exists_ path fs = false ->
        Dict.get String.eqb path (LedgerTui.init_files_if_needed path fs) = Some [])
    /\ LedgerTui.init_files_if_needed path (LedgerTui.init_files_if_needed path fs)
       = LedgerTui.init_files_if_needed path fs
    /\ LedgerTui.load_holdings (LedgerTui.init_files_if_needed path fs) path
       = LedgerTui.load_holdings fs path.
Proof.
  intros path fs. unfold LedgerTui.init_files_if_needed.
  split; [|split; [|split]].
  - intros ->. reflexivity.
  - intros ->. apply (DictFacts.get_set_same _ string_eqb_spec).
  - destruct (exists_ path fs) eqn:E; [rewrite E; reflexivity|].
    unfold exists_ at 1.
    rewrite (DictFacts.get_set_same _ string_eqb_spec). reflexivity.
  - unfold LedgerTui.load_holdings, exists_.
    destruct (Dict.get String.eqb path fs) eqn:E; [rewrite E; reflexivity|].
    rewrite (DictFacts.get_set_same _ string_eqb_spec). reflexivity.
Qed.

(** ** The index of the holdings *)

Lemma index_holdings_app {R : Type} (key : R -> string) rows r :
  ApplyTrades.index_holdings key (rows ++ [r])
  = Dict.set String.eqb (key r) r (ApplyTrades.index_holdings key rows).
Proof. unfold ApplyTrades.index_holdings. rewrite fold_left_app. reflexivity. Qed.

(** X12.  [{row[key]: row for row in rows}]: of several rows with the same
    ticker the index keeps the last, and no key occurs twice; equities and
    crypto alike ([index_by] of [record_week.py] is the same function). *)
Theorem index_keeps_the_last_row :
  forall (R : Type) (key : R -> string) (rows : list R) k,
    Dict.get String.eqb k (ApplyTrades.index_holdings key rows)
    = find (fun r => String.eqb k (key r)) (rev rows)
    /\ NoDup (Dict.keys (ApplyTrades.index_holdings key rows))
    /\ RecordWeek.index_by key rows = ApplyTrades.index_holdings key rows.
Proof.
  intros R key rows k. split; [|split; [|reflexivity]].
  - induction rows as [|r rows IH] using rev_ind; [reflexivity|].
    rewrite index_holdings_app, rev_app_distr. cbn [rev app find].
    destruct (String.eqb k (key r)) eqn:E.
    + apply String.eqb_eq in E. subst k.
      apply (DictFacts.get_set_same _ string_eqb_spec).
    + apply String.eqb_neq in E.
      rewrite (DictFacts.get_set_other _ string_eqb_spec) by exact E. exact IH.
  - induction rows as [|r rows IH] using rev_ind; [constructor|].
    rewrite index_holdings_app. apply (DictFacts.NoDup_set _ string_eqb_spec), IH.
Qed.

(** ** Opening a position *)

(** X13.  A reconciled buy of an instrument that is not held opens a
    position under the trade's ticker, with the quantity quantized to 6
    digits and the effective price to 4 digits, half-up, in the currency
    of the first matching fill of the file (quantity and price
    non-negative, below ten million, with at most 6 fractional digits). *)
Theorem first_buy_opens_the_position :
  forall fidx hidx t q f0 rest p,
    String.eqb (ApplyTrades.t_action t) "buy" = true ->
    Dict.get String.eqb (ApplyTrades.t_ticker t) hidx = None ->
    ApplyTrades.reconcile fidx t = Ok (q, f0 :: rest, p) ->
    Exact.modest q -> Exact.modest p ->
    ApplyTrades.apply_equity_trade fidx hidx t
    = Ok (Dict.set String.eqb (ApplyTrades.t_ticker t)
            (mkrow (ApplyTrades.t_ticker t)
               (Exact.quantized (Exact.value q) 6)
               (Exact.quantized (Exact.value p) 4)
               (ApplyTrades.f_currency f0))
            hidx).
Proof.
  intros fidx hidx t q f0 rest p Ha Hg Hr Wq Wp.
  unfold ApplyTrades.apply_equity_trade. rewrite Hr. cbn [bind].
  unfold ApplyTrades.transition. rewrite Ha, Hg.
  unfold ApplyTrades.round_shares, ApplyTrades.round_price.
  rewrite !TextFacts.D_id. cbn [bind].
  pose proof (UnitFacts.quantize_within 6 q 6 ltac:(lia) ltac:(lia) Wq) as H6.
  pose proof (UnitFacts.quantize_within 6 p 4 ltac:(lia) ltac:(lia) Wp) as H4.
  cbn [Z.opp] in H6, H4. rewrite H6. cbn [bind]. rewrite H4. reflexivity.
Qed.

(** The first buy of the spec's scenario: 10 AAA at 100. *)
Lemma first_buy_opens_the_position_witness :
  ApplyTrades.apply_equity_trade
    (ApplyTrades.group_fills
       (fun f => (ApplyTrades.f_action f, ApplyTrades.f_ticker f))
       [ApplyTrades.mkfill "buy" "AAA" (Dec.mkdec false 10 0) (Dec.mkdec false 100 0) "USD"])
    []
    (ApplyTrades.mktrade "buy" "AAA" (Dec.mkdec false 10 0))
  = Ok [("AAA"%string,
         mkrow "AAA" (Dec.mkdec false 10000000 (-6)) (Dec.mkdec false 1000000 (-4)) "USD")].
Proof.
  refine (first_buy_opens_the_position
            (ApplyTrades.group_fills
               (fun f => (ApplyTrades.f_action f, ApplyTrades.f_ticker f))
               [ApplyTrades.mkfill "buy" "AAA" (Dec.mkdec false 10 0)
                  (Dec.mkdec false 100 0) "USD"])
            []
            (ApplyTrades.mktrade "buy" "AAA" (Dec.mkdec false 10 0))
            (Dec.mkdec false 10 0)
            (ApplyTrades.mkfill "buy" "AAA" (Dec.mkdec false 10 0) (Dec.mkdec false 100 0) "USD")
            []
            (Dec.mkdec false 100 0) _ _ _ _ _).
  - reflexivity.
  - reflexivity.
  - vm_compute. reflexivity.
  - repeat split; vm_compute; try reflexivity; discriminate.
  - repeat split; vm_compute; try reflexivity; discriminate.
Defined.

(** ** Quantizing twice *)

Module QuantizeFacts.
Import Dec DecFacts ArithFacts Notions.

Lemma rescale_exp d e : dexp (rescale_half_up d e) = e.
Proof.
  unfold rescale_half_up.
  destruct (is_zero d); [reflexivity|]. destruct (dexp d >=? e); reflexivity.
Qed.

Lemma fix_zero s e :
  Etiny <= e <= Emax -> fix_ (mkdec s 0 e) = Ok (mkdec s 0 e).
Proof.
  intros He. unfold fix_. change (coeff (mkdec s 0 e)) with 0.
  change (0 =? 0) with true. cbv iota. cbn [dexp dsign].
  f_equal. f_equal. unfold Etiny, Emax, Emin, prec in *. lia.
Qed.

Lemma zero_eta d : coeff d = 0 -> d = mkdec (dsign d) 0 (dexp d).
Proof.
  destruct d as [s n e]. unfold coeff. cbn [dint dsign dexp]. intros H.
  f_equal. lia.
Qed.

(** A quantized value is a fixed point of [_fix] and of [quantize]. *)
Lemma quantize_idem d e y :
  quantize_half_up d e = Ok y -> quantize_half_up y e = Ok y.
Proof.
  unfold quantize_half_up at 1.
  destruct (negb ((Etiny <=? e) && (e <=? Emax))) eqn:Er; [discriminate|].
  assert (He : Etiny <= e <= Emax).
  { apply negb_false_iff, andb_true_iff in Er. destruct Er as [E1 E2].
    apply Z.leb_le in E1, E2. lia. }
  assert (Hzero : forall s, quantize_half_up (mkdec s 0 e) e = Ok (mkdec s 0 e)).
  { intros s. unfold quantize_half_up. rewrite Er.
    change (is_zero (mkdec s 0 e)) with true. cbn [dsign]. apply fix_zero, He. }
  destruct (is_zero d) eqn:Zd.
  - rewrite (fix_zero _ _ He). intros [= <-]. apply Hzero.
  - destruct (adjusted d >? Emax); [discriminate|].
    destruct (adjusted d - e + 1 >? prec); [discriminate|].
    pose proof (rescale_exp d e) as Hx.
    set (ans := rescale_half_up d e) in *.
    destruct (Z.gtb_spec (adjusted ans) Emax) as [|Hadj]; [discriminate|].
    destruct (Z.gtb_spec (ndigits (coeff ans)) prec) as [|Hnd]; [discriminate|].
    intros Hfix.
    assert (Hy : y = ans /\ fix_ ans = Ok ans).
    { unfold fix_ in Hfix |- *. rewrite Hx in *.
      destruct (Z.eqb_spec (coeff ans) 0) as [E0|N0].
      - assert (Ea : ans = mkdec (dsign ans) 0 e).
        { rewrite <- Hx. apply zero_eta, E0. }
        replace (Z.min (Z.max e Etiny) Emax) with e in * by lia.
        rewrite <- Ea in *. injection Hfix as <-. split; reflexivity.
      - destruct (ndigits (coeff ans) + e - prec >? Etop); [discriminate|].
        assert (Hlt : (e <? (if ndigits (coeff ans) + e - prec <? Etiny
                             then Etiny else ndigits (coeff ans) + e - prec)) = false).
        { apply Z.ltb_ge.
          destruct (ndigits (coeff ans) + e - prec <? Etiny); lia. }
        rewrite Hlt in *. injection Hfix as <-. split; reflexivity. }
    destruct Hy as [-> Hfa].
    unfold quantize_half_up. rewrite Er.
    destruct (is_zero ans) eqn:Za.
    + unfold is_zero in Za. apply Z.eqb_eq in Za.
      rewrite (fix_zero _ _ He). f_equal.
      rewrite <- Hx. symmetry. apply zero_eta, Za.
    + destruct (Z.gtb_spec (adjusted ans) Emax); [lia|].
      assert (Hn : (adjusted ans - e + 1 >? prec) = false).
      { rewrite Z.gtb_ltb. apply Z.ltb_ge. unfold adjusted. rewrite Hx. lia. }
      rewrite Hn.
      assert (Hr : rescale_half_up ans e = ans).
      { unfold rescale_half_up. rewrite Za, Hx.
        destruct (Z.geb_spec e e); [|lia].
        rewrite Z.sub_diag. change (10 ^ 0) with 1. rewrite Z.mul_1_r.
        rewrite <- Hx. apply triple_eta. }
      rewrite Hr.
      destruct (Z.gtb_spec (adjusted ans) Emax); [lia|].
      destruct (Z.gtb_spec (ndigits (coeff ans)) prec); [lia|].
      exact Hfa.
Qed.

End QuantizeFacts.

(** X14.  Rounding a quantity or a price that is already rounded gives it
    back, in the three scripts: what [round_shares] and [round_price]
    return is stable. *)
Theorem rounding_twice_is_once :
  (forall x y, ApplyTrades.round_shares x = Ok y -> ApplyTrades.round_shares y = Ok y)
  /\ (forall x y, ApplyTrades.round_price x = Ok y -> ApplyTrades.round_price y = Ok y)
  /\ (forall x y, LedgerTui.rounded_qty x = Ok y -> LedgerTui.rounded_qty y = Ok y)
  /\ (forall x y, LedgerTui.rounded_px x = Ok y -> LedgerTui.rounded_px y = Ok y)
  /\ (forall x y, RecordWeek.round_qty x = Ok y -> RecordWeek.round_qty y = Ok y)
  /\ (forall x y, RecordWeek.round_price x = Ok y -> RecordWeek.round_price y = Ok y).
Proof.
  repeat split; intros x y;
    unfold ApplyTrades.round_shares, ApplyTrades.round_price,
      LedgerTui.rounded_qty, LedgerTui.rounded_px, LedgerTui.QTY_PREC, LedgerTui.PX_PREC,
      RecordWeek.round_qty, RecordWeek.round_price;
    rewrite !TextFacts.D_id; cbn [bind]; apply QuantizeFacts.quantize_idem.
Qed.

(** 1.0000005 is rounded to 1.000001, which stays. *)
Lemma rounding_twice_is_once_witness :
  ApplyTrades.round_shares (Dec.mkdec false 1000001 (-6))
  = Ok (Dec.mkdec false 1000001 (-6)).
Proof.
  refine (proj1 rounding_twice_is_once
            (Dec.mkdec false 10000005 (-7)) (Dec.mkdec false 1000001 (-6)) _).
  vm_compute. reflexivity.
Defined.

(** ** The order of the fills of [record_week.py] *)

Lemma record_week_fill_wf idx f idx' :
  wf_idx idx -> RecordWeek.apply_equity_fill idx f = Ok idx' -> wf_idx idx'.
Proof.
  intros W H. rewrite record_week_fill_is_transition in H.
  destruct (Dec.leb _ _); [discriminate|].
  eapply transition_wf; eassumption.
Qed.



(** ** The crypto book is an equity book with one currency *)

Section DmapFacts.
Context {K V W : Type} (keq : K -> K -> bool) (g : V -> W).





End DmapFacts.



















(** ** The snapshot of the three writers *)

Lemma insert_by_ext {A : Type} (key key' : A -> string) x l :
  (forall a, key a = key' a) -> insert_by key x l = insert_by key' x l.
Proof.
  intros H. induction l as [|y l IH]; cbn; [reflexivity|].
  rewrite !H, IH. reflexivity.
Qed.

Lemma sorted_by_ext {A : Type} (key key' : A -> string) l :
  (forall a, key a = key' a) -> sorted_by key l = sorted_by key' l.
Proof.
  intros H. unfold sorted_by. generalize (@nil A) as acc.
  induction l as [|x l IH]; intros acc; cbn [fold_left]; [reflexivity|].
  rewrite (insert_by_ext key key' x acc H). apply IH.
Qed.

Lemma forallb_nonempty_ticker rows :
  (forall r, In r rows -> ticker r <> EmptyString) ->
  forallb (fun x => match ticker_or_symbol x with Some _ => true | None => false end) rows
  = true.
Proof.
  intros H. apply forallb_forall. intros r Hr. unfold ticker_or_symbol.
  destruct (String.eqb (ticker r) EmptyString) eqn:E; [|reflexivity].
  apply String.eqb_eq in E. exfalso. exact (H r Hr E).
Qed.

(** When no ticker is empty, or there is at most one row, the sort of the
    writers of [record_week.py] and [ledger_tui.py] is the sort by
    ticker. *)
Lemma sorted_by_opt_key_ok rows :
  (List.length rows <= 1)%nat \/ (forall r, In r rows -> ticker r <> EmptyString) ->
  sorted_by_opt_key ticker_or_symbol rows = Ok (sorted_by ticker rows).
Proof.
  intros H. destruct rows as [|a [|b rows]]; [reflexivity | reflexivity |].
  destruct H as [H|H]; [cbn in H; lia|].
  unfold sorted_by_opt_key. rewrite (forallb_nonempty_ticker _ H).
  f_equal. apply sorted_by_ext, opt_key_ticker.
Qed.

(** Whatever the writers manage to sort is in strictly ascending order of
    ticker, as long as no ticker occurs twice. *)
Lemma sorted_by_opt_key_sorted rows sorted :
  NoDup (map ticker rows) ->
  sorted_by_opt_key ticker_or_symbol rows = Ok sorted ->
  StronglySorted (key_lt ticker) sorted.
Proof.
  intros ND H.
  assert (S : StronglySorted (key_lt ticker) (sorted_by ticker rows)).
  { apply sorted_strict; [|apply sorted_by_sorted].
    eapply Permutation_NoDup; [|exact ND].
    apply Permutation_map. symmetry. apply sorted_by_perm. }
  destruct rows as [|a [|b rows]].
  - injection H as <-. constructor.
  - injection H as <-. constructor; constructor.
  - unfold sorted_by_opt_key in H.
    destruct (forallb _ (a :: b :: rows)); [|discriminate].
    injection H as <-.
    rewrite (sorted_by_ext _ ticker _ opt_key_ticker). exact S.
Qed.

Lemma encode_rows_sorted rows :
  StronglySorted (key_lt ticker) rows ->
  StronglySorted (key_lt c_ticker) (map encode_row rows).
Proof.
  induction 1 as [|r rows Hs IH Hr]; cbn; constructor; [exact IH|].
  rewrite Forall_forall in *. intros c Hc.
  apply in_map_iff in Hc. destruct Hc as (r' & <- & Hr').
  exact (Hr r' Hr').
Qed.

Lemma record_week_rows_distinct holdings fills rows :
  RecordWeek.apply_equity holdings fills = Ok rows -> NoDup (map ticker rows).
Proof.
  unfold RecordWeek.apply_equity. intros H. bind_inv H. injection H as <-.
  assert (W : wf_idx x).
  { eapply (for_each_inv wf_idx); [|apply (wf_idx_index_holdings holdings)|exact E].
    intros st t st' Hs Hb. eapply record_week_fill_wf; eassumption. }
  rewrite (wf_idx_keys _ W). apply W.
Qed.

Lemma ledger_tui_rows_distinct holdings trades rows :
  LedgerTui.apply_equity holdings trades = Ok rows -> NoDup (map ticker rows).
Proof.
  unfold LedgerTui.apply_equity. intros H. bind_inv H. injection H as <-.
  assert (W : wf_idx x).
  { eapply (for_each_inv wf_idx); [|apply (wf_idx_index_holdings holdings)|exact E].
    intros st t st' Hs Hb. eapply ledger_tui_trade_wf; eassumption. }
  rewrite (wf_idx_keys _ W). apply W.
Qed.

Lemma record_week_main_sorted fs path fills fs' :
  RecordWeek.main fs path fills = (fs', Ok tt) ->
  exists content,
    Dict.get String.eqb path fs' = Some content
    /\ StronglySorted (key_lt c_ticker) content.
Proof.
  unfold RecordWeek.main. intros H.
  destruct (RecordWeek.load_holdings fs path) as [holdings|e]; [|discriminate].
  destruct (forallb _ fills); [|discriminate].
  destruct (RecordWeek.apply_equity holdings fills) as [rows|e] eqn:E; [|discriminate].
  unfold RecordWeek.write_holdings in H.
  destruct (sorted_by_opt_key ticker_or_symbol rows) as [sorted|e] eqn:Es; [|discriminate].
  injection H as <-. exists (map encode_row sorted). split.
  - apply (DictFacts.get_set_same _ string_eqb_spec).
  - apply encode_rows_sorted.
    eapply sorted_by_opt_key_sorted; [|exact Es].
    eapply record_week_rows_distinct. exact E.
Qed.

Lemma ledger_tui_main_sorted fs path stamp trades fs' :
  LedgerTui.main fs path stamp trades = (fs', Ok tt) ->
  exists content,
    Dict.get String.eqb path fs' = Some content
    /\ StronglySorted (key_lt c_ticker) content.
Proof.
  unfold LedgerTui.main. intros H.
  destruct (LedgerTui.load_holdings _ path) as [holdings|e]; [|discriminate].
  destruct (LedgerTui.apply_equity holdings trades) as [rows|e] eqn:E; [|discriminate].
  unfold LedgerTui.save_holdings in H.
  destruct (sorted_by_opt_key ticker_or_symbol rows) as [sorted|e] eqn:Es; [|discriminate].
  injection H as <-. exists (map encode_row sorted). split.
  - apply (DictFacts.get_set_same _ string_eqb_spec).
  - apply encode_rows_sorted.
    eapply sorted_by_opt_key_sorted; [|exact Es].
    eapply ledger_tui_rows_distinct. exact E.
Qed.

(** C8, as the code has it.  [apply_trades.py] sorts the rows of every
    ledger by ticker, strictly ascending, whatever the order of the index,
    and writes them in that order.  [record_week.py] and [ledger_tui.py]
    sort in the writer, with the key [ticker or symbol]: whenever their
    run succeeds the file is in strictly ascending order of ticker, and
    the rows written do not depend on the order of the index; but with two
    or more rows of which one has an empty ticker the key is [None],
    [sorted] raises [TypeError] and the file, already opened for writing,
    is left without rows.  The last part is a run of [record_week.py] on a
    file holding AAA with one fill that buys an instrument with an empty
    ticker: the previous holdings are lost, where [apply_trades.py] writes
    the same two rows in order. *)
Theorem C8_snapshot_sorted_unless_ticker_empty :
  (forall holdings trades fills rows,
      ApplyTrades.apply_equity holdings trades fills = Ok rows ->
      StronglySorted (key_lt ticker) rows)
  /\ (forall fs holdings_path out_path ts trades fills fs',
      ApplyTrades.main fs holdings_path out_path ts trades fills = (fs', Ok tt) ->
      exists content,
        Dict.get String.eqb out_path fs' = Some content
        /\ StronglySorted (key_lt c_ticker) content)
  /\ (forall d1 d2 : Dict.dict (K:=string) (V:=row),
      wf_idx d1 -> Permutation d1 d2 ->
      sorted_by ticker (Dict.values d1) = sorted_by ticker (Dict.values d2))
  /\ (forall fs path fills fs',
      RecordWeek.main fs path fills = (fs', Ok tt) ->
      exists content,
        Dict.get String.eqb path fs' = Some content
        /\ StronglySorted (key_lt c_ticker) content)
  /\ (forall fs path stamp trades fs',
      LedgerTui.main fs path stamp trades = (fs', Ok tt) ->
      exists content,
        Dict.get String.eqb path fs' = Some content
        /\ StronglySorted (key_lt c_ticker) content)
  /\ (forall rows rows' path stamp fs,
      NoDup (map ticker rows) -> Permutation rows rows' ->
      RecordWeek.write_holdings path rows' fs = RecordWeek.write_holdings path rows fs
      /\ LedgerTui.save_holdings path stamp rows' fs
         = LedgerTui.save_holdings path stamp rows fs)
  /\ (forall rows path stamp fs,
      (List.length rows <= 1)%nat \/ (forall r, In r rows -> ticker r <> EmptyString) ->
      RecordWeek.write_holdings path rows fs
      = (Dict.set String.eqb path (map encode_row (sorted_by ticker rows)) fs, Ok tt)
      /\ LedgerTui.save_holdings path stamp rows fs
         = (ApplyTrades.write_holdings (sorted_by ticker rows) path stamp fs, Ok tt))
  /\ (forall rows path stamp fs,
      (2 <= List.length rows)%nat ->
      (exists r, In r rows /\ ticker r = EmptyString) ->
      RecordWeek.write_holdings path rows fs
      = (Dict.set String.eqb path [] fs, Err TypeError)
      /\ LedgerTui.save_holdings path stamp rows fs
         = (Dict.set String.eqb path []
              (if exists_ path fs then rename path (backup_name path stamp) fs else fs),
            Err TypeError))
  /\ RecordWeek.main
       [("holdings.csv"%string, [mkcsv "AAA" "2.000000" "10.0000" "USD"])]
       "holdings.csv"
       [RecordWeek.mkfill "buy" "" (Dec.mkdec false 1 0) (Dec.mkdec false 10 0) "USD"]
     = ([("holdings.csv"%string, [])], Err TypeError)
  /\ ApplyTrades.apply_equity
       [mkrow "AAA" (Dec.mkdec false 2000000 (-6)) (Dec.mkdec false 100000 (-4)) "USD";
        mkrow "" (Dec.mkdec false 1000000 (-6)) (Dec.mkdec false 100000 (-4)) "USD"]
       [] []
     = Ok [mkrow "" (Dec.mkdec false 1000000 (-6)) (Dec.mkdec false 100000 (-4)) "USD";
           mkrow "AAA" (Dec.mkdec false 2000000 (-6)) (Dec.mkdec false 100000 (-4)) "USD"].
Proof.
  destruct apply_trades_snapshot_sorted as (A1 & A2 & A3).
  split; [exact A1|]. split; [exact A2|]. split; [exact A3|].
  split; [exact record_week_main_sorted|].
  split; [exact ledger_tui_main_sorted|].
  split; [|split; [|split; [|split]]].
  - intros rows rows' path stamp fs ND P.
    unfold RecordWeek.write_holdings, LedgerTui.save_holdings.
    rewrite (sorted_by_opt_key_perm rows rows' ND P). split; reflexivity.
  - intros rows path stamp fs H.
    unfold RecordWeek.write_holdings, LedgerTui.save_holdings, ApplyTrades.write_holdings.
    rewrite (sorted_by_opt_key_ok rows H). split; reflexivity.
  - intros rows path stamp fs Hl He.
    unfold RecordWeek.write_holdings, LedgerTui.save_holdings.
    rewrite (sorted_by_opt_key_fails rows Hl He). split; reflexivity.
  - vm_compute. reflexivity.
  - vm_compute. reflexivity.
Qed.

(** A run of [record_week.py] that buys AAA and ZZZ, in that order of the
    index, writes AAA before ZZZ. *)
Lemma C8_snapshot_sorted_unless_ticker_empty_witness :
  exists content,
    Dict.get String.eqb "holdings.csv"%string
      [("holdings.csv"%string,
        [mkcsv "AAA" "10.000000" "100.0000" "USD"; mkcsv "ZZZ" "1.000000" "2.0000" "CAD"])]
    = Some content
    /\ StronglySorted (key_lt c_ticker) content.
Proof.
  refine (proj1 (proj2 (proj2 (proj2 C8_snapshot_sorted_unless_ticker_empty)))
            [("holdings.csv"%string, [mkcsv "ZZZ" "1.000000" "2.0000" "CAD"])]
            "holdings.csv"%string
            [RecordWeek.mkfill "buy" "AAA" (Dec.mkdec false 10 0) (Dec.mkdec false 100 0) "USD"]
            _ _).
  vm_compute. reflexivity.
Defined.
